(** * v-chat: the socket layer and the message controller

    A shallow embedding of [server/src/socket/index.js] and of
    [server/src/controllers/message.controller.js], with the properties the
    specification states about them.

    JavaScript objects used as dictionaries are finite maps, the adapter's
    room table is a finite map from room keys to finite sets of socket ids,
    and code that mutates the server or throws is written in a state and
    error monad over one [World] record. *)

From Stdlib Require Import Ascii String.
From stdpp Require Import base strings gmap list fin_maps.

Open Scope string_scope.
Open Scope list_scope.

(** ** JavaScript values the code passes around *)

(** A mongoose [ObjectId]: an object wrapping a hexadecimal string.
    [toString] gives that string back. The record does not check the
    format of the string; the ids made from a string, [ObjectId_of] below,
    are well formed. *)
Record ObjectId := mkObjectId { hex : string }.

Definition toString (o : ObjectId) : string := hex o.

Definition is_hex_digit (c : ascii) : bool :=
  let n := nat_of_ascii c in
  Nat.leb 48 n && Nat.leb n 57
  || Nat.leb 65 n && Nat.leb n 70
  || Nat.leb 97 n && Nat.leb n 102.

Fixpoint all_hex (s : string) : bool :=
  match s with
  | EmptyString => true
  | String c s' => is_hex_digit c && all_hex s'
  end.

(** A letter [A] to [F] as the id prints it. *)
Definition lower_hex (c : ascii) : ascii :=
  let n := nat_of_ascii c in
  if Nat.leb 65 n && Nat.leb n 70 then ascii_of_nat (n + 32) else c.

Fixpoint lowercase (s : string) : string :=
  match s with
  | EmptyString => EmptyString
  | String c s' => String (lower_hex c) (lowercase s')
  end.

(** The id a string stands for. [new mongoose.Types.ObjectId(s)] and the
    cast mongoose applies to the id of a query both accept a string of 24
    hexadecimal digits, in either case, and no other string; the id prints
    in lower case. *)
Definition ObjectId_of (s : string) : option ObjectId :=
  if Nat.eqb (String.length s) 24 && all_hex s
  then Some (mkObjectId (lowercase s))
  else None.

#[global] Instance ObjectId_eq_dec : EqDecision ObjectId.
Proof. solve_decision. Defined.

(** Whether [o] is the id the string stands for. *)
Definition has_id (s : string) (o : ObjectId) : bool :=
  bool_decide (ObjectId_of s = Some o).

#[global] Instance ObjectId_countable : Countable ObjectId.
Proof. apply (inj_countable' hex mkObjectId). by intros []. Defined.

(** A room key, as it is handed to [socket.join], [socket.leave] and
    [socket.in]. The adapter keeps rooms in a JavaScript [Map], whose keys
    are compared by identity of value: a string key and an [ObjectId]
    object are never the same key, even when the object prints as that
    string. No room is ever created under an [ObjectId] key by this code,
    so comparing [ROid] keys by their contents loses nothing.

    The handlers pass on whatever the client sent, so a key may also be a
    number (kept as JavaScript prints it: two numbers are the same key when
    they print alike), a boolean, [null], [undefined] (a packet without
    argument), or an object other than an array (a plain object, binary
    data, an acknowledgement function): such an object is a key by its
    identity, and every packet brings objects of its own. *)
Inductive Room :=
| RStr (s : string)
| ROid (o : ObjectId)
| RNum (printed : string)
| RBool (b : bool)
| RNull
| RUndefined
| RObj (identity : nat).

#[global] Instance Room_eq_dec : EqDecision Room.
Proof. solve_decision. Defined.

Definition Room_to_sum (r : Room)
    : string + ObjectId + (string + bool + (bool + nat)) :=
  match r with
  | RStr s => inl (inl s)
  | ROid o => inl (inr o)
  | RNum printed => inr (inl (inl printed))
  | RBool b => inr (inl (inr b))
  | RNull => inr (inr (inl true))
  | RUndefined => inr (inr (inl false))
  | RObj identity => inr (inr (inr identity))
  end.

Definition Room_of_sum (x : string + ObjectId + (string + bool + (bool + nat)))
    : Room :=
  match x with
  | inl (inl s) => RStr s
  | inl (inr o) => ROid o
  | inr (inl (inl printed)) => RNum printed
  | inr (inl (inr b)) => RBool b
  | inr (inr (inl true)) => RNull
  | inr (inr (inl false)) => RUndefined
  | inr (inr (inr identity)) => RObj identity
  end.

(** The argument of an inbound event as its handler gets it: one value, or
    an array of values. [socket.join] and [socket.in] take an array for the
    rooms it lists; an array inside an array is an object like any other. *)
Inductive Data :=
| One (key : Room)
| Many (keys : list Room).

Coercion One : Room >-> Data.

#[global] Instance Data_eq_dec : EqDecision Data.
Proof. solve_decision. Defined.

#[global] Instance Room_countable : Countable Room.
Proof. apply (inj_countable' Room_to_sum Room_of_sum). by intros []. Defined.

(** Truthiness of a value that is a string or [undefined]: [!token] holds
    for [undefined] and for the empty string. *)
Definition truthy (v : option string) : bool :=
  match v with
  | Some s => bool_decide (s ≠ "")
  | None => false
  end.

(** [a || b] on such values. *)
Definition js_or (a b : option string) : option string :=
  if truthy a then a else b.

(** Thrown values. [apiError] is the class of [utils/apiError.js] (a status
    code and a message); every other thrown value is kept with its name and
    its [message] property, which may be missing. *)
Inductive JsError :=
| apiError (statusCode : nat) (message : string)
| Thrown (name : string) (message : option string).

#[global] Instance JsError_eq_dec : EqDecision JsError.
Proof. solve_decision. Defined.

(** [error?.message] *)
Definition error_message (e : JsError) : option string :=
  match e with
  | apiError _ m => Some m
  | Thrown _ m => m
  end.

Definition ReferenceError (ident : string) : JsError :=
  Thrown "ReferenceError" (Some (ident +:+ " is not defined")).

Definition TypeError (what : string) : JsError :=
  Thrown "TypeError" (Some what).

(** The error of [new mongoose.Types.ObjectId(s)] for a string that is not
    an id. *)
Definition BSONError : JsError :=
  Thrown "BSONError"
    (Some "input must be a 24 character hex string, 12 byte Uint8Array, or an integer").

Definition quoted (s : string) : string :=
  String (ascii_of_nat 34) s +:+ String (ascii_of_nat 34) "".

(** The error of a mongoose query whose id cannot be cast. *)
Definition CastError (value path model : string) : JsError :=
  Thrown "CastError"
    (Some ("Cast to ObjectId failed for value " +:+ quoted value
           +:+ " (type string) at path " +:+ quoted path
           +:+ " for model " +:+ quoted model)).

(** ** Documents of the data store *)

Record UserDoc := mkUser {
  user_id : ObjectId;
  username : string;
  email : string;
  avatar : string;
  password : option string;
  refreshToken : option string }.

Record Attachment := mkAttachment { url : string; localPath : string }.

Record MessageDoc := mkMessage {
  msg_id : ObjectId;
  msg_sender : ObjectId;
  msg_content : string;
  msg_chat : ObjectId;
  msg_attachments : list Attachment }.

Record ChatDoc := mkChat {
  chat_id : ObjectId;
  chat_participants : list ObjectId;
  chat_lastMessage : option ObjectId }.

(** The sender as [messageCommonAggregation] projects it: [_id] (kept by
    default), [username], [avatar], [email]. *)
Record SenderView := mkSenderView {
  sv_id : ObjectId;
  sv_username : string;
  sv_avatar : string;
  sv_email : string }.

(** A message after [messageCommonAggregation]: the [$lookup] then
    [$first] leave the sender undefined when no user matches. *)
Record AggregatedMessage := mkAggregated {
  am_message : MessageDoc;
  am_sender : option SenderView }.

#[global] Instance UserDoc_eq_dec : EqDecision UserDoc.
Proof. solve_decision. Defined.
#[global] Instance Attachment_eq_dec : EqDecision Attachment.
Proof. solve_decision. Defined.
#[global] Instance MessageDoc_eq_dec : EqDecision MessageDoc.
Proof. solve_decision. Defined.
#[global] Instance ChatDoc_eq_dec : EqDecision ChatDoc.
Proof. solve_decision. Defined.
#[global] Instance SenderView_eq_dec : EqDecision SenderView.
Proof. solve_decision. Defined.
#[global] Instance AggregatedMessage_eq_dec : EqDecision AggregatedMessage.
Proof. solve_decision. Defined.

(** ** Events *)

(** Modelled from the spec: [ChatEventEnum] of [constants.js], which is not
    among the sources. Section 6 of the specification lists the event
    kinds; the constructors carry the names the sources use
    ([ChatEventEnum.TYPING_EVENT], ...), and [STOP_TYPING_EVENT] is the
    kind the specification calls TYPING_STOP. *)
Inductive ChatEventEnum :=
| CONNECTED_EVENT
| DISCONNECT_EVENT
| JOIN_CHAT_EVENT
| TYPING_EVENT
| STOP_TYPING_EVENT
| MESSAGE_RECEIVED_EVENT
| MESSAGE_DELETE_EVENT
| NEW_CHAT_EVENT
| UPDATE_GROUP_NAME_EVENT
| LEAVE_CHAT_EVENT
| SOCKET_ERROR_EVENT.

#[global] Instance ChatEventEnum_eq_dec : EqDecision ChatEventEnum.
Proof. solve_decision. Defined.

(** What an outbound event carries. *)
Inductive Payload :=
| PUndefined
| PText (s : string)
| PRoom (r : Room)
| PRooms (rs : list Room)
| PAggregated (m : AggregatedMessage)
| PMessage (m : MessageDoc).

#[global] Instance Payload_eq_dec : EqDecision Payload.
Proof. solve_decision. Defined.

Definition SocketId := string.

(** One event put on the wire towards one connection. *)
Record Delivery := mkDelivery {
  dl_to : SocketId;
  dl_event : ChatEventEnum;
  dl_data : Payload }.

#[global] Instance Delivery_eq_dec : EqDecision Delivery.
Proof. solve_decision. Defined.

(** ** The room registry *)

Module Registry.

(** Modelled from the spec: the room table behind [socket.join],
    [socket.leave] and [in(room)], which belongs to the socket.io
    dependency and is not among the sources. Section 4.2: a mapping from
    room identifier to the set of connection handles; [membersOf] is the
    current member set of a room, empty for a room without entry. *)
Definition membersOf (reg : gmap Room (gset SocketId)) (room : Room)
  : gset SocketId :=
  default ∅ (reg !! room).

(** Modelled from the spec: [join] of section 4.2, behind [socket.join] of
    the socket.io dependency: it adds the handle to the room's member set,
    creating the set if absent. *)
Definition join (room : Room) (c : SocketId)
    (reg : gmap Room (gset SocketId)) : gmap Room (gset SocketId) :=
  <[room := membersOf reg room ∪ {[c]}]> reg.

(** Modelled from the spec: [leave] of section 4.2, behind [socket.leave]
    of the socket.io dependency: it removes the handle, and prunes the
    room's entry when the resulting set is empty. *)
Definition leave (room : Room) (c : SocketId)
    (reg : gmap Room (gset SocketId)) : gmap Room (gset SocketId) :=
  match reg !! room with
  | None => reg
  | Some members =>
      if decide (members ∖ {[c]} = ∅) then delete room reg
      else <[room := members ∖ {[c]}]> reg
  end.

(** Modelled from the spec: the cleanup of sections 3 and 4.5, which the
    socket.io dependency runs when a connection closes and which is not
    among the sources: all room memberships held by the connection are
    removed as one step. As with [leave], a room left without member is
    pruned; a room the connection is not in is not touched. *)
Definition leave_all (c : SocketId) (reg : gmap Room (gset SocketId))
    : gmap Room (gset SocketId) :=
  omap (λ members,
          if decide (c ∈ members)
          then if decide (members ∖ {[c]} = ∅) then None
               else Some (members ∖ {[c]})
          else Some members) reg.

(** Every handle the registry holds, in whatever room. *)
Definition handles (reg : gmap Room (gset SocketId)) : gset SocketId :=
  ⋃ (snd <$> map_to_list reg).

(** No room of the registry is kept with an empty member set. *)
Definition no_empty_room (reg : gmap Room (gset SocketId)) : Prop :=
  ∀ room, reg !! room ≠ Some ∅.

End Registry.

(** ** The server state *)

(** The closures [socket.on] registers, named after the function that
    mounts them. *)
Inductive Handler :=
| HJoinChat
| HParticipantTyping
| HParticipantStoppedTyping
| HDisconnect.

#[global] Instance Handler_eq_dec : EqDecision Handler.
Proof. solve_decision. Defined.

(** A connection as the handlers see it: [socket.user], the listeners
    registered with [socket.on] in registration order, and
    [socket.connected], which is true from the moment the connection
    handler runs until the connection closes; nothing in the sources
    closes it. *)
Record Socket := mkSocket {
  sock_user : option UserDoc;
  sock_listeners : list (ChatEventEnum * Handler);
  sock_connected : bool }.

#[global] Instance Socket_eq_dec : EqDecision Socket.
Proof. solve_decision. Defined.

Record World := mkWorld {
  users : list UserDoc;
  chats : list ChatDoc;
  messages : list MessageDoc;
  files : gset string;
  rooms : gmap Room (gset SocketId);
  sockets : gmap SocketId Socket;
  outbox : list Delivery }.

Definition with_rooms (f : gmap Room (gset SocketId) → gmap Room (gset SocketId))
    (w : World) : World :=
  mkWorld (users w) (chats w) (messages w) (files w) (f (rooms w))
          (sockets w) (outbox w).

Definition with_sockets (f : gmap SocketId Socket → gmap SocketId Socket)
    (w : World) : World :=
  mkWorld (users w) (chats w) (messages w) (files w) (rooms w)
          (f (sockets w)) (outbox w).

Definition with_outbox (f : list Delivery → list Delivery) (w : World) : World :=
  mkWorld (users w) (chats w) (messages w) (files w) (rooms w)
          (sockets w) (f (outbox w)).

Definition with_messages (f : list MessageDoc → list MessageDoc) (w : World)
    : World :=
  mkWorld (users w) (chats w) (f (messages w)) (files w) (rooms w)
          (sockets w) (outbox w).

Definition with_chats (f : list ChatDoc → list ChatDoc) (w : World) : World :=
  mkWorld (users w) (f (chats w)) (messages w) (files w) (rooms w)
          (sockets w) (outbox w).

Definition with_files (f : gset string → gset string) (w : World) : World :=
  mkWorld (users w) (chats w) (messages w) (f (files w)) (rooms w)
          (sockets w) (outbox w).

(** ** Code that changes the world or throws *)

Definition Eff (A : Type) : Type := World → World * (JsError + A).

Definition ret {A} (a : A) : Eff A := λ w, (w, inr a).

Definition throw {A} (e : JsError) : Eff A := λ w, (w, inl e).

Definition bind {A B} (m : Eff A) (k : A → Eff B) : Eff B :=
  λ w, match m w with
       | (w', inr a) => k a w'
       | (w', inl e) => (w', inl e)
       end.

Definition get : Eff World := λ w, (w, inr w).

Definition modify (f : World → World) : Eff unit := λ w, (f w, inr tt).

Notation "'let!' x ':=' m 'in' k" := (bind m (λ x, k))
  (at level 10, x name, m at level 100, k at level 200).
Notation "m '>>>' k" := (bind m (λ _, k))
  (at level 90, right associativity).

(** [arr.forEach(f)]: an exception in [f] ends the loop. *)
Fixpoint forEach {A} (f : A → Eff unit) (l : list A) : Eff unit :=
  match l with
  | [] => ret tt
  | x :: l' => f x >>> forEach f l'
  end.

(** ** The socket API, as far as the sources call it *)

Module SocketIO.

(** [socket.join(room)] *)
Definition socket_join (sid : SocketId) (room : Room) : Eff unit :=
  modify (with_rooms (Registry.join room sid)).

(** [socket.leave(room)] *)
Definition socket_leave (sid : SocketId) (room : Room) : Eff unit :=
  modify (with_rooms (Registry.leave room sid)).

(** [socket.emit(event, payload)]: to this connection only. *)
Definition socket_emit (sid : SocketId) (event : ChatEventEnum)
    (payload : Payload) : Eff unit :=
  modify (with_outbox (λ o, o ++ [mkDelivery sid event payload])).

(** The deliveries of one broadcast: one per member, in the order the
    member set is enumerated. *)
Definition fanout (members : gset SocketId) (event : ChatEventEnum)
    (payload : Payload) : list Delivery :=
  (λ c, mkDelivery c event payload) <$> elements members.

(** [socket.in(room).emit(event, payload)]: to the members of the room
    at call time, the calling socket excepted. *)
Definition socket_in_emit (sid : SocketId) (room : Room)
    (event : ChatEventEnum) (payload : Payload) : Eff unit :=
  modify (λ w, with_outbox
    (λ o, o ++ fanout (Registry.membersOf (rooms w) room ∖ {[sid]})
                      event payload) w).

(** Whom a broadcast to several rooms addresses: the members of any of
    them, each once. With no room at all, socket.io addresses every handle
    it holds. *)
Definition audience (reg : gmap Room (gset SocketId)) (keys : list Room)
    : gset SocketId :=
  match keys with
  | [] => Registry.handles reg
  | _ => ⋃ (Registry.membersOf reg <$> keys)
  end.

(** [socket.in(rooms).emit(event, payload)] for an array of rooms. *)
Definition socket_in_many_emit (sid : SocketId) (keys : list Room)
    (event : ChatEventEnum) (payload : Payload) : Eff unit :=
  modify (λ w, with_outbox
    (λ o, o ++ fanout (audience (rooms w) keys ∖ {[sid]}) event payload) w).

(** [io.in(room).emit(event, payload)]: to every member of the room at
    call time. *)
Definition io_in_emit (room : Room) (event : ChatEventEnum)
    (payload : Payload) : Eff unit :=
  modify (λ w, with_outbox
    (λ o, o ++ fanout (Registry.membersOf (rooms w) room) event payload) w).

(** [socket.on(event, handler)]: appended to the socket's listeners. *)
Definition socket_on (sid : SocketId) (event : ChatEventEnum) (h : Handler)
    : Eff unit :=
  modify (with_sockets
    (alter (λ s, mkSocket (sock_user s) (sock_listeners s ++ [(event, h)])
                          (sock_connected s)) sid)).

(** [socket.user = user] *)
Definition set_socket_user (sid : SocketId) (u : UserDoc) : Eff unit :=
  modify (with_sockets
    (alter (λ s, mkSocket (Some u) (sock_listeners s) (sock_connected s))
           sid)).

(** The socket object the server hands to the connection handler. *)
Definition fresh_socket : Socket := mkSocket None [] true.

End SocketIO.

Import SocketIO.

(** ** server/src/socket/index.js *)

(** [socket.join(chatId)]: the room, or each room of an array. *)
Definition join_chat (sid : SocketId) (chatId : Data) : Eff unit :=
  match chatId with
  | One key => socket_join sid key
  | Many keys => forEach (socket_join sid) keys
  end.

(** [socket.in(chatId).emit(ChatEventEnum.TYPING_EVENT, chatId)] *)
Definition typing (sid : SocketId) (chatId : Data) : Eff unit :=
  match chatId with
  | One key => socket_in_emit sid key TYPING_EVENT (PRoom key)
  | Many keys => socket_in_many_emit sid keys TYPING_EVENT (PRooms keys)
  end.

(** The body of each registered closure; [sid] is the socket the closure
    captured and [chatId] the first argument of the event. Logging is left
    out. *)
Definition run_handler (h : Handler) (sid : SocketId) (chatId : Data)
    : Eff unit :=
  match h with
  | HJoinChat => join_chat sid chatId
  | HParticipantTyping => typing sid chatId
  | HParticipantStoppedTyping => typing sid chatId
  | HDisconnect =>
      let! w := get in
      match sockets w !! sid ≫= sock_user with
      | Some u => socket_leave sid (ROid (user_id u))
      | None => ret tt
      end
  end.

Definition mountJoinChatEvent (sid : SocketId) : Eff unit :=
  socket_on sid JOIN_CHAT_EVENT HJoinChat.

Definition mountParticipantTypingEvent (sid : SocketId) : Eff unit :=
  socket_on sid TYPING_EVENT HParticipantTyping.

Definition mountParticipantStoppedTypingEvent (sid : SocketId) : Eff unit :=
  socket_on sid TYPING_EVENT HParticipantStoppedTyping.

(** What the handshake handler gets from outside the repository: the
    [cookie] parser, the token verifier and the secret of the
    environment. *)
Record Collaborators := mkCollaborators {
  cookie_parse : string → gmap string string;
  jwt_verify : string → string → JsError + option string;
  ACCESS_TOKEN_SECRET : string }.

(** [socket.handshake]: the cookie header and the [auth.token] field, each
    of which may be missing. *)
Record Handshake := mkHandshake {
  headers_cookie : option string;
  auth_token : option string }.

(** Splitting a string at every occurrence of a separator. *)
Fixpoint split_on (sep : ascii) (acc : string) (s : string) : list string :=
  match s with
  | EmptyString => [acc]
  | String c s' =>
      if decide (c = sep) then acc :: split_on sep "" s'
      else split_on sep (acc +:+ String c "") s'
  end.

(** [.select(projection)] on a user document: a field named with a
    leading minus is dropped. *)
Definition select (projection : string) (u : UserDoc) : UserDoc :=
  let excluded f := bool_decide (("-" +:+ f) ∈ split_on " " "" projection) in
  mkUser (user_id u) (username u) (email u) (avatar u)
         (if excluded "password" then None else password u)
         (if excluded "refreshToken" then None else refreshToken u).

(** [User.findById(id)]: [null] when [id] is undefined or matches no
    document. *)
Definition User_findById (us : list UserDoc) (id : option string)
    : option UserDoc :=
  id ≫= λ i, List.find (λ u, bool_decide (hex (user_id u) = i)) us.

Definition default_socket_error : string :=
  "Something went wrong while connecting to the socket.".

(** The value of [token] after line 45: the cookie's [accessToken], or
    the [auth.token] field when the cookie gives nothing. *)
Definition handshake_token (deps : Collaborators) (handshake : Handshake)
    : option string :=
  let cookies :=
    cookie_parse deps (default "" (js_or (headers_cookie handshake) (Some ""))) in
  let token := cookies !! "accessToken" in
  if negb (truthy token) then auth_token handshake else token.

(** Lines 39 to 59 of the [try] block: from the handshake to the user
    document, or to the error thrown. The decoded token is represented by
    its [_id] field; [us] is the user collection. *)
Definition authenticate (deps : Collaborators) (handshake : Handshake)
    (us : list UserDoc) : JsError + UserDoc :=
  let token := handshake_token deps handshake in
  if negb (truthy token)
  then inl (apiError 401 "Unauthorized handshake. Token missing.")
  else
    match jwt_verify deps (default "" token) (ACCESS_TOKEN_SECRET deps) with
    | inl error => inl error
    | inr decodedToken_id =>
        match select "-password -refreshToken"
                <$> User_findById us decodedToken_id with
        | None =>
            inl (apiError 401 "Unauthenticated handshake. User not found.")
        | Some user => inr user
        end
    end.

(** Lines 61 to 77: what the handler does with the user it found. *)
Definition attach_user (sid : SocketId) (user : UserDoc) : Eff unit :=
  set_socket_user sid user >>>
  socket_join sid (RStr (toString (user_id user))) >>>
  socket_emit sid CONNECTED_EVENT PUndefined >>>
  mountJoinChatEvent sid >>>
  mountParticipantTypingEvent sid >>>
  mountParticipantStoppedTypingEvent sid >>>
  socket_on sid DISCONNECT_EVENT HDisconnect.

(** The [try] block of the connection handler. *)
Definition connection_try (deps : Collaborators) (sid : SocketId)
    (handshake : Handshake) : Eff unit :=
  let! w := get in
  match authenticate deps handshake (users w) with
  | inl error => throw error
  | inr user => attach_user sid user
  end.

(** The payload of the [catch] block:
    [error?.message || "Something went wrong ..."]. *)
Definition reported (error : JsError) : string :=
  default default_socket_error (js_or (error_message error) None).

(** The connection handler of [initializeSocketIO]: the [try] block, and
    the [catch] block that reports the error to the socket. What the [try]
    block did before it threw stays done. *)
Definition on_connection (deps : Collaborators) (sid : SocketId)
    (handshake : Handshake) (w : World) : World :=
  let w0 := with_sockets (<[sid := fresh_socket]>) w in
  match connection_try deps sid handshake w0 with
  | (w', inr _) => w'
  | (w', inl error) =>
      fst (socket_emit sid SOCKET_ERROR_EVENT (PText (reported error)) w')
  end.

(** What the server does before it calls the connection handler: socket.io
    puts every socket in a room named by the socket's own id. *)
Definition connect (deps : Collaborators) (sid : SocketId)
    (handshake : Handshake) (w : World) : World :=
  on_connection deps sid handshake
    (with_rooms (Registry.join (RStr sid) sid) w).

(** The listeners of a socket for an event, run in registration order. A
    handler that throws stops the dispatch. *)
Definition dispatch (sid : SocketId) (event : ChatEventEnum) (data : Data)
    (w : World) : World :=
  match sockets w !! sid with
  | None => w
  | Some s =>
      fst (forEach (λ '(ev, h),
                      if decide (ev = event) then run_handler h sid data
                      else ret tt)
                   (sock_listeners s) w)
  end.

(** The event socket.io keeps for itself: it fires [disconnect] when the
    connection closes, and a packet of that name never reaches the
    listeners. *)
Definition reserved (event : ChatEventEnum) : bool :=
  bool_decide (event = DISCONNECT_EVENT).

(** An inbound event on a connection, sent by the client: its listeners
    run, unless the connection is closed or the event is reserved. *)
Definition receive (sid : SocketId) (event : ChatEventEnum) (data : Data)
    (w : World) : World :=
  match sockets w !! sid with
  | None => w
  | Some s =>
      if sock_connected s && negb (reserved event)
      then dispatch sid event data w
      else w
  end.

(** [socket.connected = false] *)
Definition close (sid : SocketId) (w : World) : World :=
  with_sockets
    (alter (λ s, mkSocket (sock_user s) (sock_listeners s) false) sid) w.

(** The close of a connection, by the client or by the transport: socket.io
    takes the socket out of all its rooms, marks it as not connected, and
    only then fires [disconnect], whose listener is that of lines 71 to
    77. A socket that is closed already is left alone. *)
Definition disconnect (sid : SocketId) (reason : string) (w : World) : World :=
  match sockets w !! sid with
  | None => w
  | Some s =>
      if sock_connected s
      then dispatch sid DISCONNECT_EVENT (RStr reason)
             (close sid (with_rooms (Registry.leave_all sid) w))
      else w
  end.

(** [emitSocketEvent(req, roomId, event, payload)] *)
Definition emitSocketEvent (roomId : Room) (event : ChatEventEnum)
    (payload : Payload) : Eff unit :=
  io_in_emit roomId event payload.

(** ** server/src/utils/helpers.js *)

(** [fs.unlinkSync] throws when the file is not there. *)
Definition removeLocalFile (localFilePath : string) : Eff unit :=
  λ w, if decide (localFilePath ∈ files w)
       then (with_files (λ fs, fs ∖ {[localFilePath]}) w, inr tt)
       else (w, inl (Thrown "Error" (Some "ENOENT: no such file or directory"))).

(** The template starts with the literal text [$(req.protocol)]. *)
Definition getStatisFilePath (host fileName : string) : string :=
  "$(req.protocol)://" +:+ host +:+ "/images/" +:+ fileName.

Definition getLocalPath (fileName : string) : string :=
  "public/images/" +:+ fileName.

(** ** server/src/controllers/message.controller.js *)

(** Which of the names the controller reads are bound in its module.
    Reading a name that is neither imported nor declared throws a
    [ReferenceError]. The controller is stated over any such scope, so that
    what the function is written to do and what it does under the import
    list of the file can both be said. *)
Record ModuleScope := mkScope {
  binds_ChatEventEnum : bool;
  binds_getStaticFilePath : bool;
  binds_ApiResponse : bool }.

(** Lines 1 to 12 of the file import [mongoose], [Chat], [Message],
    [emitSocketEvent], [apiError], [apiResponse], [asyncHandler],
    [getLocalPath], [getStatisFilePath] and [removeLocalFile]: none of the
    three names below. *)
Definition message_controller_scope : ModuleScope := mkScope false false false.

(** The scope of a module that binds the three names. *)
Definition complete_scope : ModuleScope := mkScope true true true.

Definition resolve (bound : bool) (ident : string) : Eff unit :=
  if bound then ret tt else throw (ReferenceError ident).

(** The request, after the routing and authentication middleware. *)
Record Request := mkRequest {
  params_chatId : string;
  params_messageId : string;
  body_content : option string;
  files_attachments : option (list string);
  req_user : UserDoc;
  req_host : string }.

Record Response := mkResponse {
  res_status : nat;
  res_data : Payload;
  res_message : string }.

#[global] Instance Response_eq_dec : EqDecision Response.
Proof. solve_decision. Defined.

(** The first chat whose id is the one the string stands for; none when
    the string is not an id. *)
Definition chat_with_id (chatId : string) (cs : list ChatDoc) : option ChatDoc :=
  List.find (λ c, has_id chatId (chat_id c)) cs.

(** The first chat with the given id and the given participant. *)
Definition chat_of_participant (chatId : string) (userId : ObjectId)
    (cs : list ChatDoc) : option ChatDoc :=
  List.find (λ c, has_id chatId (chat_id c)
                  && bool_decide (userId ∈ chat_participants c)) cs.

(** The first message with the given id. *)
Definition message_with_id (messageId : string) (ms : list MessageDoc)
    : option MessageDoc :=
  List.find (λ m, has_id messageId (msg_id m)) ms.

(** [new mongoose.Types.ObjectId(s)] for a string [s]. *)
Definition new_ObjectId (s : string) : Eff ObjectId :=
  match ObjectId_of s with
  | Some o => ret o
  | None => throw BSONError
  end.

(** The cast of the id of a query on [model]; the query is rejected when
    the string is not an id. *)
Definition cast_id (model path s : string) : Eff ObjectId :=
  match ObjectId_of s with
  | Some o => ret o
  | None => throw (CastError s path model)
  end.

(** [Chat.findById(chatId)] *)
Definition Chat_findById (chatId : string) : Eff (option ChatDoc) :=
  cast_id "Chat" "_id" chatId >>>
  let! w := get in ret (chat_with_id chatId (chats w)).

(** [Chat.findOne({ _id: new mongoose.Types.ObjectId(chatId),
    participants: userId })]: the filter is built first, and its
    constructor throws for a string that is not an id. *)
Definition Chat_findOne (chatId : string) (userId : ObjectId)
    : Eff (option ChatDoc) :=
  new_ObjectId chatId >>>
  let! w := get in ret (chat_of_participant chatId userId (chats w)).

(** Replace the first element that satisfies [p]. *)
Fixpoint update_first {A} (p : A → bool) (f : A → A) (l : list A) : list A :=
  match l with
  | [] => []
  | x :: l' => if p x then f x :: l' else x :: update_first p f l'
  end.

(** Remove the first element that satisfies [p]. *)
Fixpoint remove_first {A} (p : A → bool) (l : list A) : list A :=
  match l with
  | [] => []
  | x :: l' => if p x then l' else x :: remove_first p l'
  end.

(** [Chat.findByIdAndUpdate(chatId, { lastMessage })]; the document
    returned is the updated one. *)
Definition Chat_findByIdAndUpdate (chatId : string)
    (lastMessage : option ObjectId) : Eff (option ChatDoc) :=
  let is_it c := has_id chatId (chat_id c) in
  let set c := mkChat (chat_id c) (chat_participants c) lastMessage in
  cast_id "Chat" "_id" chatId >>>
  modify (with_chats (update_first is_it set)) >>>
  let! w := get in ret (chat_with_id chatId (chats w)).

(** [Message.create]: the store assigns [fresh] as [_id]; documents are
    kept in creation order. *)
Definition Message_create (fresh sender : ObjectId) (content : string)
    (chat : ObjectId) (attachments : list Attachment) : Eff MessageDoc :=
  let message := mkMessage fresh sender content chat attachments in
  modify (with_messages (λ ms, ms ++ [message])) >>> ret message.

(** [Message.findOne({ _id: new mongoose.Types.ObjectId(messageId) })] *)
Definition Message_findOne (messageId : string) : Eff (option MessageDoc) :=
  new_ObjectId messageId >>>
  let! w := get in ret (message_with_id messageId (messages w)).

(** [Message.findOne({ chat: chatId }, {}, { sort: { createdAt: -1 } })] *)
Definition Message_findLatest (chatId : string) : Eff (option MessageDoc) :=
  cast_id "Message" "chat" chatId >>>
  let! w := get in
  ret (List.find (λ m, has_id chatId (msg_chat m)) (rev (messages w))).

(** [Message.deleteOne({ _id: new mongoose.Types.ObjectId(messageId) })] *)
Definition Message_deleteOne (messageId : string) : Eff unit :=
  new_ObjectId messageId >>>
  modify (with_messages (remove_first (λ m, has_id messageId (msg_id m)))).

(** The pipeline of [messageCommonAggregation] on one message: the sender
    is looked up in the user collection and projected. *)
Definition messageCommonAggregation (us : list UserDoc) (m : MessageDoc)
    : AggregatedMessage :=
  mkAggregated m
    ((λ u, mkSenderView (user_id u) (username u) (avatar u) (email u))
       <$> List.find (λ u, bool_decide (user_id u = msg_sender m)) us).

(** [Message.aggregate([{ $match: { _id } }, ...messageCommonAggregation()])] *)
Definition Message_aggregate (id : ObjectId) : Eff (list AggregatedMessage) :=
  let! w := get in
  ret (messageCommonAggregation (users w)
         <$> filter (λ m, msg_id m = id) (messages w)).

(** The participants other than the requester. *)
Definition others (req : Request) (participants : list ObjectId)
    : list ObjectId :=
  filter (λ p, toString p ≠ toString (user_id (req_user req))) participants.

(** The deliveries of one [emitSocketEvent] per participant of [notified],
    each to the room named by the participant's id. *)
Definition notifications (reg : gmap Room (gset SocketId))
    (event : ChatEventEnum) (payload : Payload) (notified : list ObjectId)
    : list Delivery :=
  flat_map (λ p, fanout (Registry.membersOf reg (RStr (toString p)))
                        event payload) notified.

(** The [forEach] over the participants that ends both controllers: the
    requester is skipped, every other participant is notified in the room
    named by the participant's id. The event is read from [ChatEventEnum]
    when the arguments of the call are evaluated. *)
Definition notify_participants (sc : ModuleScope) (req : Request)
    (event : ChatEventEnum) (payload : Payload) (participants : list ObjectId)
    : Eff unit :=
  forEach (λ participantObjectId,
             if decide (toString participantObjectId
                        = toString (user_id (req_user req)))
             then ret tt
             else
               resolve (binds_ChatEventEnum sc) "ChatEventEnum" >>>
               emitSocketEvent (RStr (toString participantObjectId))
                               event payload)
          participants.

(** [sendMessage], lines 79 to 150. [fresh] is the [_id] the store gives
    to the new message. The url of an attachment is computed by
    [getStaticFilePath], a name the module does not bind; where the scope
    binds it, it stands for the helper exported as [getStatisFilePath]. *)
Definition sendMessage (sc : ModuleScope) (req : Request) (fresh : ObjectId)
    : Eff Response :=
  let chatId := params_chatId req in
  let content := body_content req in
  let attachments := default [] (files_attachments req) in
  if negb (truthy content) && bool_decide (length attachments = 0)
  then throw (apiError 400 "Message content or attachment is required")
  else
    let! selectedChat := Chat_findById chatId in
    match selectedChat with
    | None => throw (apiError 404 "Chat does not exist")
    | Some _ =>
        let! messageFiles :=
          (if bool_decide (0 < length attachments)
           then resolve (binds_getStaticFilePath sc) "getStaticFilePath" >>>
                ret ((λ filename,
                        mkAttachment (getStatisFilePath (req_host req) filename)
                                     (getLocalPath filename)) <$> attachments)
           else ret []) in
        let! chat_oid := new_ObjectId chatId in
        let! message :=
          Message_create fresh (user_id (req_user req))
            (default "" (js_or content (Some "")))
            chat_oid messageFiles in
        let! chat := Chat_findByIdAndUpdate chatId (Some (msg_id message)) in
        let! found := Message_aggregate (msg_id message) in
        match head found with
        | None => throw (apiError 500 "Internal server error")
        | Some receivedMessage =>
            match chat with
            | None =>
                throw (TypeError "Cannot read properties of null (reading 'participants')")
            | Some chat =>
                notify_participants sc req MESSAGE_RECEIVED_EVENT
                  (PAggregated receivedMessage) (chat_participants chat) >>>
                resolve (binds_ApiResponse sc) "ApiResponse" >>>
                ret (mkResponse 201 (PAggregated receivedMessage)
                                "Message saved successfully")
            end
        end
    end.

(** [deleteMessage], lines 154 to 215. *)
Definition deleteMessage (sc : ModuleScope) (req : Request) : Eff Response :=
  let chatId := params_chatId req in
  let messageId := params_messageId req in
  let! chat := Chat_findOne chatId (user_id (req_user req)) in
  match chat with
  | None => throw (apiError 404 "Chat does not exist")
  | Some chat =>
      let! message := Message_findOne messageId in
      match message with
      | None => throw (apiError 404 "Message does not exist")
      | Some message =>
          if negb (bool_decide (toString (msg_sender message)
                                = toString (user_id (req_user req))))
          then throw (apiError 403
            "You are not the authorised to delete the message, you are not the sender")
          else
            forEach (λ asset, removeLocalFile (localPath asset))
                    (msg_attachments message) >>>
            Message_deleteOne messageId >>>
            match chat_lastMessage chat with
            | None =>
                throw (TypeError "Cannot read properties of null (reading 'toString')")
            | Some last =>
                (if bool_decide (toString last = toString (msg_id message))
                 then
                   let! lastMessage := Message_findLatest chatId in
                   Chat_findByIdAndUpdate chatId (msg_id <$> lastMessage) >>>
                   ret tt
                 else ret tt) >>>
                notify_participants sc req MESSAGE_DELETE_EVENT
                  (PMessage message) (chat_participants chat) >>>
                ret (mkResponse 200 (PMessage message)
                                "Message deleted successfully")
            end
      end
  end.

(** ** The lifecycle of a connection *)

(** The listeners of a connection whose handshake succeeded, in the order
    lines 67 to 71 register them. *)
Definition core_listeners : list (ChatEventEnum * Handler) :=
  [ (JOIN_CHAT_EVENT, HJoinChat);
    (TYPING_EVENT, HParticipantTyping);
    (TYPING_EVENT, HParticipantStoppedTyping);
    (DISCONNECT_EVENT, HDisconnect) ].

(** Modelled from the spec: the lifecycle states of section 4.5, which the
    sources do not name. A socket that is no longer connected is [Closed];
    a connected socket without a user is [Connecting]; with a user it is
    [Authenticated], and [Active] once the core listeners are registered. *)
Inductive Phase := Connecting | Authenticated | Active | Closed.

#[global] Instance Phase_eq_dec : EqDecision Phase.
Proof. solve_decision. Defined.

(** Modelled from the spec: the lifecycle state of section 4.5 a socket
    is in, read off the fields the handlers set. *)
Definition phase (s : Socket) : Phase :=
  if negb (sock_connected s) then Closed
  else match sock_user s with
       | None => Connecting
       | Some _ =>
           if decide (sock_listeners s = core_listeners) then Active
           else Authenticated
       end.

(** A run of inbound events on one connection. *)
Definition receive_all (sid : SocketId)
    (events : list (ChatEventEnum * Data)) (w : World) : World :=
  foldl (λ w '(event, data), receive sid event data w) w events.

(** The suffix of [after] that was appended to [before]. *)
Definition appended {A} (before after : list A) : list A :=
  drop (length before) after.

(** ** Concrete collaborators and data for the examples *)

Module Example.

(** Dropping the spaces a string starts with. *)
Fixpoint trim_left (s : string) : string :=
  match s with
  | String c s' => if decide (c = " "%char) then trim_left s' else s
  | EmptyString => EmptyString
  end.

(** Cutting a string at the first occurrence of a separator. *)
Fixpoint cut_at (sep : ascii) (acc : string) (s : string)
    : option (string * string) :=
  match s with
  | EmptyString => None
  | String c s' =>
      if decide (c = sep) then Some (acc, s')
      else cut_at sep (acc +:+ String c "") s'
  end.

(** A parser for [name=value; name=value] headers; the first occurrence
    of a name wins. *)
Definition parse_cookie (header : string) : gmap string string :=
  list_to_map
    (omap (λ part, cut_at "="%char "" (trim_left part))
          (split_on ";"%char "" header)).

(** A verifier that accepts the tokens [valid.<id>] and decodes them to
    [<id>]. *)
Definition verify (token secret : string) : JsError + option string :=
  if String.prefix "valid." token
  then inr (Some (String.substring 6 (String.length token - 6) token))
  else inl (Thrown "JsonWebTokenError" (Some "jwt malformed")).

Definition deps : Collaborators := mkCollaborators parse_cookie verify "s3cret".

(** The ids of the chats and messages of the examples. *)
Definition chat42_id : string := "c00000000000000000000042".
Definition chat7_id : string := "c00000000000000000000007".
Definition m1_id : string := "a00000000000000000000001".
Definition m2_id : string := "a00000000000000000000002".
Definition m3_id : string := "a00000000000000000000003".

Definition u1 : UserDoc :=
  mkUser (mkObjectId "u1") "ann" "ann@example.org" "ann.png"
         (Some "hash1") (Some "refresh1").
Definition u2 : UserDoc :=
  mkUser (mkObjectId "u2") "bob" "bob@example.org" "bob.png"
         (Some "hash2") None.
Definition u3 : UserDoc :=
  mkUser (mkObjectId "u3") "cat" "cat@example.org" "cat.png"
         (Some "hash3") None.

(** A message of [u1] in the chat [chat42], with one stored file. *)
Definition m1 : MessageDoc :=
  mkMessage (mkObjectId m1_id) (mkObjectId "u1") "hello" (mkObjectId chat42_id)
            [mkAttachment "http://host/images/a.png" "public/images/a.png"].

(** The chat [chat42] of [u1] and [u2]. *)
Definition chat42 : ChatDoc :=
  mkChat (mkObjectId chat42_id) [mkObjectId "u1"; mkObjectId "u2"]
         (Some (mkObjectId m1_id)).

(** The store before any connection. *)
Definition store : World :=
  mkWorld [u1; u2; u3] [chat42] [m1] {["public/images/a.png"]} ∅ ∅ [].

Definition by_cookie (token : string) : Handshake :=
  mkHandshake (Some ("theme=dark; accessToken=" +:+ token)) None.

Definition by_auth_field (token : string) : Handshake :=
  mkHandshake None (Some token).

Definition no_token : Handshake := mkHandshake None None.

(** Connection [A] of [u1] and connection [B] of [u2], both in the room
    [chat42]. *)
Definition two_in_chat42 : World :=
  receive "B" JOIN_CHAT_EVENT (RStr "chat42")
    (receive "A" JOIN_CHAT_EVENT (RStr "chat42")
       (connect deps "B" (by_auth_field "valid.u2")
          (connect deps "A" (by_cookie "valid.u1") store))).

(** Connections [A] of [u1], [B] of [u2] and [X] of [u3]; [A] and [X]
    have joined the room [chat42], [B] has not. *)
Definition outsider_in_chat42 : World :=
  receive "X" JOIN_CHAT_EVENT (RStr "chat42")
    (receive "A" JOIN_CHAT_EVENT (RStr "chat42")
       (connect deps "X" (by_auth_field "valid.u3")
          (connect deps "B" (by_auth_field "valid.u2")
             (connect deps "A" (by_cookie "valid.u1") store)))).

(** [u1] sends "hi" to [chat42]. *)
Definition send_hi : Request :=
  mkRequest chat42_id "" (Some "hi") None u1 "host".

(** [u3], who is not in [chat42], asks to delete the message of [u1]. *)
Definition delete_by_outsider : Request :=
  mkRequest chat42_id m1_id None None u3 "host".

(** [u2], who is in [chat42], asks to delete the message of [u1]. *)
Definition delete_by_other_member : Request :=
  mkRequest chat42_id m1_id None None u2 "host".

End Example.

(** ** message.controller.js: reading the messages of a chat *)

(** The answer of [getAllMessages]: the status, the messages and the text
    of [apiResponse]. *)
Record MessagesResponse := mkMessagesResponse {
  mres_status : nat;
  mres_data : list AggregatedMessage;
  mres_message : string }.

(** [getAllMessages], lines 43 to 75. Both refusals are built with
    [new ApiError(...)], a name the module does not bind (it imports
    [apiError]); [binds_ApiError] says whether the scope binds it.
    [participants.includes] on a mongoose array compares ids by value. The
    pipeline ends with [$sort: { createdAt: -1 }]: newest first, that is
    the creation order reversed. *)
Definition getAllMessages (binds_ApiError : bool) (req : Request)
    : Eff MessagesResponse :=
  let chatId := params_chatId req in
  let! selectedChat := Chat_findById chatId in
  match selectedChat with
  | None =>
      resolve binds_ApiError "ApiError" >>>
      throw (apiError 404 "Chat does not exist")
  | Some selectedChat =>
      if negb (bool_decide (user_id (req_user req)
                            ∈ chat_participants selectedChat))
      then
        resolve binds_ApiError "ApiError" >>>
        throw (apiError 400 "User is not a part of this chat")
      else
        let! chat_oid := new_ObjectId chatId in
        let! w := get in
        ret (mkMessagesResponse 200
               (rev (messageCommonAggregation (users w)
                       <$> filter (λ m, msg_chat m = chat_oid) (messages w)))
               "Messages fetched successfully")
  end.

(** ** The chat controller: deleting the messages of a chat *)

(** [deleteCascadeChatMessages], lines 72 to 92 of the chat controller:
    the messages of the chat are collected, the files of all their
    attachments are removed one after the other, and only then the
    messages are deleted. Its callers pass the id of a chat they have
    found, as that chat prints it. *)
Definition deleteCascadeChatMessages (chatId : string) : Eff unit :=
  let! w := get in
  let found := filter (λ m, msg_chat m = mkObjectId chatId) (messages w) in
  let attachments := concat (msg_attachments <$> found) in
  forEach (λ attachment, removeLocalFile (localPath attachment)) attachments >>>
  modify (with_messages (filter (λ m, msg_chat m ≠ mkObjectId chatId))).

(** ** Runs of the server *)

(** The rooms a value names. *)
Definition keys_of (data : Data) : list Room :=
  match data with
  | One key => [key]
  | Many keys => keys
  end.

Definition is_object (key : Room) : bool :=
  match key with
  | RObj _ => true
  | _ => false
  end.

(** Whether a key can come off the wire: never an [ObjectId] of the
    server, and an object only when no room is keyed by it yet. *)
Definition wire_key (reg : gmap Room (gset SocketId)) (key : Room) : bool :=
  match key with
  | ROid _ => false
  | RObj _ => bool_decide (reg !! key = None)
  | _ => true
  end.

(** Whether a value can be the argument of an inbound packet: its keys can
    come off the wire, and its objects are distinct. *)
Definition off_the_wire (reg : gmap Room (gset SocketId)) (data : Data) : bool :=
  forallb (wire_key reg) (keys_of data)
  && bool_decide (NoDup (filter (λ key, is_object key = true) (keys_of data))).

(** What can happen to the server: a connection with a socket id not yet
    in use, an inbound event with whatever argument the client sent, the
    close of a connection, and the calls of the controllers. *)
Inductive Action :=
| Connect (sid : SocketId) (handshake : Handshake)
| Inbound (sid : SocketId) (event : ChatEventEnum) (data : Data)
| Disconnect (sid : SocketId) (reason : string)
| Emit (roomId : Room) (event : ChatEventEnum) (payload : Payload)
| SendMessage (sc : ModuleScope) (req : Request) (fresh : ObjectId)
| DeleteMessage (sc : ModuleScope) (req : Request)
| GetAllMessages (binds_ApiError : bool) (req : Request)
| DeleteCascade (chatId : string).

(** One action; [None] when a connection reuses a socket id, and when an
    inbound packet carries the reserved event, which a client cannot send,
    or an argument that cannot come off the wire. Each action is one step:
    the handlers are taken to run without another action in between. *)
Definition perform (deps : Collaborators) (a : Action) (w : World)
    : option World :=
  match a with
  | Connect sid handshake =>
      if decide (sockets w !! sid = None)
      then Some (connect deps sid handshake w)
      else None
  | Inbound sid event data =>
      if off_the_wire (rooms w) data && negb (reserved event)
      then Some (receive sid event data w)
      else None
  | Disconnect sid reason => Some (disconnect sid reason w)
  | Emit roomId event payload => Some (fst (emitSocketEvent roomId event payload w))
  | SendMessage sc req fresh => Some (fst (sendMessage sc req fresh w))
  | DeleteMessage sc req => Some (fst (deleteMessage sc req w))
  | GetAllMessages bound req => Some (fst (getAllMessages bound req w))
  | DeleteCascade chatId => Some (fst (deleteCascadeChatMessages chatId w))
  end.

Fixpoint run (deps : Collaborators) (actions : list Action) (w : World)
    : option World :=
  match actions with
  | [] => Some w
  | a :: rest => perform deps a w ≫= run deps rest
  end.

(** The server before any connection, over some data store. *)
Definition boot (us : list UserDoc) (cs : list ChatDoc) (ms : list MessageDoc)
    (fs : gset string) : World :=
  mkWorld us cs ms fs ∅ ∅ [].

(** The socket of a connection whose handshake succeeded for [user]. *)
Definition authenticated_socket (user : UserDoc) : Socket :=
  mkSocket (Some user) core_listeners true.

(** What every run keeps true of the connections and the rooms: a socket
    has no user and no listener, or a user without secrets and the core
    listeners; a member of a room is a connected socket, and one without
    user is in no room but the one named by its own id; a connected socket
    is in that room, and in the room named by its user's id when it has a
    user; no room is keyed by an [ObjectId]; no room is empty. *)
Record healthy (w : World) : Prop := mkHealthy {
  healthy_sockets : ∀ sid s,
    sockets w !! sid = Some s →
    (sock_user s = None ∧ sock_listeners s = [])
    ∨ ∃ user, sock_user s = Some user ∧ sock_listeners s = core_listeners
              ∧ password user = None ∧ refreshToken user = None;
  healthy_members : ∀ room sid,
    sid ∈ Registry.membersOf (rooms w) room →
    ∃ s, sockets w !! sid = Some s ∧ sock_connected s = true
         ∧ (sock_user s = None → room = RStr sid);
  healthy_own : ∀ sid s,
    sockets w !! sid = Some s → sock_connected s = true →
    sid ∈ Registry.membersOf (rooms w) (RStr sid);
  healthy_identity : ∀ sid s user,
    sockets w !! sid = Some s → sock_connected s = true →
    sock_user s = Some user →
    sid ∈ Registry.membersOf (rooms w) (RStr (toString (user_id user)));
  healthy_keys : ∀ o, rooms w !! ROid o = None;
  healthy_rooms : Registry.no_empty_room (rooms w) }.

(** The connections are as they were: same rooms, same sockets. *)
Definition same_connections (w w' : World) : Prop :=
  rooms w' = rooms w ∧ sockets w' = sockets w.

(** The stored messages are as they were. *)
Definition same_messages (w w' : World) : Prop := messages w' = messages w.

(** A computation whose final world is related to its initial world. *)
Definition keeps {A} (R : World → World → Prop) (m : Eff A) : Prop :=
  ∀ w, R w (fst (m w)).

(** How often [c] is delivered to in a list of deliveries. *)
Definition deliveries_to (c : SocketId) (ds : list Delivery) : nat :=
  length (filter (λ d, dl_to d = c) ds).

(** The error [fs.unlinkSync] throws for a file that is not there. *)
Definition ENOENT : JsError :=
  Thrown "Error" (Some "ENOENT: no such file or directory").


(** The data store is as it was. *)
Definition same_store (w w' : World) : Prop :=
  users w' = users w ∧ chats w' = chats w ∧ messages w' = messages w
  ∧ files w' = files w.

(** The message [sendMessage] stores. *)
Definition message_to_store (req : Request) (fresh : ObjectId) : MessageDoc :=
  mkMessage fresh (user_id (req_user req))
    (default "" (js_or (body_content req) (Some "")))
    (mkObjectId (lowercase (params_chatId req)))
    ((λ filename, mkAttachment (getStatisFilePath (req_host req) filename)
                               (getLocalPath filename))
       <$> default [] (files_attachments req)).

(** The world once [sendMessage] has stored the message and pointed the
    chat at it. *)
Definition after_store (req : Request) (fresh : ObjectId) (w : World) : World :=
  with_chats
    (update_first (λ c, has_id (params_chatId req) (chat_id c))
       (λ c, mkChat (chat_id c) (chat_participants c) (Some fresh)))
    (with_messages (λ ms, ms ++ [message_to_store req fresh]) w).

(** Whether the request passes the first check of [sendMessage]. *)
Definition has_content (req : Request) : Prop :=
  truthy (body_content req) = true ∨ default [] (files_attachments req) ≠ [].

(** The newest message of a chat. *)
Definition latest_message (chatId : string) (ms : list MessageDoc)
    : option MessageDoc :=
  List.find (λ m, has_id chatId (msg_chat m)) (rev ms).

(** The local paths of the attachments of a message. *)
Definition message_files (message : MessageDoc) : list string :=
  localPath <$> msg_attachments message.

(** The world after the steps of [deleteMessage] that follow the removal
    of the files: the message is gone, the chat points at the newest
    remaining message if it pointed at the deleted one, and the other
    participants are notified. *)
Definition after_delete_tail (req : Request) (chat : ChatDoc)
    (message : MessageDoc) (last : ObjectId) (w : World) : World :=
  let remaining :=
    remove_first (λ m, has_id (params_messageId req) (msg_id m))
                 (messages w) in
  let repoint :=
    if bool_decide (toString last = toString (msg_id message))
    then update_first (λ c, has_id (params_chatId req) (chat_id c))
           (λ c, mkChat (chat_id c) (chat_participants c)
                        (msg_id <$> latest_message (params_chatId req) remaining))
    else id in
  mkWorld (users w) (repoint (chats w)) remaining (files w)
          (rooms w) (sockets w)
          (outbox w ++ notifications (rooms w) MESSAGE_DELETE_EVENT
                         (PMessage message)
                         (others req (chat_participants chat))).

(** The world after [deleteMessage] went through. *)
Definition after_delete (req : Request) (chat : ChatDoc) (message : MessageDoc)
    (last : ObjectId) (w : World) : World :=
  after_delete_tail req chat message last
    (with_files (λ fs, fs ∖ list_to_set (message_files message)) w).

(** The steps of [deleteMessage] from [Message.deleteOne] on. *)
Definition delete_tail (sc : ModuleScope) (req : Request) (chat : ChatDoc)
    (message : MessageDoc) : Eff Response :=
  Message_deleteOne (params_messageId req) >>>
  match chat_lastMessage chat with
  | None =>
      throw (TypeError "Cannot read properties of null (reading 'toString')")
  | Some last =>
      (if bool_decide (toString last = toString (msg_id message))
       then
         let! lastMessage := Message_findLatest (params_chatId req) in
         Chat_findByIdAndUpdate (params_chatId req) (msg_id <$> lastMessage) >>>
         ret tt
       else ret tt) >>>
      notify_participants sc req MESSAGE_DELETE_EVENT
        (PMessage message) (chat_participants chat) >>>
      ret (mkResponse 200 (PMessage message) "Message deleted successfully")
  end.

(** At most the chats and the outbox changed. *)
Definition only_chats_and_deliveries (w w' : World) : Prop :=
  users w' = users w ∧ messages w' = messages w ∧ files w' = files w.

Module Scenario.

(** Two connections, each joining the room [chat42]. *)
Definition two_join : list Action :=
  [ Connect "A" (Example.by_cookie "valid.u1");
    Connect "B" (Example.by_auth_field "valid.u2");
    Inbound "A" JOIN_CHAT_EVENT (RStr "chat42");
    Inbound "B" JOIN_CHAT_EVENT (RStr "chat42") ].

(** The store the runs start from. *)
Definition start : World :=
  boot [Example.u1; Example.u2; Example.u3] [Example.chat42] [Example.m1]
       {["public/images/a.png"]}.

(** A connection [C] whose handshake fails, a connection [A] of [u1] that
    joins the rooms [chat42] and, sending a number, [42], and a connection
    [B] of [u2] that joins [chat42]; then [A] closes. *)
Definition mixed : list Action :=
  [ Connect "C" Example.no_token;
    Connect "A" (Example.by_cookie "valid.u1");
    Connect "B" (Example.by_auth_field "valid.u2");
    Inbound "A" JOIN_CHAT_EVENT (RStr "chat42");
    Inbound "A" JOIN_CHAT_EVENT (RNum "42");
    Inbound "B" JOIN_CHAT_EVENT (RStr "chat42");
    Inbound "C" JOIN_CHAT_EVENT (RStr "chat42");
    Disconnect "A" "transport close" ].

(** The worlds these runs end in. *)
Definition after_two_join : World :=
  default start (run Example.deps two_join start).

Definition after_mixed : World :=
  default start (run Example.deps mixed start).

(** A second message of [u1] in [chat42], without attachment, and a
    message of [u2] in another chat. *)
Definition m2 : MessageDoc :=
  mkMessage (mkObjectId Example.m2_id) (mkObjectId "u1") "again"
            (mkObjectId Example.chat42_id) [].

Definition m3 : MessageDoc :=
  mkMessage (mkObjectId Example.m3_id) (mkObjectId "u2") "elsewhere"
            (mkObjectId Example.chat7_id)
            [mkAttachment "http://host/images/b.png" "public/images/b.png"].

(** A store with the three messages and both files. *)
Definition store3 : World :=
  mkWorld [Example.u1; Example.u2; Example.u3] [Example.chat42]
          [Example.m1; m2; m3]
          {["public/images/a.png"; "public/images/b.png"]} ∅ ∅ [].

(** The same store after the file of [m1] was lost. *)
Definition store_without_file : World :=
  mkWorld [Example.u1; Example.u2; Example.u3] [Example.chat42]
          [Example.m1; m2; m3] {["public/images/b.png"]} ∅ ∅ [].

(** [u1] asks to delete the own message [m1]. *)
Definition delete_own : Request :=
  mkRequest Example.chat42_id Example.m1_id None None Example.u1 "host".

(** [u1] sends a picture to [chat42]. *)
Definition send_picture : Request :=
  mkRequest Example.chat42_id "" None (Some ["c.png"]) Example.u1 "host".

(** [u2] reads [chat42]; [u3], who is not in it, tries to. *)
Definition read_by_member : Request :=
  mkRequest Example.chat42_id "" None None Example.u2 "host".

Definition read_by_outsider : Request :=
  mkRequest Example.chat42_id "" None None Example.u3 "host".

End Scenario.

(** ** server/src/controllers/user.controller.js *)

Definition with_users (f : list UserDoc → list UserDoc) (w : World) : World :=
  mkWorld (f (users w)) (chats w) (messages w) (files w) (rooms w)
          (sockets w) (outbox w).

(** [try { body } catch (error) { handler }]: what the body did before it
    threw stays done. *)
Definition try_catch {A} (body : Eff A) (handler : JsError → Eff A) : Eff A :=
  λ w, match body w with
       | (w', inr a) => (w', inr a)
       | (w', inl error) => handler error w'
       end.

(** What the user controller takes from the user model, which is not
    among the sources, and from the environment: the call
    [User.generateAccessToken()], made on the model and not on a document,
    which gives a token or throws; the methods [generateRefreshToken] and
    [isPasswordCorrect] of a document, the second taken to answer always;
    the secret of the refresh tokens. *)
Record UserModel := mkUserModel {
  User_generateAccessToken : JsError + string;
  generateRefreshToken : UserDoc → JsError + string;
  isPasswordCorrect : UserDoc → string → bool;
  REFRESH_TOKEN_SECRET : string }.

(** What the user controller answers: the status, the cookies set, the
    cookies cleared, and the user and the tokens of the body where there
    are any. *)
Record UserResponse := mkUserResponse {
  ur_status : nat;
  ur_cookies : list (string * string);
  ur_cleared : list string;
  ur_user : option UserDoc;
  ur_accessToken : option string;
  ur_refreshToken : option string;
  ur_message : string }.

(** A user document with another refresh token. *)
Definition set_refreshToken (value : string) (u : UserDoc) : UserDoc :=
  mkUser (user_id u) (username u) (email u) (avatar u) (password u)
         (Some value).

(** [user.refreshToken = value; user.save()], and the [$set] of
    [logoutuser]: the first document with that id gets the value. *)
Definition store_refreshToken (id : string) (value : string) : Eff unit :=
  modify (with_users
            (update_first (λ u, bool_decide (hex (user_id u) = id))
                          (set_refreshToken value))).

(** [generateAccessAndRefreshToken], lines 7 to 26. *)
Definition generateAccessAndRefreshToken (model : UserModel) (userId : string)
    : Eff (string * string) :=
  try_catch
    (let! w := get in
     match User_findById (users w) (Some userId) with
     | None => throw (apiError 404 "User not found. Invalid user id.")
     | Some user =>
         match User_generateAccessToken model with
         | inl error => throw error
         | inr accessToken =>
             match generateRefreshToken model user with
             | inl error => throw error
             | inr refreshToken =>
                 store_refreshToken userId refreshToken >>>
                 ret (accessToken, refreshToken)
             end
         end
     end)
    (λ _, throw (apiError 500 "Could not generate token.")).

(** The body of a login request. *)
Record LoginRequest := mkLoginRequest {
  body_email : option string;
  body_password : option string }.

(** [loginUser], lines 61 to 99. *)
Definition loginUser (model : UserModel) (req : LoginRequest)
    : Eff UserResponse :=
  if negb (truthy (body_email req)) || negb (truthy (body_password req))
  then throw (apiError 400 "Email and password are required.")
  else
    let! w := get in
    match List.find (λ u, bool_decide (Some (email u) = body_email req))
                    (users w) with
    | None => throw (apiError 404 "User not found.")
    | Some user =>
        if negb (isPasswordCorrect model user (default "" (body_password req)))
        then throw (apiError 401 "Invalid credentials.")
        else
          let! tokens :=
            generateAccessAndRefreshToken model (hex (user_id user)) in
          let! w := get in
          let loggedInUser :=
            select "-password -refreshToken"
              <$> User_findById (users w) (Some (hex (user_id user))) in
          ret (mkUserResponse 200
                 [("accessToken", fst tokens); ("refreshToken", snd tokens)]
                 [] loggedInUser (Some (fst tokens)) (Some (snd tokens))
                 "User logged in successfully.")
    end.

(** [logoutuser], lines 101 to 113; [user] is [req.user]. *)
Definition logoutuser (user : UserDoc) : Eff UserResponse :=
  store_refreshToken (hex (user_id user)) "" >>>
  ret (mkUserResponse 200 [] ["accessToken"; "refreshToken"] None None None
         "User logged out successfully.").

(** Where a refresh request may carry its token; [req.cookies] and
    [req.body] are objects, as the cookie and body parsers leave them. *)
Record RefreshRequest := mkRefreshRequest {
  cookies_refreshToken : option string;
  body_refreshToken : option string }.

(** [refreshAccessToken], lines 115 to 162. The decoded token is
    represented by its [_id] field. *)
Definition refreshAccessToken (deps : Collaborators) (model : UserModel)
    (req : RefreshRequest) : Eff UserResponse :=
  let receivedRefreshToken :=
    js_or (cookies_refreshToken req) (body_refreshToken req) in
  if negb (truthy receivedRefreshToken)
  then throw (apiError 401 "No refresh token provided.")
  else
    try_catch
      (match jwt_verify deps (default "" receivedRefreshToken)
               (REFRESH_TOKEN_SECRET model) with
       | inl error => throw error
       | inr decodedToken_id =>
           let! w := get in
           match User_findById (users w) decodedToken_id with
           | None =>
               throw (apiError 401 "User not found. Invalid refresh token.")
           | Some user =>
               if negb (bool_decide (refreshToken user = receivedRefreshToken))
               then throw (apiError 401
                      "Refresh tokens don't match. Invalid refresh token.")
               else
                 let! tokens :=
                   generateAccessAndRefreshToken model (hex (user_id user)) in
                 ret (mkUserResponse 200
                        [("accessToken", fst tokens);
                         ("refreshToken", snd tokens)]
                        [] None (Some (fst tokens)) (Some (snd tokens))
                        "Access token refreshed successfully.")
           end
       end)
      (λ _, throw (apiError 401
              "Couldn't refresh access token. Invalid refresh token.")).

(** The refresh token a request carries. *)
Definition received_token (req : RefreshRequest) : option string :=
  js_or (cookies_refreshToken req) (body_refreshToken req).

Definition refresh_refused : JsError :=
  apiError 401 "Couldn't refresh access token. Invalid refresh token.".

Module Accounts.

(** A verifier that accepts the tokens [<serial>.<id>] and decodes them
    to [<id>]. *)
Definition verify (token secret : string) : JsError + option string :=
  match Example.cut_at "."%char "" token with
  | Some (_, id) => inr (Some id)
  | None => inl (Thrown "JsonWebTokenError" (Some "jwt malformed"))
  end.

Definition deps : Collaborators :=
  mkCollaborators Example.parse_cookie verify "s3cret".

(** A user model that signs the refresh token [new.<id>] for a user, and
    takes [p] for the password of a user whose stored hash is [hash<p>]. *)
Definition model : UserModel :=
  mkUserModel (inr "access") (λ u, inr ("new." +:+ hex (user_id u)))
    (λ u given, bool_decide (password u = Some ("hash" +:+ given)))
    "r3fresh".

(** A user that holds the refresh token [old.u1]. *)
Definition ann : UserDoc :=
  mkUser (mkObjectId "u1") "ann" "ann@example.org" "ann.png"
         (Some "hash1") (Some "old.u1").

Definition store : World := mkWorld [ann; Example.u2] [] [] ∅ ∅ ∅ [].

Definition login (address given : string) : LoginRequest :=
  mkLoginRequest (Some address) (Some given).

Definition refresh_with (token : string) : RefreshRequest :=
  mkRefreshRequest (Some token) None.

End Accounts.

(** * Properties *)

#[local] Set Warnings "-clear-no-such-hyp".

(** A decidable closed proposition, settled by evaluating its decision. *)
Ltac by_evaluation := apply (bool_decide_unpack _); vm_compute; exact I.

(** ** The registry *)

Section RegistryFacts.

Import Registry.

Implicit Types (reg : gmap Room (gset SocketId)) (room : Room) (c : SocketId).

Lemma membersOf_join reg room c room' :
  membersOf (join room c reg) room'
  = if decide (room = room') then membersOf reg room ∪ {[c]}
    else membersOf reg room'.
Proof.
  unfold membersOf at 1, join. rewrite lookup_insert.
  case_decide; done.
Qed.

Lemma join_join reg room c :
  join room c (join room c reg) = join room c reg.
Proof.
  unfold join at 1. rewrite membersOf_join, decide_True by done.
  unfold join. rewrite insert_insert_eq. f_equal. set_solver.
Qed.

Lemma join_member reg room c :
  c ∈ membersOf reg room → join room c reg = reg.
Proof.
  unfold join, membersOf. intros Hin.
  destruct (reg !! room) as [members|] eqn:Hroom; simpl in *.
  - apply insert_id. rewrite Hroom. f_equal. set_solver.
  - set_solver.
Qed.

Lemma lookup_leave_ne reg room c room' :
  room ≠ room' → leave room c reg !! room' = reg !! room'.
Proof.
  intros Hne. unfold leave. destruct (reg !! room) as [members|]; [|done].
  case_decide.
  - by rewrite lookup_delete_ne.
  - by rewrite lookup_insert_ne.
Qed.

Lemma lookup_leave_eq reg room c :
  leave room c reg !! room
  = match reg !! room with
    | None => None
    | Some members =>
        if decide (members ∖ {[c]} = ∅) then None
        else Some (members ∖ {[c]})
    end.
Proof.
  unfold leave. destruct (reg !! room) as [members|] eqn:Hroom; [|done].
  case_decide.
  - by rewrite lookup_delete_eq.
  - by rewrite lookup_insert_eq.
Qed.

Lemma membersOf_leave_eq reg room c :
  membersOf (leave room c reg) room = membersOf reg room ∖ {[c]}.
Proof.
  unfold membersOf. rewrite lookup_leave_eq.
  destruct (reg !! room) as [members|]; simpl.
  - case_decide as Hempty; simpl; [by rewrite Hempty | done].
  - set_solver.
Qed.

Lemma no_empty_room_join reg room c :
  no_empty_room reg → no_empty_room (join room c reg).
Proof.
  intros Hinv room'. unfold join. rewrite lookup_insert.
  case_decide; [|apply Hinv]. intros [= Hempty]. set_solver.
Qed.

Lemma no_empty_room_leave reg room c :
  no_empty_room reg → no_empty_room (leave room c reg).
Proof.
  intros Hinv room'. destruct (decide (room = room')) as [<-|Hne].
  - rewrite lookup_leave_eq. destruct (reg !! room); [|done].
    case_decide; [done|]. congruence.
  - rewrite lookup_leave_ne by done. apply Hinv.
Qed.

Lemma membersOf_leave reg room c room' :
  membersOf (leave room c reg) room'
  = if decide (room = room') then membersOf reg room ∖ {[c]}
    else membersOf reg room'.
Proof.
  case_decide as Hroom.
  - subst room'. apply membersOf_leave_eq.
  - unfold membersOf. by rewrite lookup_leave_ne.
Qed.

Lemma lookup_leave_all reg c room :
  leave_all c reg !! room
  = match reg !! room with
    | None => None
    | Some members =>
        if decide (c ∈ members)
        then if decide (members ∖ {[c]} = ∅) then None
             else Some (members ∖ {[c]})
        else Some members
    end.
Proof. unfold leave_all. rewrite lookup_omap. by destruct (reg !! room). Qed.

Lemma membersOf_leave_all reg c room :
  membersOf (leave_all c reg) room = membersOf reg room ∖ {[c]}.
Proof.
  unfold membersOf. rewrite lookup_leave_all.
  destruct (reg !! room) as [members|]; simpl; [|set_solver].
  case_decide as Hin; [|simpl; set_solver].
  case_decide as Hempty; simpl; [by rewrite Hempty | done].
Qed.

Lemma no_empty_room_leave_all reg c :
  no_empty_room reg → no_empty_room (leave_all c reg).
Proof.
  intros Hinv room. rewrite lookup_leave_all.
  destruct (reg !! room) as [members|] eqn:Hroom; [|done].
  case_decide as Hin.
  - case_decide; [done|]. congruence.
  - intros [= ->]. by apply (Hinv room).
Qed.

Lemma lookup_leave_all_None reg c room :
  reg !! room = None → leave_all c reg !! room = None.
Proof. intros Hroom. by rewrite lookup_leave_all, Hroom. Qed.

Lemma elem_of_handles reg c :
  c ∈ handles reg ↔ ∃ room, c ∈ membersOf reg room.
Proof.
  unfold handles, membersOf. rewrite elem_of_union_list. split.
  - intros (members & Hmembers & Hc).
    apply list_elem_of_fmap in Hmembers as ([room members'] & -> & Hroom).
    apply elem_of_map_to_list in Hroom. exists room. by rewrite Hroom.
  - intros [room Hc]. destruct (reg !! room) as [members|] eqn:Hroom;
      [|set_solver].
    exists members. split; [|done].
    apply list_elem_of_fmap. exists (room, members). split; [done|].
    by apply elem_of_map_to_list.
Qed.

End RegistryFacts.

(** ** What the world operations touch *)

Lemma with_rooms_id (f : gmap Room (gset SocketId) → gmap Room (gset SocketId))
    (w : World) :
  f (rooms w) = rooms w → with_rooms f w = w.
Proof. destruct w; unfold with_rooms; simpl. by intros ->. Qed.

(** C7. Handling a join-chat event for a room a second time leaves the world,
    and so every room's member set, as the first handling left it; and when
    the connection is already a member of the room the handling changes
    nothing at all. *)
Theorem join_chat_twice_is_once (sid : SocketId) (chatId : Room) (w : World) :
  let once := fst (run_handler HJoinChat sid chatId w) in
  let twice := fst (run_handler HJoinChat sid chatId once) in
  twice = once
  ∧ (∀ room, Registry.membersOf (rooms twice) room
             = Registry.membersOf (rooms once) room)
  ∧ (sid ∈ Registry.membersOf (rooms w) chatId → once = w).
Proof.
  simpl. unfold with_rooms; simpl. rewrite join_join. split_and!.
  - done.
  - done.
  - intros Hin. apply (with_rooms_id (Registry.join chatId sid)).
    by apply join_member.
Qed.

Lemma join_chat_twice_is_once_witness :
  "A" ∈ Registry.membersOf (rooms Example.two_in_chat42) (RStr "chat42")
  ∧ fst (run_handler HJoinChat "A" (RStr "chat42") Example.two_in_chat42)
    = Example.two_in_chat42.
Proof.
  assert (Hin : "A" ∈ Registry.membersOf (rooms Example.two_in_chat42)
                                         (RStr "chat42")).
  { by_evaluation. }
  split; [exact Hin|].
  exact (proj2 (proj2 (join_chat_twice_is_once "A" (RStr "chat42")
                         Example.two_in_chat42)) Hin).
Defined.

(** C8. When a leave takes the last member out of a room, the room's entry is
    gone from the registry, a later [membersOf] gives the empty set, and no
    entry with an empty member set is left behind anywhere. *)
Theorem leave_prunes_emptied_room (sid : SocketId) (room : Room) (w : World) :
  Registry.membersOf (rooms w) room ∖ {[sid]} = ∅ →
  let w' := fst (socket_leave sid room w) in
  rooms w' !! room = None
  ∧ Registry.membersOf (rooms w') room = ∅
  ∧ (Registry.no_empty_room (rooms w) → Registry.no_empty_room (rooms w')).
Proof.
  intros Hlast. simpl. split_and!.
  - rewrite lookup_leave_eq. unfold Registry.membersOf in Hlast.
    destruct (rooms w !! room); simpl in *; [|done]. by rewrite decide_True.
  - by rewrite membersOf_leave_eq.
  - apply no_empty_room_leave.
Qed.

Lemma leave_prunes_emptied_room_witness :
  rooms (fst (socket_leave "A" (RStr "u1") Example.two_in_chat42)) !! RStr "u1"
  = None.
Proof.
  refine (proj1 (leave_prunes_emptied_room "A" (RStr "u1")
                   Example.two_in_chat42 _)).
  by_evaluation.
Defined.

(** ** The connection handler *)

Section ConnectionFacts.

Context (deps : Collaborators).

Implicit Types (sid : SocketId) (handshake : Handshake) (w : World).

Lemma on_connection_failure sid handshake w error :
  authenticate deps handshake (users w) = inl error →
  on_connection deps sid handshake w
  = mkWorld (users w) (chats w) (messages w) (files w) (rooms w)
      (<[sid := fresh_socket]> (sockets w))
      (outbox w ++ [mkDelivery sid SOCKET_ERROR_EVENT (PText (reported error))]).
Proof.
  intros Hauth. unfold on_connection, connection_try, bind, get; simpl.
  by rewrite Hauth.
Qed.

Lemma on_connection_success sid handshake w user :
  authenticate deps handshake (users w) = inr user →
  on_connection deps sid handshake w
  = mkWorld (users w) (chats w) (messages w) (files w)
      (Registry.join (RStr (toString (user_id user))) sid (rooms w))
      (<[sid := mkSocket (Some user) core_listeners true]> (sockets w))
      (outbox w ++ [mkDelivery sid CONNECTED_EVENT PUndefined]).
Proof.
  intros Hauth. unfold on_connection, connection_try, bind, get; simpl.
  rewrite Hauth. unfold attach_user, bind.
  cbn -[alter insert Registry.join]. unfold with_sockets.
  cbn -[alter insert Registry.join]. by rewrite !alter_insert_eq.
Qed.

(** A socket without listeners ignores whatever arrives. *)
Lemma dispatch_no_listener sid event data w s :
  sockets w !! sid = Some s → sock_listeners s = [] →
  dispatch sid event data w = w.
Proof. intros Hs Hl. unfold dispatch. by rewrite Hs, Hl. Qed.

Lemma receive_no_listener sid event data w s :
  sockets w !! sid = Some s → sock_listeners s = [] →
  receive sid event data w = w.
Proof.
  intros Hs Hl. unfold receive. rewrite Hs.
  destruct (sock_connected s && negb (reserved event)); [|done].
  by apply (dispatch_no_listener _ _ _ _ s).
Qed.

(** A client event on a connected socket reaches the listeners, unless it
    is the reserved one. *)
Lemma receive_dispatch sid event data w s :
  sockets w !! sid = Some s → sock_connected s = true →
  event ≠ DISCONNECT_EVENT →
  receive sid event data w = dispatch sid event data w.
Proof.
  intros Hs Hc Hne. unfold receive, reserved.
  by rewrite Hs, Hc, bool_decide_false.
Qed.

Lemma receive_all_no_listener sid events w s :
  sockets w !! sid = Some s → sock_listeners s = [] →
  receive_all sid events w = w.
Proof.
  intros Hs Hl. induction events as [|[event data] events IH]; [done|].
  unfold receive_all in *; simpl.
  by rewrite (receive_no_listener _ _ _ _ _ Hs Hl).
Qed.

Lemma phase_Active s :
  phase s = Active →
  sock_connected s = true ∧ sock_listeners s = core_listeners
  ∧ ∃ user, sock_user s = Some user.
Proof.
  unfold phase. destruct (sock_connected s); simpl; [|done].
  destruct (sock_user s) as [user|]; [|done].
  case_decide; [|done]. eauto.
Qed.

End ConnectionFacts.

Section ActiveConnection.

Context (sid : SocketId) (w : World) (s : Socket).
Hypothesis Hsocket : sockets w !! sid = Some s.
Hypothesis Hactive : phase s = Active.

Lemma receive_join_chat (chatId : Room) :
  receive sid JOIN_CHAT_EVENT chatId w
  = with_rooms (Registry.join chatId sid) w.
Proof.
  destruct (phase_Active _ Hactive) as (Hc & Hl & _).
  rewrite (receive_dispatch _ _ _ _ _ Hsocket Hc) by done.
  unfold dispatch. by rewrite Hsocket, Hl.
Qed.


Lemma receive_stop_typing (chatId : Data) :
  receive sid STOP_TYPING_EVENT chatId w = w.
Proof.
  destruct (phase_Active _ Hactive) as (Hc & Hl & _).
  rewrite (receive_dispatch _ _ _ _ _ Hsocket Hc) by done.
  unfold dispatch. by rewrite Hsocket, Hl.
Qed.

End ActiveConnection.

(** The listener of lines 71 to 77, on a socket with the core listeners:
    one leave, addressed to the [ObjectId] of the socket's user. *)
Lemma dispatch_disconnect sid w s data user :
  sockets w !! sid = Some s →
  sock_listeners s = core_listeners →
  sock_user s = Some user →
  dispatch sid DISCONNECT_EVENT data w
  = with_rooms (Registry.leave (ROid (user_id user)) sid) w.
Proof.
  intros Hs Hl Huser. unfold dispatch. rewrite Hs, Hl. simpl.
  unfold bind, get; simpl. by rewrite Hs; simpl; rewrite Huser.
Qed.

Lemma select_excludes (u : UserDoc) :
  password (select "-password -refreshToken" u) = None
  ∧ refreshToken (select "-password -refreshToken" u) = None
  ∧ user_id (select "-password -refreshToken" u) = user_id u.
Proof. done. Qed.

Lemma authenticate_success deps handshake us user :
  authenticate deps handshake us = inr user →
  ∃ token id stored,
    handshake_token deps handshake = Some token
    ∧ jwt_verify deps token (ACCESS_TOKEN_SECRET deps) = inr id
    ∧ User_findById us id = Some stored
    ∧ user = select "-password -refreshToken" stored.
Proof.
  unfold authenticate.
  destruct (handshake_token deps handshake) as [token|]; simpl; [|done].
  case_bool_decide; simpl; [|done].
  destruct (jwt_verify deps token _) as [error|id] eqn:Hverify; [done|].
  destruct (User_findById us id) as [stored|] eqn:Hfound; simpl; [|done].
  intros [= <-]. eauto 10.
Qed.

(** ** Handshakes that fail *)

(** C1, the claim as stated fails: after a handshake without a token the
    socket has been sent its error and is still connected; the handler never
    closes it. *)
Lemma failed_handshake_is_not_closed :
  let w' := on_connection Example.deps "A" Example.no_token Example.store in
  outbox w' = [mkDelivery "A" SOCKET_ERROR_EVENT
                 (PText "Unauthorized handshake. Token missing.")]
  ∧ (sock_connected <$> sockets w' !! "A") = Some true
  ∧ (phase <$> sockets w' !! "A") ≠ Some Closed.
Proof. vm_compute. split_and!; [reflexivity | reflexivity | discriminate]. Qed.

(** C1, as amended. A handshake that fails authentication (no token, a
    token the verifier rejects, or a subject the store does not know) sends
    the connection one SOCKET_ERROR event and changes no room; the socket
    gets no user and no listener, so whatever it sends afterwards changes
    nothing and it stays in the connecting phase, never authenticated or
    active. The handler leaves the socket connected. *)
Theorem failed_handshake_is_reported_and_kept_out
    (deps : Collaborators) (sid : SocketId) (handshake : Handshake)
    (w : World) (error : JsError) :
  authenticate deps handshake (users w) = inl error →
  let w' := on_connection deps sid handshake w in
  outbox w'
  = outbox w ++ [mkDelivery sid SOCKET_ERROR_EVENT (PText (reported error))]
  ∧ rooms w' = rooms w
  ∧ sockets w' !! sid = Some (mkSocket None [] true)
  ∧ ∀ events,
      receive_all sid events w' = w'
      ∧ (phase <$> sockets (receive_all sid events w') !! sid) = Some Connecting
      ∧ ∀ room, sid ∈ Registry.membersOf (rooms (receive_all sid events w')) room
                → sid ∈ Registry.membersOf (rooms w) room.
Proof.
  intros Hauth w'. subst w'. rewrite (on_connection_failure _ _ _ _ _ Hauth).
  cbn [outbox rooms sockets]. split_and!; [done | done | apply lookup_insert_eq |].
  intros events.
  match goal with |- receive_all _ _ ?w0 = _ ∧ _ =>
    assert (Hidle : receive_all sid events w0 = w0)
  end.
  { apply (receive_all_no_listener _ _ _ fresh_socket); [|done].
    apply lookup_insert_eq. }
  rewrite Hidle. cbn [rooms sockets]. split_and!; [done | | done].
  by rewrite lookup_insert_eq.
Qed.

Lemma failed_handshake_is_reported_and_kept_out_witness :
  authenticate Example.deps (Example.by_auth_field "forged") (users Example.store)
  = inl (Thrown "JsonWebTokenError" (Some "jwt malformed"))
  ∧ outbox (on_connection Example.deps "A" (Example.by_auth_field "forged")
              Example.store)
    = [mkDelivery "A" SOCKET_ERROR_EVENT (PText "jwt malformed")]
  ∧ rooms (on_connection Example.deps "A" (Example.by_auth_field "forged")
             Example.store) = ∅.
Proof.
  assert (Hauth : authenticate Example.deps (Example.by_auth_field "forged")
                    (users Example.store)
                  = inl (Thrown "JsonWebTokenError" (Some "jwt malformed")))
    by reflexivity.
  destruct (failed_handshake_is_reported_and_kept_out Example.deps "A"
              (Example.by_auth_field "forged") Example.store _ Hauth)
    as (Hout & Hrooms & _).
  split_and!; [exact Hauth | exact Hout | exact Hrooms].
Defined.

(** C10. The SOCKET_ERROR event of a failed handshake carries the message of
    the error when the error has one, and the fixed text otherwise; an empty
    message counts as none. *)
Theorem socket_error_carries_the_message
    (deps : Collaborators) (sid : SocketId) (handshake : Handshake)
    (w : World) (error : JsError) :
  authenticate deps handshake (users w) = inl error →
  ∃ text,
    appended (outbox w) (outbox (on_connection deps sid handshake w))
    = [mkDelivery sid SOCKET_ERROR_EVENT (PText text)]
    ∧ (∀ message, error_message error = Some message → message ≠ "" →
                  text = message)
    ∧ (error_message error = None ∨ error_message error = Some "" →
       text = "Something went wrong while connecting to the socket.").
Proof.
  intros Hauth. exists (reported error).
  rewrite (on_connection_failure _ _ _ _ _ Hauth). unfold appended; simpl.
  rewrite drop_app_length. split_and!; [done | |].
  - intros message Hm Hne. unfold reported, js_or. rewrite Hm; simpl.
    by rewrite bool_decide_true.
  - intros [Hm|Hm]; unfold reported; by rewrite Hm.
Qed.

Lemma socket_error_carries_the_message_witness :
  ∃ text,
    appended (outbox Example.store)
      (outbox (on_connection Example.deps "A" (Example.by_cookie "valid.u9")
                 Example.store))
    = [mkDelivery "A" SOCKET_ERROR_EVENT (PText text)]
    ∧ text = "Unauthenticated handshake. User not found.".
Proof.
  destruct (socket_error_carries_the_message Example.deps "A"
              (Example.by_cookie "valid.u9") Example.store
              (apiError 401 "Unauthenticated handshake. User not found.")
              eq_refl) as (text & Hsent & Hmessage & _).
  exists text. split; [exact Hsent|].
  apply Hmessage; [reflexivity | discriminate].
Defined.

(** ** Handshakes that succeed *)

(** C5. When the handshake authenticates, the user attached to the socket has
    neither password nor refresh token, the connection is a member of the
    room named by the user's id, and a CONNECTED event has been sent to that
    connection and to no other. *)
Theorem successful_handshake_joins_identity_room
    (deps : Collaborators) (sid : SocketId) (handshake : Handshake)
    (w : World) (user : UserDoc) :
  authenticate deps handshake (users w) = inr user →
  let w' := on_connection deps sid handshake w in
  password user = None
  ∧ refreshToken user = None
  ∧ (sock_user <$> sockets w' !! sid) = Some (Some user)
  ∧ sid ∈ Registry.membersOf (rooms w') (RStr (toString (user_id user)))
  ∧ appended (outbox w) (outbox w') = [mkDelivery sid CONNECTED_EVENT PUndefined].
Proof.
  intros Hauth w'. subst w'.
  rewrite (on_connection_success _ _ _ _ _ Hauth); simpl.
  destruct (authenticate_success _ _ _ _ Hauth) as (_ & _ & stored & _ & _ & _ & ->).
  split_and!.
  - apply select_excludes.
  - apply select_excludes.
  - by rewrite lookup_insert_eq.
  - rewrite membersOf_join, decide_True by done. set_solver.
  - unfold appended. by rewrite drop_app_length.
Qed.

Lemma successful_handshake_joins_identity_room_witness :
  let w' := on_connection Example.deps "A" (Example.by_cookie "valid.u1")
              Example.store in
  "A" ∈ Registry.membersOf (rooms w') (RStr "u1")
  ∧ outbox w' = [mkDelivery "A" CONNECTED_EVENT PUndefined].
Proof.
  destruct (successful_handshake_joins_identity_room Example.deps "A"
              (Example.by_cookie "valid.u1") Example.store
              (select "-password -refreshToken" Example.u1) eq_refl)
    as (_ & _ & _ & Hroom & Hout).
  split; [exact Hroom | exact Hout].
Defined.

(** ** Where the token comes from, and how the handshake fails *)

(** C6. The token is the cookie's [accessToken] when the cookie carries one,
    and the [auth.token] field otherwise. Without a token the handshake
    fails with the 401 error "Unauthorized handshake. Token missing."
    (Unauthorized); when the verifier throws, with the verifier's error
    (InvalidToken); when the token verifies and the store has no user for
    its subject, with the 401 error "Unauthenticated handshake. User not
    found." (IdentityNotFound). *)
Theorem handshake_token_and_failures
    (deps : Collaborators) (handshake : Handshake) (us : list UserDoc) :
  let cookie_token :=
    cookie_parse deps (default "" (headers_cookie handshake)) !! "accessToken" in
  let token := handshake_token deps handshake in
  (truthy cookie_token = true → token = cookie_token)
  ∧ (truthy cookie_token = false → token = auth_token handshake)
  ∧ (truthy token = false →
     authenticate deps handshake us
     = inl (apiError 401 "Unauthorized handshake. Token missing."))
  ∧ (∀ t error,
       token = Some t → t ≠ "" →
       jwt_verify deps t (ACCESS_TOKEN_SECRET deps) = inl error →
       authenticate deps handshake us = inl error)
  ∧ (∀ t subject,
       token = Some t → t ≠ "" →
       jwt_verify deps t (ACCESS_TOKEN_SECRET deps) = inr subject →
       User_findById us subject = None →
       authenticate deps handshake us
       = inl (apiError 401 "Unauthenticated handshake. User not found.")).
Proof.
  assert (Hheader : default "" (js_or (headers_cookie handshake) (Some ""))
                    = default "" (headers_cookie handshake)).
  { unfold js_or. destruct (headers_cookie handshake) as [h|]; simpl; [|done].
    case_bool_decide; simpl; [done|]. by destruct (decide (h = "")) as [->|]. }
  simpl. unfold handshake_token, authenticate. rewrite Hheader.
  split_and!.
  - by intros ->.
  - by intros ->.
  - unfold handshake_token. rewrite Hheader. by intros ->.
  - intros t error Ht Hne Hverify. unfold handshake_token. rewrite Hheader, Ht.
    simpl. rewrite bool_decide_true by done. simpl. by rewrite Hverify.
  - intros t subject Ht Hne Hverify Hnone. unfold handshake_token.
    rewrite Hheader, Ht. simpl. rewrite bool_decide_true by done. simpl.
    by rewrite Hverify, Hnone.
Qed.

Lemma handshake_token_and_failures_witness :
  handshake_token Example.deps
    (mkHandshake (Some "accessToken=valid.u1") (Some "valid.u2"))
  = Some "valid.u1"
  ∧ handshake_token Example.deps (Example.by_auth_field "valid.u2")
    = Some "valid.u2"
  ∧ authenticate Example.deps Example.no_token (users Example.store)
    = inl (apiError 401 "Unauthorized handshake. Token missing.")
  ∧ authenticate Example.deps (Example.by_auth_field "forged")
      (users Example.store)
    = inl (Thrown "JsonWebTokenError" (Some "jwt malformed"))
  ∧ authenticate Example.deps (Example.by_cookie "valid.u9")
      (users Example.store)
    = inl (apiError 401 "Unauthenticated handshake. User not found.").
Proof.
  split_and!.
  - exact (proj1 (handshake_token_and_failures Example.deps
             (mkHandshake (Some "accessToken=valid.u1") (Some "valid.u2")) [])
             eq_refl).
  - exact (proj1 (proj2 (handshake_token_and_failures Example.deps
             (Example.by_auth_field "valid.u2") [])) eq_refl).
  - exact (proj1 (proj2 (proj2 (handshake_token_and_failures Example.deps
             Example.no_token (users Example.store)))) eq_refl).
  - refine (proj1 (proj2 (proj2 (proj2 (handshake_token_and_failures
             Example.deps (Example.by_auth_field "forged")
             (users Example.store))))) "forged" _ eq_refl _ eq_refl).
    discriminate.
  - refine (proj2 (proj2 (proj2 (proj2 (handshake_token_and_failures
             Example.deps (Example.by_cookie "valid.u9")
             (users Example.store))))) "valid.u9" (Some "u9") eq_refl _
             eq_refl eq_refl).
    discriminate.
Defined.

(** ** Typing events *)

(** C2. On an active connection a typing-stop event reaches no listener: the
    world is left as it was and no member of the room is sent anything. *)
Theorem typing_stop_is_dropped
    (sid : SocketId) (chatId : Room) (w : World) (s : Socket) :
  sockets w !! sid = Some s →
  phase s = Active →
  receive sid STOP_TYPING_EVENT chatId w = w
  ∧ appended (outbox w) (outbox (receive sid STOP_TYPING_EVENT chatId w)) = [].
Proof.
  intros Hs Hactive. rewrite (receive_stop_typing _ _ _ Hs Hactive).
  split; [done|]. unfold appended. by rewrite drop_all.
Qed.

Lemma typing_stop_is_dropped_witness :
  "B" ∈ Registry.membersOf (rooms Example.two_in_chat42) (RStr "chat42")
  ∧ appended (outbox Example.two_in_chat42)
      (outbox (receive "A" STOP_TYPING_EVENT (RStr "chat42")
                 Example.two_in_chat42)) = [].
Proof.
  split; [by_evaluation|].
  refine (proj2 (typing_stop_is_dropped "A" (RStr "chat42")
                   Example.two_in_chat42
                   (mkSocket (Some (select "-password -refreshToken" Example.u1))
                             core_listeners true) _ _)).
  - by_evaluation.
  - reflexivity.
Defined.

(** A typing event, for comparison: the other members of the room are each
    sent the typing event twice, once by each of the two listeners. *)
Lemma typing_start_is_sent_twice :
  appended (outbox Example.two_in_chat42)
    (outbox (receive "A" TYPING_EVENT (RStr "chat42") Example.two_in_chat42))
  = [mkDelivery "B" TYPING_EVENT (PRoom (RStr "chat42"));
     mkDelivery "B" TYPING_EVENT (PRoom (RStr "chat42"))].
Proof. reflexivity. Qed.

(** ** Disconnection *)

Lemma close_lookup sid w c :
  sockets (close sid w) !! c
  = if decide (sid = c)
    then (λ s, mkSocket (sock_user s) (sock_listeners s) false)
           <$> sockets w !! c
    else sockets w !! c.
Proof.
  unfold close. cbn [with_sockets sockets]. case_decide as Hc.
  - subst c. by rewrite lookup_alter_eq.
  - by rewrite lookup_alter_ne.
Qed.

(** The close of a connection that is connected, has a user and the core
    listeners: the cleanup of socket.io, the mark, and the one leave of the
    listener. *)
Lemma disconnect_authenticated sid reason w s user :
  sockets w !! sid = Some s →
  sock_connected s = true →
  sock_listeners s = core_listeners →
  sock_user s = Some user →
  disconnect sid reason w
  = with_rooms (Registry.leave (ROid (user_id user)) sid)
      (close sid (with_rooms (Registry.leave_all sid) w)).
Proof.
  intros Hs Hc Hl Huser. unfold disconnect. rewrite Hs, Hc.
  apply (dispatch_disconnect _ _
           (mkSocket (sock_user s) (sock_listeners s) false)); [|done|done].
  rewrite close_lookup, decide_True by done.
  cbn [with_rooms sockets]. by rewrite Hs.
Qed.

(** C3. When an active connection closes, it is a member of no room
    afterwards, neither of the room named by its user's id nor of any room
    it joined; this is one step of the server, so no other action sees it
    in some of its rooms and not in others. Every other connection is a
    member of the rooms it was a member of, no room is left without
    member, the socket is in the closed phase, no other socket changes, and
    nothing is sent. *)
Theorem disconnect_removes_every_membership
    (deps : Collaborators) (sid : SocketId) (reason : string) (w : World)
    (s : Socket) :
  sockets w !! sid = Some s →
  phase s = Active →
  let w' := disconnect sid reason w in
  perform deps (Disconnect sid reason) w = Some w'
  ∧ (∀ room, sid ∉ Registry.membersOf (rooms w') room)
  ∧ (∀ room c, c ≠ sid →
               c ∈ Registry.membersOf (rooms w') room
               ↔ c ∈ Registry.membersOf (rooms w) room)
  ∧ (Registry.no_empty_room (rooms w) → Registry.no_empty_room (rooms w'))
  ∧ (phase <$> sockets w' !! sid) = Some Closed
  ∧ (∀ c, c ≠ sid → sockets w' !! c = sockets w !! c)
  ∧ outbox w' = outbox w.
Proof.
  intros Hs Hactive w'. subst w'.
  destruct (phase_Active _ Hactive) as (Hc & Hl & user & Huser).
  rewrite (disconnect_authenticated _ _ _ _ _ Hs Hc Hl Huser).
  cbn [perform with_rooms rooms sockets outbox close with_sockets].
  split_and!.
  - by rewrite <- (disconnect_authenticated _ reason _ _ _ Hs Hc Hl Huser).
  - intros room. rewrite membersOf_leave, !membersOf_leave_all.
    case_decide; set_solver.
  - intros room c Hne. rewrite membersOf_leave, !membersOf_leave_all.
    case_decide as Hroom; [subst room|]; set_solver.
  - intros Hrooms. by apply no_empty_room_leave, no_empty_room_leave_all.
  - by rewrite lookup_alter_eq, Hs.
  - intros c Hne. by rewrite lookup_alter_ne.
  - done.
Qed.

Lemma disconnect_removes_every_membership_witness :
  let w' := disconnect "A" "transport close" Example.two_in_chat42 in
  "A" ∈ Registry.membersOf (rooms Example.two_in_chat42) (RStr "chat42")
  ∧ "A" ∈ Registry.membersOf (rooms Example.two_in_chat42) (RStr "u1")
  ∧ (∀ room, "A" ∉ Registry.membersOf (rooms w') room)
  ∧ "B" ∈ Registry.membersOf (rooms w') (RStr "chat42").
Proof.
  destruct (disconnect_removes_every_membership Example.deps "A"
              "transport close" Example.two_in_chat42
              (mkSocket (Some (select "-password -refreshToken" Example.u1))
                        core_listeners true))
    as (_ & Hgone & Hothers & _).
  - by_evaluation.
  - reflexivity.
  - split_and!; [by_evaluation | by_evaluation | exact Hgone |].
    apply Hothers; [discriminate | by_evaluation].
Defined.

(** ** The message controller *)

Lemma with_outbox_nil (w : World) : with_outbox (λ o, o ++ []) w = w.
Proof. destruct w; unfold with_outbox; simpl. by rewrite app_nil_r. Qed.

Lemma notify_participants_self sc req event payload p ps w :
  toString p = toString (user_id (req_user req)) →
  notify_participants sc req event payload (p :: ps) w
  = notify_participants sc req event payload ps w.
Proof.
  intros Heq. unfold notify_participants. cbn [forEach]. unfold bind.
  by rewrite decide_True.
Qed.

Lemma notify_participants_other sc req event payload p ps w :
  toString p ≠ toString (user_id (req_user req)) →
  notify_participants sc req event payload (p :: ps) w
  = if binds_ChatEventEnum sc
    then notify_participants sc req event payload ps
           (with_outbox
              (λ o, o ++ fanout (Registry.membersOf (rooms w) (RStr (toString p)))
                                event payload) w)
    else (w, inl (ReferenceError "ChatEventEnum")).
Proof.
  intros Hne. unfold notify_participants. cbn [forEach]. unfold bind.
  rewrite decide_False by done. unfold resolve.
  by destruct (binds_ChatEventEnum sc).
Qed.

(** The closing loop of the controllers notifies a prefix of the other
    participants, all of them when [ChatEventEnum] is bound, each in the
    room named by the participant's id; it changes nothing but the outbox. *)
Lemma notify_participants_spec sc req event payload participants w :
  ∃ notified,
    notified `prefix_of` others req participants
    ∧ (binds_ChatEventEnum sc = true → notified = others req participants)
    ∧ (snd (notify_participants sc req event payload participants w) = inr tt
       → notified = others req participants)
    ∧ fst (notify_participants sc req event payload participants w)
      = with_outbox (λ o, o ++ notifications (rooms w) event payload notified) w.
Proof.
  revert w. induction participants as [|p ps IH]; intros w.
  - exists []. split_and!; [done | done | done |].
    symmetry. apply with_outbox_nil.
  - unfold others in *.
    destruct (decide (toString p = toString (user_id (req_user req)))) as [Heq|Hne].
    + rewrite notify_participants_self by done.
      rewrite filter_cons_False by naive_solver. apply IH.
    + rewrite notify_participants_other by done.
      rewrite filter_cons_True by done.
      destruct (binds_ChatEventEnum sc) eqn:Hbound.
      * destruct (IH (with_outbox
                        (λ o, o ++ fanout (Registry.membersOf (rooms w)
                                             (RStr (toString p))) event payload) w))
          as (notified & Hprefix & Hall & Hok & Hworld).
        exists (p :: notified). split_and!.
        -- by apply prefix_cons.
        -- intros _. by rewrite Hall.
        -- intros Hr. by rewrite (Hok Hr).
        -- rewrite Hworld. unfold with_outbox, notifications.
           cbn [users chats messages files rooms sockets outbox flat_map].
           by rewrite <- (assoc_L (++)).
      * exists []. split_and!.
        -- apply prefix_nil.
        -- done.
        -- cbn [snd]. intros Hr. discriminate Hr.
        -- symmetry. apply with_outbox_nil.
Qed.

(** *** Ids *)

Lemma has_id_true s o : has_id s o = true ↔ ObjectId_of s = Some o.
Proof. unfold has_id. apply bool_decide_eq_true. Qed.

Lemma has_id_invalid s o : ObjectId_of s = None → has_id s o = false.
Proof. intros Hs. unfold has_id. rewrite Hs. by apply bool_decide_false. Qed.

Lemma has_id_valid s o o' :
  ObjectId_of s = Some o → has_id s o' = bool_decide (o' = o).
Proof.
  intros Hs. unfold has_id. rewrite Hs.
  apply bool_decide_ext. naive_solver.
Qed.

(** The id a string stands for prints as the string in lower case. *)
Lemma ObjectId_of_lowercase s o :
  ObjectId_of s = Some o → o = mkObjectId (lowercase s).
Proof. unfold ObjectId_of. case_match; naive_solver. Qed.

Lemma find_has_id {A} (id : A → ObjectId) (extra : A → bool) s l x :
  List.find (λ y, has_id s (id y) && extra y) l = Some x →
  ObjectId_of s = Some (id x) ∧ extra x = true ∧ x ∈ l.
Proof.
  intros Hfind. apply find_some in Hfind as [Hin Hx].
  apply andb_true_iff in Hx as [Hid Hextra].
  split_and!; [by apply has_id_true | done | by apply list_elem_of_In].
Qed.

Lemma find_has_id_invalid {A} (id : A → ObjectId) (extra : A → bool) s l :
  ObjectId_of s = None → List.find (λ y, has_id s (id y) && extra y) l = None.
Proof.
  intros Hs. induction l as [|y l IH]; [done|]. cbn [List.find].
  by rewrite (has_id_invalid _ _ Hs).
Qed.

Lemma chat_with_id_id chatId cs chat :
  chat_with_id chatId cs = Some chat →
  ObjectId_of chatId = Some (chat_id chat) ∧ chat ∈ cs.
Proof.
  unfold chat_with_id. intros Hfind. apply find_some in Hfind as [Hin Hid].
  split; [by apply has_id_true | by apply list_elem_of_In].
Qed.

Lemma chat_with_id_invalid chatId cs :
  ObjectId_of chatId = None → chat_with_id chatId cs = None.
Proof.
  intros Hs. unfold chat_with_id. induction cs as [|c cs IH]; [done|].
  cbn [List.find]. by rewrite (has_id_invalid _ _ Hs).
Qed.

Lemma chat_of_participant_id chatId userId cs chat :
  chat_of_participant chatId userId cs = Some chat →
  ObjectId_of chatId = Some (chat_id chat)
  ∧ userId ∈ chat_participants chat ∧ chat ∈ cs.
Proof.
  intros Hfind. apply find_has_id in Hfind as (Hid & Hin & Hcs).
  split_and!; [done | by apply bool_decide_eq_true in Hin | done].
Qed.

Lemma chat_of_participant_invalid chatId userId cs :
  ObjectId_of chatId = None → chat_of_participant chatId userId cs = None.
Proof. apply find_has_id_invalid. Qed.

Lemma message_with_id_id messageId ms message :
  message_with_id messageId ms = Some message →
  ObjectId_of messageId = Some (msg_id message) ∧ message ∈ ms.
Proof.
  unfold message_with_id. intros Hfind. apply find_some in Hfind as [Hin Hid].
  split; [by apply has_id_true | by apply list_elem_of_In].
Qed.

Lemma message_with_id_invalid messageId ms :
  ObjectId_of messageId = None → message_with_id messageId ms = None.
Proof.
  intros Hs. unfold message_with_id. induction ms as [|m ms IH]; [done|].
  cbn [List.find]. by rewrite (has_id_invalid _ _ Hs).
Qed.

Lemma chat_with_id_update_first chatId lastMessage cs :
  chat_with_id chatId
    (update_first (λ c, has_id chatId (chat_id c))
       (λ c, mkChat (chat_id c) (chat_participants c) lastMessage) cs)
  = (λ c, mkChat (chat_id c) (chat_participants c) lastMessage)
      <$> chat_with_id chatId cs.
Proof.
  unfold chat_with_id. induction cs as [|c cs IH]; [done|].
  cbn [update_first List.find]. destruct (has_id chatId (chat_id c)) eqn:Hid.
  - cbn [List.find chat_id]. by rewrite Hid.
  - cbn [List.find]. by rewrite Hid.
Qed.

Lemma head_filter_snoc {A} (P : A → Prop) `{!∀ x, Decision (P x)} l x :
  P x → is_Some (head (filter P (l ++ [x]))).
Proof.
  intros HP. rewrite filter_app, filter_cons_True by done.
  destruct (filter P l); simpl; eauto.
Qed.

Lemma elem_of_others req participants p :
  p ∈ others req participants ↔
  p ∈ participants ∧ toString p ≠ toString (user_id (req_user req)).
Proof. unfold others. rewrite list_elem_of_filter. naive_solver. Qed.

Lemma appended_app {A} (l k : list A) : appended l (l ++ k) = k.
Proof. unfold appended. apply drop_app_length. Qed.

Lemma appended_nil {A} (l : list A) : appended l l = [].
Proof. unfold appended. apply drop_all. Qed.

(** *** Running the steps of a controller *)

Lemma bind_ok {A B} (m : Eff A) (k : A → Eff B) w w1 a :
  m w = (w1, inr a) → bind m k w = k a w1.
Proof. unfold bind. by intros ->. Qed.

Lemma bind_error {A B} (m : Eff A) (k : A → Eff B) w w1 e :
  m w = (w1, inl e) → bind m k w = (w1, inl e).
Proof. unfold bind. by intros ->. Qed.

Lemma new_ObjectId_run s o w :
  ObjectId_of s = Some o → new_ObjectId s w = (w, inr o).
Proof. intros Hs. unfold new_ObjectId. by rewrite Hs. Qed.

Lemma new_ObjectId_invalid s w :
  ObjectId_of s = None → new_ObjectId s w = (w, inl BSONError).
Proof. intros Hs. unfold new_ObjectId. by rewrite Hs. Qed.

Lemma cast_id_run model path s o w :
  ObjectId_of s = Some o → cast_id model path s w = (w, inr o).
Proof. intros Hs. unfold cast_id. by rewrite Hs. Qed.

Lemma cast_id_invalid model path s w :
  ObjectId_of s = None →
  cast_id model path s w = (w, inl (CastError s path model)).
Proof. intros Hs. unfold cast_id. by rewrite Hs. Qed.

Lemma Chat_findById_run chatId o w :
  ObjectId_of chatId = Some o →
  Chat_findById chatId w = (w, inr (chat_with_id chatId (chats w))).
Proof.
  intros Hs. unfold Chat_findById.
  by rewrite (bind_ok _ _ _ _ _ (cast_id_run _ _ _ _ _ Hs)).
Qed.

Lemma Chat_findById_invalid chatId w :
  ObjectId_of chatId = None →
  Chat_findById chatId w = (w, inl (CastError chatId "_id" "Chat")).
Proof.
  intros Hs. unfold Chat_findById.
  by rewrite (bind_error _ _ _ _ _ (cast_id_invalid _ _ _ _ Hs)).
Qed.

Lemma Chat_findOne_run chatId o userId w :
  ObjectId_of chatId = Some o →
  Chat_findOne chatId userId w
  = (w, inr (chat_of_participant chatId userId (chats w))).
Proof.
  intros Hs. unfold Chat_findOne.
  by rewrite (bind_ok _ _ _ _ _ (new_ObjectId_run _ _ _ Hs)).
Qed.

Lemma Chat_findOne_invalid chatId userId w :
  ObjectId_of chatId = None →
  Chat_findOne chatId userId w = (w, inl BSONError).
Proof.
  intros Hs. unfold Chat_findOne.
  by rewrite (bind_error _ _ _ _ _ (new_ObjectId_invalid _ _ Hs)).
Qed.

Lemma Message_findOne_run messageId o w :
  ObjectId_of messageId = Some o →
  Message_findOne messageId w
  = (w, inr (message_with_id messageId (messages w))).
Proof.
  intros Hs. unfold Message_findOne.
  by rewrite (bind_ok _ _ _ _ _ (new_ObjectId_run _ _ _ Hs)).
Qed.

Lemma Message_findOne_invalid messageId w :
  ObjectId_of messageId = None →
  Message_findOne messageId w = (w, inl BSONError).
Proof.
  intros Hs. unfold Message_findOne.
  by rewrite (bind_error _ _ _ _ _ (new_ObjectId_invalid _ _ Hs)).
Qed.

Lemma Message_create_run fresh sender content chat attachments w :
  Message_create fresh sender content chat attachments w
  = (with_messages
       (λ ms, ms ++ [mkMessage fresh sender content chat attachments]) w,
     inr (mkMessage fresh sender content chat attachments)).
Proof. done. Qed.

Lemma Chat_findByIdAndUpdate_run chatId o lastMessage w :
  ObjectId_of chatId = Some o →
  Chat_findByIdAndUpdate chatId lastMessage w
  = (with_chats
       (update_first (λ c, has_id chatId (chat_id c))
          (λ c, mkChat (chat_id c) (chat_participants c) lastMessage)) w,
     inr ((λ c, mkChat (chat_id c) (chat_participants c) lastMessage)
            <$> chat_with_id chatId (chats w))).
Proof.
  intros Hs. rewrite <- chat_with_id_update_first.
  unfold Chat_findByIdAndUpdate.
  by rewrite (bind_ok _ _ _ _ _ (cast_id_run _ _ _ _ _ Hs)).
Qed.

Lemma Message_aggregate_run id w :
  Message_aggregate id w
  = (w, inr (messageCommonAggregation (users w)
               <$> filter (λ m, msg_id m = id) (messages w))).
Proof. done. Qed.

Lemma head_fmap {A B} (f : A → B) (l : list A) : head (f <$> l) = f <$> head l.
Proof. by destruct l. Qed.

(** ** Deleting a message *)

(** C9, the claim as stated fails: [u3] is not the sender of the message
    [m1] and asks to delete it, and the request is refused with 404, not 403,
    because [u3] is not in the chat. *)
Lemma delete_by_outsider_is_404 :
  message_with_id Example.m1_id (messages Example.store) = Some Example.m1
  ∧ msg_sender Example.m1 ≠ user_id (req_user Example.delete_by_outsider)
  ∧ snd (deleteMessage message_controller_scope Example.delete_by_outsider
           Example.store)
    = inl (apiError 404 "Chat does not exist").
Proof. split_and!; by_evaluation. Qed.

(** C9, as amended. A delete request for an existing message whose sender is
    not the requester is refused and changes nothing: no message is deleted,
    no file is removed, nothing is sent. The refusal is the 403 error when
    the chat is found with the requester among its participants; the 404
    error "Chat does not exist" when the chat id is an id and no chat with
    that id has the requester; and, when the chat id is not an id (24
    hexadecimal digits), the error the constructor of line 158 throws
    before any lookup. *)
Theorem deleteMessage_by_non_sender_is_refused
    (sc : ModuleScope) (req : Request) (w : World) (message : MessageDoc) :
  message_with_id (params_messageId req) (messages w) = Some message →
  toString (msg_sender message) ≠ toString (user_id (req_user req)) →
  ∃ error,
    deleteMessage sc req w = (w, inl error)
    ∧ (is_Some (chat_of_participant (params_chatId req)
                  (user_id (req_user req)) (chats w)) →
       error = apiError 403
         "You are not the authorised to delete the message, you are not the sender")
    ∧ (is_Some (ObjectId_of (params_chatId req)) →
       chat_of_participant (params_chatId req) (user_id (req_user req))
         (chats w) = None →
       error = apiError 404 "Chat does not exist")
    ∧ (ObjectId_of (params_chatId req) = None → error = BSONError).
Proof.
  intros Hmessage Hsender. unfold deleteMessage.
  destruct (message_with_id_id _ _ _ Hmessage) as [Hmid _].
  destruct (ObjectId_of (params_chatId req)) as [o|] eqn:Hid.
  - rewrite (bind_ok _ _ _ _ _ (Chat_findOne_run _ _ _ _ Hid)).
    destruct (chat_of_participant _ _ _) as [chat|].
    + rewrite (bind_ok _ _ _ _ _ (Message_findOne_run _ _ _ Hmid)), Hmessage.
      rewrite bool_decide_false by done. cbn [negb].
      eexists. split_and!; [reflexivity | done | done | done].
    + eexists. split_and!; [reflexivity | by intros [? ?] | done | done].
  - rewrite (bind_error _ _ _ _ _ (Chat_findOne_invalid _ _ _ Hid)).
    rewrite (chat_of_participant_invalid _ _ _ Hid).
    eexists. split_and!; [reflexivity | by intros [? ?] | by intros [? ?] | done].
Qed.

Lemma deleteMessage_by_non_sender_is_refused_witness :
  deleteMessage message_controller_scope Example.delete_by_other_member
    Example.two_in_chat42
  = (Example.two_in_chat42,
     inl (apiError 403
       "You are not the authorised to delete the message, you are not the sender"))
  ∧ deleteMessage message_controller_scope
      (mkRequest "chat42" Example.m1_id None None Example.u2 "host")
      Example.two_in_chat42
    = (Example.two_in_chat42, inl BSONError).
Proof.
  split.
  - destruct (deleteMessage_by_non_sender_is_refused message_controller_scope
                Example.delete_by_other_member Example.two_in_chat42 Example.m1)
      as (error & Hrun & Hfound & _).
    + reflexivity.
    + discriminate.
    + rewrite Hrun. f_equal. f_equal. apply Hfound. by_evaluation.
  - destruct (deleteMessage_by_non_sender_is_refused message_controller_scope
                (mkRequest "chat42" Example.m1_id None None Example.u2 "host")
                Example.two_in_chat42 Example.m1)
      as (error & Hrun & _ & _ & Hinvalid).
    + reflexivity.
    + discriminate.
    + rewrite Hrun. f_equal. f_equal. by apply Hinvalid.
Defined.

(** * More of the code *)

Lemma elem_of_fanout d members event payload :
  d ∈ fanout members event payload
  ↔ dl_to d ∈ members ∧ dl_event d = event ∧ dl_data d = payload.
Proof.
  unfold fanout. rewrite list_elem_of_fmap. split.
  - intros (c & -> & Hc). by apply elem_of_elements in Hc.
  - intros (Hc & <- & <-). exists (dl_to d). split; [by destruct d|].
    by apply elem_of_elements.
Qed.


Lemma deliveries_to_fanout c members event payload :
  deliveries_to c (fanout members event payload)
  = if decide (c ∈ members) then 1 else 0.
Proof.
  unfold deliveries_to, fanout.
  assert (Hcount : ∀ l : list SocketId, NoDup l →
            length (filter (λ d, dl_to d = c)
                      ((λ c0, mkDelivery c0 event payload) <$> l))
            = if decide (c ∈ l) then 1 else 0).
  { induction 1 as [|x l Hx Hl IH]; [done|]. cbn [fmap list_fmap].
    destruct (decide (x = c)) as [->|Hne].
    - rewrite filter_cons_True by done. cbn [length]. rewrite IH.
      rewrite decide_False by done. rewrite decide_True by set_solver. done.
    - rewrite filter_cons_False by done. rewrite IH.
      destruct (decide (c ∈ l)); [rewrite decide_True by set_solver|rewrite decide_False by set_solver]; done. }
  rewrite Hcount by apply NoDup_elements.
  destruct (decide (c ∈ elements members)) as [Hin|Hin];
    [rewrite decide_True | rewrite decide_False]; try done;
    by rewrite <- elem_of_elements.
Qed.

#[local] Set Warnings "-clear-no-such-hyp".

Lemma phase_authenticated user : phase (authenticated_socket user) = Active.
Proof. done. Qed.



(** X2. [emitSocketEvent] delivers the event and payload once to every member
    of the room and to no other connection, changes nothing but the outbox,
    and delivers nothing when the room has no entry. *)
Theorem emitSocketEvent_reaches_exactly_the_room
    (roomId : Room) (event : ChatEventEnum) (payload : Payload) (w : World) :
  let w' := fst (emitSocketEvent roomId event payload w) in
  let sent := appended (outbox w) (outbox w') in
  same_connections w w'
  ∧ users w' = users w ∧ chats w' = chats w ∧ messages w' = messages w
  ∧ files w' = files w
  ∧ (∀ d, d ∈ sent ↔
          dl_to d ∈ Registry.membersOf (rooms w) roomId
          ∧ dl_event d = event ∧ dl_data d = payload)
  ∧ (∀ c, deliveries_to c sent
          = if decide (c ∈ Registry.membersOf (rooms w) roomId) then 1 else 0)
  ∧ (rooms w !! roomId = None → outbox w' = outbox w).
Proof.
  cbn [emitSocketEvent io_in_emit modify fst with_outbox outbox users chats
       messages files]. rewrite appended_app. split_and!; try done.
  - intros d. apply elem_of_fanout.
  - intros c. apply deliveries_to_fanout.
  - intros Hnone. unfold Registry.membersOf. rewrite Hnone. cbn.
    unfold fanout. rewrite elements_empty. cbn. by rewrite app_nil_r.
Qed.

(** X3. The join-chat handler checks nothing: an active connection that sends
    join-chat for any room, the identity room of another user included,
    becomes a member of it (no other room changes), and whatever
    [emitSocketEvent] then sends to that room is delivered to it. *)
Theorem join_chat_opens_any_room
    (sid : SocketId) (room : Room) (w : World) (s : Socket)
    (event : ChatEventEnum) (payload : Payload) :
  sockets w !! sid = Some s →
  phase s = Active →
  let joined := receive sid JOIN_CHAT_EVENT room w in
  Registry.membersOf (rooms joined) room
  = Registry.membersOf (rooms w) room ∪ {[sid]}
  ∧ (∀ other, other ≠ room → rooms joined !! other = rooms w !! other)
  ∧ sockets joined = sockets w
  ∧ outbox joined = outbox w
  ∧ mkDelivery sid event payload
    ∈ appended (outbox joined)
        (outbox (fst (emitSocketEvent room event payload joined))).
Proof.
  intros Hs Hactive joined. subst joined.
  rewrite (receive_join_chat _ _ _ Hs Hactive).
  cbn [with_rooms rooms sockets outbox emitSocketEvent io_in_emit modify fst
       with_outbox].
  rewrite appended_app, membersOf_join, decide_True by done.
  split_and!; try done.
  - intros other Hne. unfold Registry.join. by rewrite lookup_insert_ne.
  - apply elem_of_fanout. cbn. set_solver.
Qed.

Lemma join_chat_opens_any_room_witness :
  "B" ∈ Registry.membersOf
          (rooms (receive "B" JOIN_CHAT_EVENT (RStr "u1") Example.two_in_chat42))
          (RStr "u1")
  ∧ mkDelivery "B" NEW_CHAT_EVENT PUndefined
    ∈ appended (outbox (receive "B" JOIN_CHAT_EVENT (RStr "u1")
                          Example.two_in_chat42))
        (outbox (fst (emitSocketEvent (RStr "u1") NEW_CHAT_EVENT PUndefined
                        (receive "B" JOIN_CHAT_EVENT (RStr "u1")
                           Example.two_in_chat42)))).
Proof.
  destruct (join_chat_opens_any_room "B" (RStr "u1") Example.two_in_chat42
              (authenticated_socket (select "-password -refreshToken" Example.u2))
              NEW_CHAT_EVENT PUndefined)
    as (Hmembers & _ & _ & _ & Hsent).
  - by_evaluation.
  - reflexivity.
  - split; [|exact Hsent]. rewrite Hmembers. set_solver.
Defined.

(** ** Frames *)

#[global] Instance same_connections_refl : Reflexive same_connections.
Proof. by intros w. Qed.

#[global] Instance same_connections_trans : Transitive same_connections.
Proof. intros w1 w2 w3 [? ?] [? ?]. split; congruence. Qed.

#[global] Instance same_messages_refl : Reflexive same_messages.
Proof. by intros w. Qed.

#[global] Instance same_messages_trans : Transitive same_messages.
Proof. unfold same_messages. intros w1 w2 w3 ? ?. congruence. Qed.

Section Keeps.

Context (R : World → World → Prop) `{!Reflexive R, !Transitive R}.

Lemma keeps_ret {A} (a : A) : keeps R (ret a).
Proof. intros w. reflexivity. Qed.

Lemma keeps_throw {A} (e : JsError) : keeps R (throw (A := A) e).
Proof. intros w. reflexivity. Qed.

Lemma keeps_get : keeps R get.
Proof. intros w. reflexivity. Qed.

Lemma keeps_resolve bound ident : keeps R (resolve bound ident).
Proof. intros w. destruct bound; reflexivity. Qed.

Lemma keeps_new_ObjectId s : keeps R (new_ObjectId s).
Proof. intros w. unfold new_ObjectId. destruct (ObjectId_of s); reflexivity. Qed.

Lemma keeps_cast_id model path s : keeps R (cast_id model path s).
Proof. intros w. unfold cast_id. destruct (ObjectId_of s); reflexivity. Qed.

Lemma keeps_modify (f : World → World) :
  (∀ w, R w (f w)) → keeps R (modify f).
Proof. intros Hf w. apply Hf. Qed.

Lemma keeps_bind {A B} (m : Eff A) (k : A → Eff B) :
  keeps R m → (∀ a, keeps R (k a)) → keeps R (bind m k).
Proof.
  intros Hm Hk w. unfold bind. specialize (Hm w).
  destruct (m w) as [w1 [e|a]]; cbn [fst] in *; [done|].
  etrans; [exact Hm | apply Hk].
Qed.

Lemma keeps_forEach {A} (f : A → Eff unit) (l : list A) :
  (∀ x, keeps R (f x)) → keeps R (forEach f l).
Proof.
  intros Hf. induction l as [|x l IH]; cbn [forEach].
  - apply keeps_ret.
  - apply keeps_bind; [apply Hf | intros _; apply IH].
Qed.

End Keeps.

(** Splitting a frame goal along the structure of the code. *)
Ltac frame_step :=
  lazymatch goal with
  | |- keeps ?R (ret _) => apply (keeps_ret R)
  | |- keeps ?R (throw _) => apply (keeps_throw R)
  | |- keeps ?R get => apply (keeps_get R)
  | |- keeps ?R (resolve _ _) => apply (keeps_resolve R)
  | |- keeps ?R (new_ObjectId _) => apply (keeps_new_ObjectId R)
  | |- keeps ?R (cast_id _ _ _) => apply (keeps_cast_id R)
  | |- keeps ?R (bind _ _) => apply (keeps_bind R); [|intros ?]
  | |- keeps ?R (forEach _ _) => apply (keeps_forEach R); intros ?
  | |- keeps ?R (modify _) =>
      apply (keeps_modify R); intros ?; solve [done | by split | by hnf]
  | |- keeps _ (if ?b then _ else _) => destruct b
  | |- keeps _ (match ?x with _ => _ end) => destruct x
  end.

Ltac frame := cbv zeta; repeat frame_step.

Lemma removeLocalFile_keeps_connections path :
  keeps same_connections (removeLocalFile path).
Proof. intros w. unfold removeLocalFile. by case_decide. Qed.

Lemma removeLocalFile_keeps_messages path :
  keeps same_messages (removeLocalFile path).
Proof. intros w. unfold removeLocalFile. by case_decide. Qed.

Lemma notify_participants_keeps_connections sc req event payload ps :
  keeps same_connections (notify_participants sc req event payload ps).
Proof.
  unfold notify_participants, emitSocketEvent, io_in_emit. frame.
Qed.

Lemma notify_participants_keeps_messages sc req event payload ps :
  keeps same_messages (notify_participants sc req event payload ps).
Proof.
  unfold notify_participants, emitSocketEvent, io_in_emit. frame.
Qed.

Lemma sendMessage_keeps_connections sc req fresh :
  keeps same_connections (sendMessage sc req fresh).
Proof.
  unfold sendMessage, Chat_findById, Message_create, Chat_findByIdAndUpdate,
    Chat_findById, Message_aggregate.
  frame; apply notify_participants_keeps_connections.
Qed.

Lemma deleteMessage_keeps_connections sc req :
  keeps same_connections (deleteMessage sc req).
Proof.
  unfold deleteMessage, Chat_findOne, Message_findOne, Message_deleteOne,
    Message_findLatest, Chat_findByIdAndUpdate, Chat_findById.
  frame;
    first [ apply notify_participants_keeps_connections
          | apply removeLocalFile_keeps_connections ].
Qed.

Lemma getAllMessages_keeps_connections bound req :
  keeps same_connections (getAllMessages bound req).
Proof. unfold getAllMessages, Chat_findById. frame. Qed.

Lemma deleteCascadeChatMessages_keeps_connections chatId :
  keeps same_connections (deleteCascadeChatMessages chatId).
Proof.
  unfold deleteCascadeChatMessages. frame.
  apply removeLocalFile_keeps_connections.
Qed.

(** ** What every run keeps *)

Lemma healthy_boot us cs ms fs : healthy (boot us cs ms fs).
Proof.
  split; cbn [boot sockets rooms].
  - intros sid s Hs. by rewrite lookup_empty in Hs.
  - intros room sid. unfold Registry.membersOf. rewrite lookup_empty. set_solver.
  - intros sid s Hs. by rewrite lookup_empty in Hs.
  - intros sid s user Hs. by rewrite lookup_empty in Hs.
  - intros o. by rewrite lookup_empty.
  - intros room. by rewrite lookup_empty.
Qed.

Lemma healthy_same_connections w w' :
  same_connections w w' → healthy w → healthy w'.
Proof.
  intros [Hrooms Hsockets] [? ? ? ? ? ?].
  split; rewrite ?Hrooms, ?Hsockets; done.
Qed.

Lemma leave_absent_room room c (reg : gmap Room (gset SocketId)) :
  reg !! room = None → Registry.leave room c reg = reg.
Proof. unfold Registry.leave. by intros ->. Qed.

(** A connected socket with a user may join any room that is not keyed by
    an [ObjectId]. *)
Lemma healthy_join w sid s user key :
  healthy w →
  sockets w !! sid = Some s → sock_connected s = true →
  sock_user s = Some user →
  (∀ o, key ≠ ROid o) →
  healthy (with_rooms (Registry.join key sid) w).
Proof.
  intros [Hsockets Hmembers Hown Hidentity Hkeys Hrooms] Hs Hc Huser Hkey.
  split; cbn [with_rooms rooms sockets].
  - done.
  - intros room c. rewrite membersOf_join.
    case_decide as Hroom; [subst room|by eauto].
    rewrite elem_of_union, elem_of_singleton. intros [Hin | ->]; [by eauto|].
    exists s. split_and!; [done | done | congruence].
  - intros c s' Hs' Hc'. rewrite membersOf_join.
    case_decide as Hroom; [rewrite Hroom; apply elem_of_union; left|]; eauto.
  - intros c s' u Hs' Hc' Hu. rewrite membersOf_join.
    case_decide as Hroom; [rewrite Hroom; apply elem_of_union; left|]; eauto.
  - intros o. unfold Registry.join. rewrite lookup_insert_ne; [done|apply Hkey].
  - by apply no_empty_room_join.
Qed.

Lemma healthy_join_all w sid s user keys :
  healthy w →
  sockets w !! sid = Some s → sock_connected s = true →
  sock_user s = Some user →
  (∀ key, key ∈ keys → ∀ o, key ≠ ROid o) →
  healthy (fst (forEach (socket_join sid) keys w)).
Proof.
  revert w. induction keys as [|key keys IH]; intros w Hw Hs Hc Huser Hkeys;
    [done|].
  cbn [forEach]. unfold bind, socket_join at 1, modify. cbn [fst].
  apply IH; [|done..|].
  - apply (healthy_join _ _ s user); [done..|]. apply Hkeys. set_solver.
  - intros k Hk. apply Hkeys. set_solver.
Qed.

Lemma typing_keeps_connections sid data : keeps same_connections (typing sid data).
Proof. intros w. by destruct data. Qed.

(** What the core listeners do with an event. *)
Lemma dispatch_core sid event data w s :
  sockets w !! sid = Some s →
  sock_listeners s = core_listeners →
  dispatch sid event data w
  = match event with
    | JOIN_CHAT_EVENT => fst (join_chat sid data w)
    | TYPING_EVENT => fst ((typing sid data >>> typing sid data) w)
    | DISCONNECT_EVENT => fst (run_handler HDisconnect sid data w)
    | _ => w
    end.
Proof.
  intros Hs Hl. unfold dispatch. rewrite Hs, Hl.
  destruct event; cbn [core_listeners forEach];
    repeat (case_decide; [try discriminate|try congruence]);
    unfold bind, ret; cbn [fst]; try reflexivity.
  - by destruct (run_handler HDisconnect sid data w) as [? [?|[]]].
  - change (run_handler HJoinChat sid data) with (join_chat sid data).
    by destruct (join_chat sid data w) as [? [?|[]]].
  - change (run_handler HParticipantTyping sid data) with (typing sid data).
    change (run_handler HParticipantStoppedTyping sid data)
      with (typing sid data).
    destruct (typing sid data w) as [w1 [?|[]]]; [done|].
    by destruct (typing sid data w1) as [? [?|[]]].
Qed.

(** In a healthy world the listener of [disconnect] changes nothing: it
    leaves a room keyed by an [ObjectId], and there is none. *)
Lemma dispatch_disconnect_healthy sid data w :
  healthy w → dispatch sid DISCONNECT_EVENT data w = w.
Proof.
  intros Hw. destruct (sockets w !! sid) as [s|] eqn:Hs.
  - destruct (healthy_sockets w Hw _ _ Hs) as [[_ Hl]|(user & Hu & Hl & _)].
    + by apply (dispatch_no_listener _ _ _ _ s).
    + rewrite (dispatch_disconnect _ _ _ _ _ Hs Hl Hu).
      apply with_rooms_id, leave_absent_room, (healthy_keys w Hw).
  - unfold dispatch. by rewrite Hs.
Qed.

Lemma off_the_wire_keys reg data key :
  off_the_wire reg data = true → key ∈ keys_of data → ∀ o, key ≠ ROid o.
Proof.
  unfold off_the_wire. intros Hwire Hkey o ->.
  apply andb_true_iff in Hwire as [Hall _].
  rewrite forallb_forall in Hall.
  by specialize (Hall _ (proj1 (list_elem_of_In _ _) Hkey)).
Qed.

Lemma healthy_receive sid event data w :
  healthy w → off_the_wire (rooms w) data = true →
  healthy (receive sid event data w).
Proof.
  intros Hw Hwire. unfold receive.
  destruct (sockets w !! sid) as [s|] eqn:Hs; [|done].
  destruct (sock_connected s) eqn:Hc; [|done].
  destruct (reserved event) eqn:Hreserved; [done|]. cbn [andb negb].
  destruct (healthy_sockets w Hw _ _ Hs) as [[_ Hl]|(user & Hu & Hl & _)].
  { by rewrite (dispatch_no_listener _ _ _ _ s). }
  rewrite (dispatch_core _ _ _ _ _ Hs Hl). destruct event; try done.
  - destruct data as [key|keys]; cbn [join_chat].
    + apply (healthy_join _ _ s user); [done..|].
      apply (off_the_wire_keys _ _ _ Hwire). set_solver.
    + apply (healthy_join_all _ _ s user); [done..|].
      intros key Hkey. by apply (off_the_wire_keys _ _ _ Hwire).
  - apply (healthy_same_connections w); [|done].
    assert (Hkeeps : keeps same_connections
                       (typing sid data >>> typing sid data))
      by (frame; apply typing_keeps_connections).
    apply Hkeeps.
Qed.

Lemma elem_of_membersOf_join reg key sid room c :
  c ∈ Registry.membersOf (Registry.join key sid reg) room
  ↔ c ∈ Registry.membersOf reg room ∨ (key = room ∧ c = sid).
Proof.
  rewrite membersOf_join. case_decide as Hroom.
  - subst room. rewrite elem_of_union, elem_of_singleton. naive_solver.
  - naive_solver.
Qed.

Lemma healthy_connect deps sid handshake w :
  healthy w → sockets w !! sid = None →
  healthy (connect deps sid handshake w).
Proof.
  intros Hw Hfresh. unfold connect.
  destruct Hw as [Hsockets Hmembers Hown Hidentity Hkeys Hrooms].
  assert (Hother : ∀ c s, sockets w !! c = Some s → sid ≠ c).
  { intros c s Hc ->. congruence. }
  assert (Hin : ∀ room c, c ∈ Registry.membersOf (rooms w) room → sid ≠ c).
  { intros room c Hc. destruct (Hmembers _ _ Hc) as (s & Hs & _). eauto. }
  set (w0 := with_rooms (Registry.join (RStr sid) sid) w).
  destruct (authenticate deps handshake (users w0)) as [error|user] eqn:Hauth.
  - rewrite (on_connection_failure _ _ _ _ _ Hauth).
    split; cbn [rooms sockets w0 with_rooms].
    + intros c s. rewrite lookup_insert. case_decide; [|by eauto].
      intros [= <-]. by left.
    + intros room c. rewrite elem_of_membersOf_join, lookup_insert.
      intros [Hc|[<- ->]].
      * rewrite decide_False by eauto. eauto.
      * rewrite decide_True by done. by exists fresh_socket.
    + intros c s. rewrite lookup_insert, elem_of_membersOf_join.
      case_decide as Hc; [subst c; by right|]. intros Hs Hcon. left. eauto.
    + intros c s u. rewrite lookup_insert, elem_of_membersOf_join.
      case_decide as Hc; [by intros [= <-]|]. intros Hs Hcon Hu. left. eauto.
    + intros o. unfold Registry.join. by rewrite lookup_insert_ne.
    + by apply no_empty_room_join.
  - rewrite (on_connection_success _ _ _ _ _ Hauth).
    destruct (authenticate_success _ _ _ _ Hauth)
      as (_ & _ & stored & _ & _ & _ & ->).
    split; cbn [rooms sockets w0 with_rooms].
    + intros c s. rewrite lookup_insert. case_decide; [|by eauto].
      intros [= <-]. right. eexists. split_and!; [done | done | |];
        apply select_excludes.
    + intros room c. rewrite !elem_of_membersOf_join, lookup_insert.
      intros [[Hc|[_ ->]]|[_ ->]].
      * rewrite decide_False by eauto. eauto.
      * rewrite decide_True by done. eexists. split_and!; done.
      * rewrite decide_True by done. eexists. split_and!; done.
    + intros c s. rewrite lookup_insert, !elem_of_membersOf_join.
      case_decide as Hc; [subst c; by left; right|].
      intros Hs Hcon. left; left. eauto.
    + intros c s u. rewrite lookup_insert, !elem_of_membersOf_join.
      case_decide as Hc.
      * subst c. intros [= <-] _ [= <-]. by right.
      * intros Hs Hcon Hu. left; left. eauto.
    + intros o. unfold Registry.join. by rewrite !lookup_insert_ne.
    + by apply no_empty_room_join, no_empty_room_join.
Qed.

(** In a healthy world the close of a connected socket is the cleanup of
    socket.io and the mark: the listener adds nothing. *)
Lemma disconnect_healthy sid reason w s :
  healthy w →
  sockets w !! sid = Some s → sock_connected s = true →
  disconnect sid reason w
  = close sid (with_rooms (Registry.leave_all sid) w).
Proof.
  intros Hw Hs Hc. unfold disconnect. rewrite Hs, Hc.
  set (w1 := close sid _).
  assert (Hs1 : sockets w1 !! sid
                = Some (mkSocket (sock_user s) (sock_listeners s) false)).
  { unfold w1. rewrite close_lookup, decide_True by done.
    cbn [with_rooms sockets]. by rewrite Hs. }
  destruct (healthy_sockets w Hw _ _ Hs) as [[_ Hl]|(user & Hu & Hl & _)].
  - by apply (dispatch_no_listener _ _ _ _ _ Hs1).
  - rewrite (dispatch_disconnect _ _ _ _ _ Hs1 Hl Hu).
    apply with_rooms_id, leave_absent_room.
    unfold w1. cbn [close with_sockets with_rooms rooms].
    apply lookup_leave_all_None, (healthy_keys w Hw).
Qed.

Lemma healthy_disconnect sid reason w :
  healthy w → healthy (disconnect sid reason w).
Proof.
  intros Hw. destruct (sockets w !! sid) as [s|] eqn:Hs;
    [|by unfold disconnect; rewrite Hs].
  destruct (sock_connected s) eqn:Hc;
    [|by unfold disconnect; rewrite Hs, Hc].
  rewrite (disconnect_healthy _ _ _ _ Hw Hs Hc).
  destruct Hw as [Hsockets Hmembers Hown Hidentity Hkeys Hrooms].
  split.
  - intros c s'. rewrite close_lookup. cbn [with_rooms sockets].
    case_decide as Hsid; [|by eauto]. subst c. rewrite Hs.
    intros [= <-]. cbn [sock_user sock_listeners]. eauto.
  - intros room c. rewrite close_lookup.
    cbn [close with_sockets with_rooms rooms sockets].
    rewrite membersOf_leave_all. intros Hin.
    apply elem_of_difference in Hin as [Hin Hne].
    rewrite not_elem_of_singleton in Hne. rewrite decide_False by done.
    eauto.
  - intros c s'. rewrite close_lookup. cbn [with_rooms sockets rooms close
                                            with_sockets].
    rewrite membersOf_leave_all. case_decide as Hsid.
    + subst c. rewrite Hs. by intros [= <-].
    + intros Hs' Hc'. specialize (Hown _ _ Hs' Hc'). set_solver.
  - intros c s' u. rewrite close_lookup. cbn [with_rooms sockets rooms close
                                              with_sockets].
    rewrite membersOf_leave_all. case_decide as Hsid.
    + subst c. rewrite Hs. by intros [= <-].
    + intros Hs' Hc' Hu. specialize (Hidentity _ _ _ Hs' Hc' Hu). set_solver.
  - intros o. cbn [close with_sockets with_rooms rooms].
    by apply lookup_leave_all_None.
  - cbn [close with_sockets with_rooms rooms].
    by apply no_empty_room_leave_all.
Qed.

Lemma healthy_perform deps a w w' :
  healthy w → perform deps a w = Some w' → healthy w'.
Proof.
  intros Hw. destruct a; cbn [perform].
  - case_decide as Hfresh; [|done]. intros [= <-]. by apply healthy_connect.
  - destruct (off_the_wire (rooms w) data) eqn:Hwire; [|done].
    destruct (reserved event); [done|]. intros [= <-]. by apply healthy_receive.
  - intros [= <-]. by apply healthy_disconnect.
  - by intros [= <-]; apply (healthy_same_connections w).
  - intros [= <-]. apply (healthy_same_connections w); [|done].
    apply sendMessage_keeps_connections.
  - intros [= <-]. apply (healthy_same_connections w); [|done].
    apply deleteMessage_keeps_connections.
  - intros [= <-]. apply (healthy_same_connections w); [|done].
    apply getAllMessages_keeps_connections.
  - intros [= <-]. apply (healthy_same_connections w); [|done].
    apply deleteCascadeChatMessages_keeps_connections.
Qed.

Lemma healthy_run deps actions w w' :
  healthy w → run deps actions w = Some w' → healthy w'.
Proof.
  revert w. induction actions as [|a actions IH]; intros w Hw; cbn [run].
  - by intros [= <-].
  - destruct (perform deps a w) as [w1|] eqn:Hstep; [|done].
    cbn. apply IH. by apply (healthy_perform deps a w).
Qed.

Section RunFacts.

Context (deps : Collaborators) (us : list UserDoc) (cs : list ChatDoc)
        (ms : list MessageDoc) (fs : gset string).
Context (actions : list Action) (w : World).
Hypothesis Hrun : run deps actions (boot us cs ms fs) = Some w.

Lemma run_healthy : healthy w.
Proof. exact (healthy_run _ _ _ _ (healthy_boot us cs ms fs) Hrun). Qed.

(** X4. In every state the server reaches from its start, a member of any
    room is a connection that is still connected; and a member of a room
    other than the one socket.io names after the socket itself is a
    connection whose handshake succeeded, with a user and the core
    listeners. A connection whose handshake failed is in its own room and in
    no other. *)
Theorem run_members_are_live_connections (room : Room) (sid : SocketId) :
  sid ∈ Registry.membersOf (rooms w) room →
  ∃ s, sockets w !! sid = Some s
       ∧ sock_connected s = true
       ∧ sid ∈ Registry.membersOf (rooms w) (RStr sid)
       ∧ (room = RStr sid ∨ ∃ user, s = authenticated_socket user).
Proof.
  intros Hin.
  destruct (healthy_members w run_healthy _ _ Hin) as (s & Hs & Hc & Hroom).
  exists s. split_and!; [done | done | by apply (healthy_own w run_healthy _ s) |].
  destruct (healthy_sockets w run_healthy _ _ Hs)
    as [[Hu _]|(user & Hu & Hl & _)]; [left; by apply Hroom|].
  right. exists user. destruct s. cbn in *. by subst.
Qed.

(** X5. In every state the server reaches, the user attached to a socket has
    neither password nor refresh token. *)
Theorem run_sockets_hold_no_secret (sid : SocketId) (s : Socket) (user : UserDoc) :
  sockets w !! sid = Some s →
  sock_user s = Some user →
  password user = None ∧ refreshToken user = None.
Proof.
  intros Hs Huser.
  destruct (healthy_sockets w run_healthy _ _ Hs)
    as [[Hu _]|(u & Hu & _ & Hp & Hr)]; [congruence|].
  assert (u = user) as -> by congruence. done.
Qed.

(** X6. In every state the server reaches, every room of the registry has at
    least one member, and no room is keyed by an [ObjectId]: the keys are
    the strings the handshake joins and whatever values the clients sent
    with join-chat. *)
Theorem run_rooms_are_inhabited (room : Room) (members : gset SocketId) :
  rooms w !! room = Some members →
  (∃ sid, sid ∈ members) ∧ ∀ o, room ≠ ROid o.
Proof.
  intros Hroom. split.
  - apply set_choose_L. intros ->. by apply (healthy_rooms w run_healthy room).
  - intros o ->. by rewrite (healthy_keys w run_healthy) in Hroom.
Qed.

(** X7. In every state the server reaches, a connection that is connected
    and has a user is a member of the room named by the user's id, so an
    event sent to that room with [emitSocketEvent] is delivered to it. Once
    the connection has closed it is a member of no room, and such an event
    is not delivered to it. *)
Theorem run_keeps_identity_membership_while_connected
    (sid : SocketId) (s : Socket) (user : UserDoc)
    (event : ChatEventEnum) (payload : Payload) (reason : string) :
  sockets w !! sid = Some s →
  sock_connected s = true →
  sock_user s = Some user →
  let identity := RStr (toString (user_id user)) in
  let w' := disconnect sid reason w in
  sid ∈ Registry.membersOf (rooms w) identity
  ∧ mkDelivery sid event payload
    ∈ appended (outbox w) (outbox (fst (emitSocketEvent identity event payload w)))
  ∧ (∀ room, sid ∉ Registry.membersOf (rooms w') room)
  ∧ (∀ d, d ∈ appended (outbox w')
                 (outbox (fst (emitSocketEvent identity event payload w'))) →
          dl_to d ≠ sid).
Proof.
  intros Hs Hc Huser identity w'.
  assert (Hin : sid ∈ Registry.membersOf (rooms w) identity)
    by apply (healthy_identity w run_healthy _ _ _ Hs Hc Huser).
  assert (Hout : ∀ room, sid ∉ Registry.membersOf (rooms w') room).
  { intros room. unfold w'. rewrite (disconnect_healthy _ _ _ _ run_healthy Hs Hc).
    cbn [close with_sockets with_rooms rooms]. rewrite membersOf_leave_all.
    set_solver. }
  split_and!; [done | | done |].
  - cbn [emitSocketEvent io_in_emit modify fst with_outbox outbox].
    rewrite appended_app. by apply elem_of_fanout.
  - cbn [emitSocketEvent io_in_emit modify fst with_outbox outbox].
    rewrite appended_app. intros d Hd Hto. apply elem_of_fanout in Hd as [Hd _].
    rewrite Hto in Hd. by apply (Hout identity).
Qed.

(** X8. In every state the server reaches, the listener of [disconnect]
    changes nothing: its leave is addressed to the user's [ObjectId], and no
    room is keyed by one. So the close of a connection is what socket.io
    does by itself: the socket leaves all its rooms and is marked as not
    connected. *)
Theorem run_disconnect_changes_nothing
    (sid : SocketId) (data : Data) (reason : string) :
  dispatch sid DISCONNECT_EVENT data w = w
  ∧ ∀ s, sockets w !! sid = Some s → sock_connected s = true →
         disconnect sid reason w
         = close sid (with_rooms (Registry.leave_all sid) w).
Proof.
  split.
  - apply dispatch_disconnect_healthy, run_healthy.
  - intros s. apply disconnect_healthy, run_healthy.
Qed.

End RunFacts.

Lemma two_join_runs :
  run Example.deps Scenario.two_join Scenario.start = Some Scenario.after_two_join.
Proof. vm_compute. reflexivity. Qed.

Lemma mixed_runs :
  run Example.deps Scenario.mixed Scenario.start = Some Scenario.after_mixed.
Proof. vm_compute. reflexivity. Qed.

(** ** Removing files *)

Lemma with_files_id (w : World) : with_files (λ _, files w) w = w.
Proof. by destruct w. Qed.

Lemma with_files_with_files f g (w : World) :
  with_files f (with_files g w) = with_files (λ x, f (g x)) w.
Proof. done. Qed.

Lemma remove_files_present {A} (path : A → string) x (l : list A) w :
  path x ∈ files w →
  forEach (λ x, removeLocalFile (path x)) (x :: l) w
  = forEach (λ x, removeLocalFile (path x)) l
      (with_files (λ fs, fs ∖ {[path x]}) w).
Proof.
  intros Hin. cbn [forEach]. unfold bind, removeLocalFile at 1.
  by rewrite decide_True.
Qed.

Lemma remove_files_absent {A} (path : A → string) x (l : list A) w :
  path x ∉ files w →
  forEach (λ x, removeLocalFile (path x)) (x :: l) w = (w, inl ENOENT).
Proof.
  intros Hout. cbn [forEach]. unfold bind, removeLocalFile at 1.
  by rewrite decide_False.
Qed.

(** Removing the files of a list one after the other: it succeeds exactly
    when the paths are distinct and all present, and then exactly these
    files are gone; otherwise it stops with [ENOENT]. Nothing but the
    files changes. *)
Lemma remove_files_spec {A} (path : A → string) (l : list A) (w : World) :
  let r := forEach (λ x, removeLocalFile (path x)) l w in
  fst r = with_files (λ _, files (fst r)) w
  ∧ files (fst r) ⊆ files w
  ∧ (snd r = inr tt ∨ snd r = inl ENOENT)
  ∧ (snd r = inr tt ↔ NoDup (path <$> l) ∧ ∀ p, p ∈ path <$> l → p ∈ files w)
  ∧ (snd r = inr tt → files (fst r) = files w ∖ list_to_set (path <$> l)).
Proof.
  revert w. induction l as [|x l IH]; intros w; cbv zeta.
  - cbn [forEach ret fst snd fmap list_fmap]. rewrite with_files_id. split_and!.
    + done.
    + done.
    + by left.
    + split; [|done]. intros _. split; [constructor|]. intros p Hp.
      by apply elem_of_nil in Hp.
    + intros _. cbn [list_to_set]. set_solver.
  - destruct (decide (path x ∈ files w)) as [Hin|Hout].
    + rewrite remove_files_present by done.
      specialize (IH (with_files (λ fs0, fs0 ∖ {[path x]}) w)).
      cbv zeta in IH. destruct IH as (Hw & Hsub & Hres & Hiff & Hfiles).
      cbn [with_files files] in Hsub, Hiff, Hfiles.
      cbn [fmap list_fmap]. split_and!.
      * rewrite Hw at 1. by rewrite with_files_with_files.
      * set_solver.
      * done.
      * rewrite Hiff, NoDup_cons. split.
        -- intros [Hnd Hall]. split_and!; [|done|].
           ++ intros Hx. specialize (Hall _ Hx). set_solver.
           ++ intros p Hp. apply elem_of_cons in Hp as [->|Hp]; [done|].
              specialize (Hall _ Hp). set_solver.
        -- intros [[Hx Hnd] Hall]. split; [done|]. intros p Hp.
           assert (p ≠ path x) by (intros ->; done).
           assert (p ∈ files w) by (apply Hall; set_solver). set_solver.
      * intros Hok. rewrite (Hfiles Hok). cbn [list_to_set]. set_solver.
    + rewrite remove_files_absent by done. cbn [fst snd fmap list_fmap].
      rewrite with_files_id. split_and!; try done.
      * by right.
      * split; [done|]. intros [_ Hall]. destruct Hout. apply Hall. set_solver.
Qed.

(** ** deleteCascadeChatMessages *)




(** ** helpers.js *)

(** X9. [removeLocalFile] on a file that is there removes that file and no
    other; removing it a second time throws [ENOENT] and changes nothing. *)
Theorem removeLocalFile_removes_once (path : string) (w : World) :
  path ∈ files w →
  let w' := fst (removeLocalFile path w) in
  snd (removeLocalFile path w) = inr tt
  ∧ (path ∉ files w')
  ∧ (∀ other, other ≠ path → (other ∈ files w' ↔ other ∈ files w))
  ∧ removeLocalFile path w' = (w', inl ENOENT).
Proof.
  intros Hin. cbv zeta.
  assert (Hrun : removeLocalFile path w
                 = (with_files (λ fs, fs ∖ {[path]}) w, inr tt)).
  { unfold removeLocalFile. by rewrite decide_True. }
  rewrite Hrun. cbn [fst snd with_files files].
  split_and!; [done | set_solver | set_solver |].
  unfold removeLocalFile. cbn [with_files files].
  by rewrite decide_False by set_solver.
Qed.

(** ** sendMessage *)

#[global] Instance same_store_refl : Reflexive same_store.
Proof. by intros w. Qed.

#[global] Instance same_store_trans : Transitive same_store.
Proof.
  intros w1 w2 w3 (? & ? & ? & ?) (? & ? & ? & ?). repeat split; congruence.
Qed.

Lemma notify_participants_keeps_store sc req event payload ps :
  keeps same_store (notify_participants sc req event payload ps).
Proof.
  unfold notify_participants, emitSocketEvent, io_in_emit. frame.
Qed.

Lemma sendMessage_after_store sc req fresh w chat :
  has_content req →
  default [] (files_attachments req) = [] ∨ binds_getStaticFilePath sc = true →
  chat_with_id (params_chatId req) (chats w) = Some chat →
  ∃ first,
    head (filter (λ m, msg_id m = fresh) (messages w ++ [message_to_store req fresh]))
    = Some first
    ∧ sendMessage sc req fresh w
      = (notify_participants sc req MESSAGE_RECEIVED_EVENT
           (PAggregated (messageCommonAggregation (users w) first))
           (chat_participants chat) >>>
         resolve (binds_ApiResponse sc) "ApiResponse" >>>
         ret (mkResponse 201
                (PAggregated (messageCommonAggregation (users w) first))
                "Message saved successfully"))
          (after_store req fresh w).
Proof.
  intros Hcontent Hfiles Hchat.
  destruct (head_filter_snoc (λ m, msg_id m = fresh) (messages w)
              (message_to_store req fresh) eq_refl) as [first Hfirst].
  exists first. split; [done|]. unfold sendMessage.
  assert (Hcheck : negb (truthy (body_content req))
                   && bool_decide (length (default [] (files_attachments req)) = 0)
                   = false).
  { destruct Hcontent as [->|Hne]; [done|].
    rewrite bool_decide_false; [by rewrite andb_false_r|].
    by destruct (default [] (files_attachments req)). }
  rewrite Hcheck.
  destruct (chat_with_id_id _ _ _ Hchat) as [Hid _].
  rewrite (bind_ok _ _ _ _ _ (Chat_findById_run _ _ _ Hid)), Hchat.
  match goal with |- context [bind ?m _ w] =>
    assert (Hm : m w = (w, inr (msg_attachments (message_to_store req fresh))))
  end.
  { cbn [message_to_store msg_attachments]. destruct Hfiles as [->| ->].
    - done.
    - destruct (default [] (files_attachments req)); done. }
  rewrite (bind_ok _ _ _ _ _ Hm).
  rewrite (bind_ok _ _ _ _ _ (new_ObjectId_run _ _ _ Hid)).
  rewrite (ObjectId_of_lowercase _ _ Hid).
  rewrite (bind_ok _ _ _ _ _ (Message_create_run _ _ _ _ _ _)).
  rewrite (bind_ok _ _ _ _ _ (Chat_findByIdAndUpdate_run _ _ _ _ Hid)).
  cbn [with_messages chats]. rewrite Hchat.
  cbn [fmap option_fmap option_map msg_id].
  rewrite (bind_ok _ _ _ _ _ (Message_aggregate_run _ _)).
  cbn [with_chats with_messages messages users].
  change (mkMessage fresh _ _ _ (msg_attachments (message_to_store req fresh)))
    with (message_to_store req fresh).
  rewrite head_fmap, Hfirst. reflexivity.
Qed.

Lemma sendMessage_no_content sc req fresh w :
  ¬ has_content req →
  sendMessage sc req fresh w
  = (w, inl (apiError 400 "Message content or attachment is required")).
Proof.
  intros Hnone. unfold sendMessage, has_content in *.
  destruct (truthy (body_content req)); [by destruct Hnone; left|].
  destruct (default [] (files_attachments req)); [done|].
  destruct Hnone. by right.
Qed.

Lemma has_content_check req :
  has_content req →
  negb (truthy (body_content req))
  && bool_decide (length (default [] (files_attachments req)) = 0) = false.
Proof.
  intros [->|Hne]; [done|].
  rewrite bool_decide_false; [by rewrite andb_false_r|].
  by destruct (default [] (files_attachments req)).
Qed.

Lemma sendMessage_no_chat sc req fresh w o :
  has_content req →
  ObjectId_of (params_chatId req) = Some o →
  chat_with_id (params_chatId req) (chats w) = None →
  sendMessage sc req fresh w = (w, inl (apiError 404 "Chat does not exist")).
Proof.
  intros Hcontent Hid Hchat. unfold sendMessage.
  rewrite (has_content_check _ Hcontent).
  by rewrite (bind_ok _ _ _ _ _ (Chat_findById_run _ _ _ Hid)), Hchat.
Qed.

Lemma sendMessage_not_an_id sc req fresh w :
  has_content req →
  ObjectId_of (params_chatId req) = None →
  sendMessage sc req fresh w
  = (w, inl (CastError (params_chatId req) "_id" "Chat")).
Proof.
  intros Hcontent Hid. unfold sendMessage.
  rewrite (has_content_check _ Hcontent).
  by rewrite (bind_error _ _ _ _ _ (Chat_findById_invalid _ _ Hid)).
Qed.

Lemma sendMessage_unbound_helper sc req fresh w chat :
  default [] (files_attachments req) ≠ [] →
  binds_getStaticFilePath sc = false →
  chat_with_id (params_chatId req) (chats w) = Some chat →
  sendMessage sc req fresh w = (w, inl (ReferenceError "getStaticFilePath")).
Proof.
  intros Hfiles Hbound Hchat. unfold sendMessage.
  assert (Hcheck : negb (truthy (body_content req))
                   && bool_decide (length (default [] (files_attachments req)) = 0)
                   = false).
  { rewrite bool_decide_false; [by rewrite andb_false_r|].
    by destruct (default [] (files_attachments req)). }
  rewrite Hcheck.
  destruct (chat_with_id_id _ _ _ Hchat) as [Hid _].
  rewrite (bind_ok _ _ _ _ _ (Chat_findById_run _ _ _ Hid)), Hchat, Hbound.
  by destruct (default [] (files_attachments req)).
Qed.

(** The five ways [sendMessage] can go. *)
Lemma sendMessage_cases sc req fresh w :
  (¬ has_content req
   ∧ sendMessage sc req fresh w
     = (w, inl (apiError 400 "Message content or attachment is required")))
  ∨ (has_content req
     ∧ ObjectId_of (params_chatId req) = None
     ∧ sendMessage sc req fresh w
       = (w, inl (CastError (params_chatId req) "_id" "Chat")))
  ∨ (has_content req
     ∧ is_Some (ObjectId_of (params_chatId req))
     ∧ chat_with_id (params_chatId req) (chats w) = None
     ∧ sendMessage sc req fresh w = (w, inl (apiError 404 "Chat does not exist")))
  ∨ (default [] (files_attachments req) ≠ []
     ∧ is_Some (chat_with_id (params_chatId req) (chats w))
     ∧ binds_getStaticFilePath sc = false
     ∧ sendMessage sc req fresh w
       = (w, inl (ReferenceError "getStaticFilePath")))
  ∨ (∃ chat first,
       has_content req
       ∧ (default [] (files_attachments req) = []
          ∨ binds_getStaticFilePath sc = true)
       ∧ chat_with_id (params_chatId req) (chats w) = Some chat
       ∧ head (filter (λ m, msg_id m = fresh)
                 (messages w ++ [message_to_store req fresh])) = Some first
       ∧ sendMessage sc req fresh w
         = (notify_participants sc req MESSAGE_RECEIVED_EVENT
              (PAggregated (messageCommonAggregation (users w) first))
              (chat_participants chat) >>>
            resolve (binds_ApiResponse sc) "ApiResponse" >>>
            ret (mkResponse 201
                   (PAggregated (messageCommonAggregation (users w) first))
                   "Message saved successfully"))
             (after_store req fresh w)).
Proof.
  assert (Hdec : has_content req ∨ ¬ has_content req).
  { unfold has_content. destruct (truthy (body_content req)); [by left; left|].
    destruct (default [] (files_attachments req)); [right|left; right]; [|done].
    by intros [?|?]. }
  destruct Hdec as [Hcontent|Hnone].
  2: { left. split; [done|]. by apply sendMessage_no_content. }
  right.
  destruct (ObjectId_of (params_chatId req)) as [o|] eqn:Hid.
  2: { left. split_and!; [done..|]. by apply sendMessage_not_an_id. }
  right.
  destruct (chat_with_id (params_chatId req) (chats w)) as [chat|] eqn:Hchat.
  2: { left. split_and!; [done | by eauto | done |].
       by apply (sendMessage_no_chat _ _ _ _ o). }
  right.
  destruct (decide (default [] (files_attachments req) = [])) as [Hnil|Hfiles].
  - right. destruct (sendMessage_after_store sc req fresh w chat)
      as (first & Hfirst & Hrun); [done | by left | done |].
    exists chat, first. split_and!; [done | by left | done..].
  - destruct (binds_getStaticFilePath sc) eqn:Hbound.
    + right. destruct (sendMessage_after_store sc req fresh w chat)
        as (first & Hfirst & Hrun); [done | by right | done |].
      exists chat, first. split_and!; [done | by right | done..].
    + left. split_and!; [done | by eauto | done |].
      by apply (sendMessage_unbound_helper _ _ _ _ chat).
Qed.

(** What the closing steps of [sendMessage] do to a world. *)
Lemma sendMessage_closing sc req payload ps w :
  let r := (notify_participants sc req MESSAGE_RECEIVED_EVENT payload ps >>>
            resolve (binds_ApiResponse sc) "ApiResponse" >>>
            ret (mkResponse 201 payload "Message saved successfully")) w in
  same_store w (fst r)
  ∧ (∀ response, snd r = inr response →
       binds_ApiResponse sc = true
       ∧ response = mkResponse 201 payload "Message saved successfully").
Proof.
  cbv zeta. split.
  - revert w. change (keeps same_store
      (notify_participants sc req MESSAGE_RECEIVED_EVENT payload ps >>>
       resolve (binds_ApiResponse sc) "ApiResponse" >>>
       ret (mkResponse 201 payload "Message saved successfully"))).
    frame. apply notify_participants_keeps_store.
  - intros response. unfold bind at 1.
    destruct (notify_participants _ _ _ _ _ w) as [w1 [e|[]]]; [done|].
    unfold bind, resolve. destruct (binds_ApiResponse sc); [|done].
    cbn. by intros [= <-].
Qed.

(** Under a scope that does not bind [ChatEventEnum], the closing loop
    stops at the first participant other than the requester, before it
    emits anything. *)
Lemma notify_participants_unbound sc req event payload ps w :
  binds_ChatEventEnum sc = false →
  notify_participants sc req event payload ps w
  = (w, if decide (others req ps = []) then inr tt
        else inl (ReferenceError "ChatEventEnum")).
Proof.
  intros Hbound. unfold others.
  induction ps as [|p ps IH]; [done|].
  destruct (decide (toString p = toString (user_id (req_user req)))) as [Heq|Hne].
  - rewrite notify_participants_self by done.
    rewrite filter_cons_False by naive_solver. apply IH.
  - rewrite notify_participants_other, Hbound by done.
    rewrite filter_cons_True by done. done.
Qed.

(** What [sendMessage] does once the message is stored, under the
    imports of the file. *)
Lemma sendMessage_closing_as_written req payload ps w :
  (notify_participants message_controller_scope req MESSAGE_RECEIVED_EVENT
     payload ps >>>
   resolve (binds_ApiResponse message_controller_scope) "ApiResponse" >>>
   ret (mkResponse 201 payload "Message saved successfully")) w
  = (w, inl (if decide (others req ps = [])
             then ReferenceError "ApiResponse"
             else ReferenceError "ChatEventEnum")).
Proof.
  unfold bind at 1. rewrite notify_participants_unbound by done.
  by case_decide.
Qed.

(** C4. Under the imports of message.controller.js, which bind no
    [ChatEventEnum], [sendMessage] delivers no event to anybody, whatever
    the request, the store and the rooms. A request with content, without
    attachment, for a chat that has a participant other than the sender is
    stored, and then the handler ends with the [ReferenceError] for
    [ChatEventEnum] at the first such participant: no connection of that
    participant receives MESSAGE_RECEIVED. *)
Theorem sendMessage_delivers_nothing_as_written
    (req : Request) (fresh : ObjectId) (w : World) :
  let w' := fst (sendMessage message_controller_scope req fresh w) in
  outbox w' = outbox w
  ∧ same_connections w w'
  ∧ ∀ chat,
      has_content req →
      default [] (files_attachments req) = [] →
      chat_with_id (params_chatId req) (chats w) = Some chat →
      others req (chat_participants chat) ≠ [] →
      messages w' = messages w ++ [message_to_store req fresh]
      ∧ snd (sendMessage message_controller_scope req fresh w)
        = inl (ReferenceError "ChatEventEnum").
Proof.
  cbv zeta. split_and!.
  - destruct (sendMessage_cases message_controller_scope req fresh w)
      as [[_ ->]|[(_ & _ & ->)|[(_ & _ & _ & ->)|[(_ & _ & _ & ->)|Hstored]]]];
      try done.
    destruct Hstored as (chat & first & _ & _ & _ & _ & ->).
    by rewrite sendMessage_closing_as_written.
  - apply sendMessage_keeps_connections.
  - intros chat Hcontent Hnone Hchat Hothers.
    destruct (sendMessage_after_store message_controller_scope req fresh w chat)
      as (first & _ & ->); [done | by left | done |].
    rewrite sendMessage_closing_as_written, decide_False by done. by split.
Qed.

Lemma sendMessage_delivers_nothing_as_written_witness :
  "B" ∈ Registry.membersOf (rooms Example.two_in_chat42) (RStr "u2")
  ∧ outbox (fst (sendMessage message_controller_scope Example.send_hi
                   (mkObjectId Example.m2_id) Example.two_in_chat42))
    = outbox Example.two_in_chat42
  ∧ messages (fst (sendMessage message_controller_scope Example.send_hi
                     (mkObjectId Example.m2_id) Example.two_in_chat42))
    = [Example.m1;
       mkMessage (mkObjectId Example.m2_id) (mkObjectId "u1") "hi"
                 (mkObjectId Example.chat42_id) []]
  ∧ snd (sendMessage message_controller_scope Example.send_hi
           (mkObjectId Example.m2_id) Example.two_in_chat42)
    = inl (ReferenceError "ChatEventEnum").
Proof.
  destruct (sendMessage_delivers_nothing_as_written Example.send_hi
              (mkObjectId Example.m2_id) Example.two_in_chat42)
    as (Houtbox & _ & Hstored).
  destruct (Hstored Example.chat42) as (Hmessages & Hresult).
  - by left.
  - reflexivity.
  - reflexivity.
  - by_evaluation.
  - split_and!; [by_evaluation | exact Houtbox | exact Hmessages | exact Hresult].
Defined.

(** X12. [sendMessage] refuses a request without content and without
    attachment with the 400 error; otherwise a request whose chat id is not
    an id (24 hexadecimal digits) is rejected by the query with its cast
    error, and a request whose chat id is the id of no chat with the 404
    error; in all three cases the world is unchanged. *)
Theorem sendMessage_rejects_without_storing
    (sc : ModuleScope) (req : Request) (fresh : ObjectId) (w : World) :
  ¬ has_content req ∨ chat_with_id (params_chatId req) (chats w) = None →
  ∃ error,
    sendMessage sc req fresh w = (w, inl error)
    ∧ (¬ has_content req →
       error = apiError 400 "Message content or attachment is required")
    ∧ (has_content req → is_Some (ObjectId_of (params_chatId req)) →
       error = apiError 404 "Chat does not exist")
    ∧ (has_content req → ObjectId_of (params_chatId req) = None →
       error = CastError (params_chatId req) "_id" "Chat").
Proof.
  intros Hbad.
  destruct (sendMessage_cases sc req fresh w)
    as [[Hnone ->]|[(Hcontent & Hid & ->)|[(Hcontent & Hid & Hchat & ->)
       |[(Hfiles & Hsome & _)|Hstored]]]].
  - eexists. split_and!; [done | done | done | done].
  - eexists. split_and!; [done | done | | done].
    intros _ [? ?]. congruence.
  - eexists. split_and!; [done | done | done |].
    intros _ Hno. destruct Hid. congruence.
  - destruct Hbad as [Hnone|Hchat].
    + destruct Hnone. by right.
    + destruct Hsome. congruence.
  - destruct Hstored as (chat & first & Hcontent & _ & Hchat & _).
    destruct Hbad as [Hnone|Hnochat]; [done | congruence].
Qed.

(** X13. Under the imports of message.controller.js, [sendMessage] never
    answers: whatever the request and the store, it ends with an error. *)
Theorem sendMessage_never_answers_as_written
    (req : Request) (fresh : ObjectId) (w : World) :
  ∃ error, snd (sendMessage message_controller_scope req fresh w) = inl error.
Proof.
  destruct (sendMessage_cases message_controller_scope req fresh w)
    as [[_ ->]|[(_ & _ & ->)|[(_ & _ & _ & ->)|[(_ & _ & _ & ->)|Hstored]]]];
    eauto.
  destruct Hstored as (chat & first & _ & _ & _ & _ & ->).
  destruct (sendMessage_closing message_controller_scope req
              (PAggregated (messageCommonAggregation (users w) first))
              (chat_participants chat) (after_store req fresh w))
    as [_ Hanswer].
  cbv zeta in Hanswer. destruct (snd _) as [error|response]; [eauto|].
  by destruct (Hanswer response eq_refl).
Qed.

(** X14. Under the imports of message.controller.js, a request that carries
    an attachment fails before anything is stored: the world is unchanged, and
    when the chat exists the error is the [ReferenceError] for
    [getStaticFilePath]. *)
Theorem sendMessage_attachment_fails_as_written
    (req : Request) (fresh : ObjectId) (w : World) :
  default [] (files_attachments req) ≠ [] →
  ∃ error,
    sendMessage message_controller_scope req fresh w = (w, inl error)
    ∧ (is_Some (chat_with_id (params_chatId req) (chats w)) →
       error = ReferenceError "getStaticFilePath").
Proof.
  intros Hfiles.
  destruct (sendMessage_cases message_controller_scope req fresh w)
    as [[Hnone ->]|[(_ & Hid & ->)|[(_ & _ & Hchat & ->)|[(_ & _ & _ & ->)
       |Hstored]]]].
  - destruct Hnone. by right.
  - eexists. split; [done|]. rewrite (chat_with_id_invalid _ _ Hid).
    by intros [? ?].
  - eexists. split; [done|]. rewrite Hchat. by intros [? ?].
  - by eexists.
  - destruct Hstored as (chat & first & _ & [Hnil|Hbound] & _); done.
Qed.

(** X15. Once the checks have passed, [sendMessage] has stored the message
    (sender, content or the empty string, chat, attachments with their url and
    local path) at the end of the collection and pointed the chat's
    [lastMessage] at it, whatever happens afterwards: an error while notifying
    or answering undoes nothing. *)
Theorem sendMessage_stores_before_notifying
    (sc : ModuleScope) (req : Request) (fresh : ObjectId) (w : World)
    (chat : ChatDoc) :
  has_content req →
  default [] (files_attachments req) = [] ∨ binds_getStaticFilePath sc = true →
  chat_with_id (params_chatId req) (chats w) = Some chat →
  let w' := fst (sendMessage sc req fresh w) in
  messages w' = messages w ++ [message_to_store req fresh]
  ∧ chat_with_id (params_chatId req) (chats w')
    = Some (mkChat (chat_id chat) (chat_participants chat) (Some fresh))
  ∧ users w' = users w
  ∧ files w' = files w.
Proof.
  intros Hcontent Hfiles Hchat.
  destruct (sendMessage_after_store sc req fresh w chat Hcontent Hfiles Hchat)
    as (first & _ & ->).
  destruct (sendMessage_closing sc req
              (PAggregated (messageCommonAggregation (users w) first))
              (chat_participants chat) (after_store req fresh w))
    as [(Husers & Hchats & Hmessages & Hfs) _].
  cbv zeta in *. rewrite Hmessages, Hchats, Husers, Hfs.
  unfold after_store. cbn [with_chats with_messages messages chats users files].
  by rewrite chat_with_id_update_first, Hchat.
Qed.

Lemma filter_none {A} (P : A → Prop) `{!∀ x, Decision (P x)} (l : list A) :
  (∀ x, x ∈ l → ¬ P x) → filter P l = [].
Proof.
  induction l as [|x l IH]; [done|]. intros Hnone.
  rewrite filter_cons_False by (apply Hnone; set_solver).
  apply IH. intros y Hy. apply Hnone. set_solver.
Qed.

(** X16. When [sendMessage] answers and the new id was not in use, the answer
    is 201 with the stored message, whose sender is replaced by the public
    view (id, username, avatar, email) of the first user with the requester's
    id. *)
Theorem sendMessage_answers_with_the_stored_message
    (sc : ModuleScope) (req : Request) (fresh : ObjectId) (w : World)
    (response : Response) :
  snd (sendMessage sc req fresh w) = inr response →
  (∀ m, m ∈ messages w → msg_id m ≠ fresh) →
  response
  = mkResponse 201
      (PAggregated
         (messageCommonAggregation (users w) (message_to_store req fresh)))
      "Message saved successfully"
  ∧ am_sender (messageCommonAggregation (users w) (message_to_store req fresh))
    = (λ u, mkSenderView (user_id u) (username u) (avatar u) (email u))
        <$> List.find (λ u, bool_decide (user_id u = user_id (req_user req)))
                      (users w).
Proof.
  intros Hanswer Hfresh. split; [|done].
  destruct (sendMessage_cases sc req fresh w)
    as [[_ Hrun]|[(_ & _ & Hrun)|[(_ & _ & _ & Hrun)|[(_ & _ & _ & Hrun)
       |Hstored]]]];
    try (by rewrite Hrun in Hanswer).
  destruct Hstored as (chat & first & _ & _ & _ & Hfirst & Hrun).
  rewrite Hrun in Hanswer.
  destruct (sendMessage_closing sc req
              (PAggregated (messageCommonAggregation (users w) first))
              (chat_participants chat) (after_store req fresh w))
    as [_ Hclosing].
  destruct (Hclosing _ Hanswer) as [_ ->].
  rewrite filter_app, (filter_none _ (messages w)) in Hfirst by done.
  rewrite filter_cons_True in Hfirst by done. by injection Hfirst as <-.
Qed.

(** ** deleteMessage *)

Lemma Message_findLatest_run chatId o w :
  ObjectId_of chatId = Some o →
  Message_findLatest chatId w = (w, inr (latest_message chatId (messages w))).
Proof.
  intros Hs. unfold Message_findLatest.
  by rewrite (bind_ok _ _ _ _ _ (cast_id_run _ _ _ _ _ Hs)).
Qed.

Lemma Message_deleteOne_run messageId o w :
  ObjectId_of messageId = Some o →
  Message_deleteOne messageId w
  = (with_messages (remove_first (λ m, has_id messageId (msg_id m))) w,
     inr tt).
Proof.
  intros Hs. unfold Message_deleteOne.
  by rewrite (bind_ok _ _ _ _ _ (new_ObjectId_run _ _ _ Hs)).
Qed.

Lemma deleteMessage_checked sc req w chat message :
  chat_of_participant (params_chatId req) (user_id (req_user req)) (chats w)
  = Some chat →
  message_with_id (params_messageId req) (messages w) = Some message →
  toString (msg_sender message) = toString (user_id (req_user req)) →
  deleteMessage sc req w
  = (forEach (λ asset, removeLocalFile (localPath asset))
             (msg_attachments message) >>>
     delete_tail sc req chat message) w.
Proof.
  intros Hchat Hmessage Hsender. unfold deleteMessage.
  destruct (chat_of_participant_id _ _ _ _ Hchat) as (Hcid & _).
  destruct (message_with_id_id _ _ _ Hmessage) as (Hmid & _).
  rewrite (bind_ok _ _ _ _ _ (Chat_findOne_run _ _ _ _ Hcid)), Hchat.
  rewrite (bind_ok _ _ _ _ _ (Message_findOne_run _ _ _ Hmid)), Hmessage.
  by rewrite bool_decide_true.
Qed.

(** The requests [deleteMessage] refuses at its three checks. *)
Lemma deleteMessage_unchecked sc req w :
  (∃ error, deleteMessage sc req w = (w, inl error))
  ∨ ∃ chat message,
      chat_of_participant (params_chatId req) (user_id (req_user req)) (chats w)
      = Some chat
      ∧ message_with_id (params_messageId req) (messages w) = Some message
      ∧ toString (msg_sender message) = toString (user_id (req_user req)).
Proof.
  unfold deleteMessage.
  destruct (ObjectId_of (params_chatId req)) as [co|] eqn:Hcid.
  2: { left. rewrite (bind_error _ _ _ _ _ (Chat_findOne_invalid _ _ _ Hcid)).
       eauto. }
  rewrite (bind_ok _ _ _ _ _ (Chat_findOne_run _ _ _ _ Hcid)).
  destruct (chat_of_participant _ _ _) as [chat|] eqn:Hchat; [|by eauto].
  destruct (ObjectId_of (params_messageId req)) as [mo|] eqn:Hmid.
  2: { left. rewrite (bind_error _ _ _ _ _ (Message_findOne_invalid _ _ Hmid)).
       eauto. }
  rewrite (bind_ok _ _ _ _ _ (Message_findOne_run _ _ _ Hmid)).
  destruct (message_with_id _ _) as [message|] eqn:Hmessage; [|by eauto].
  case_bool_decide as Hsender; [|by eauto]. right. eauto.
Qed.

#[global] Instance only_chats_and_deliveries_refl :
  Reflexive only_chats_and_deliveries.
Proof. by intros w. Qed.

#[global] Instance only_chats_and_deliveries_trans :
  Transitive only_chats_and_deliveries.
Proof. intros w1 w2 w3 (? & ? & ?) (? & ? & ?). repeat split; congruence. Qed.

Lemma notify_participants_keeps_only_chats sc req event payload ps :
  keeps only_chats_and_deliveries (notify_participants sc req event payload ps).
Proof.
  unfold notify_participants, emitSocketEvent, io_in_emit. frame.
Qed.

(** From [Message.deleteOne] on: the message is removed whatever follows,
    and an answer means the world is [after_delete_tail]. *)
Lemma delete_tail_spec sc req chat message w co mo :
  ObjectId_of (params_chatId req) = Some co →
  ObjectId_of (params_messageId req) = Some mo →
  let r := delete_tail sc req chat message w in
  messages (fst r)
  = remove_first (λ m, has_id (params_messageId req) (msg_id m)) (messages w)
  ∧ users (fst r) = users w ∧ files (fst r) = files w
  ∧ (∀ response, snd r = inr response →
       ∃ last, chat_lastMessage chat = Some last
               ∧ r = (after_delete_tail req chat message last w,
                      inr (mkResponse 200 (PMessage message)
                                      "Message deleted successfully"))).
Proof.
  intros Hcid Hmid. cbv zeta. unfold delete_tail.
  rewrite !(bind_ok _ _ _ _ _ (Message_deleteOne_run _ _ _ Hmid)).
  set (w2 := with_messages _ w).
  destruct (chat_lastMessage chat) as [last|] eqn:Hlast.
  2: { cbn [throw fst snd]. by split_and!. }
  assert (Hstep : ∃ w3,
            (if bool_decide (toString last = toString (msg_id message))
             then
               let! lastMessage := Message_findLatest (params_chatId req) in
               Chat_findByIdAndUpdate (params_chatId req) (msg_id <$> lastMessage) >>>
               ret tt
             else ret tt) w2 = (w3, inr tt)
            ∧ w3 = mkWorld (users w)
                     ((if bool_decide (toString last = toString (msg_id message))
                       then update_first
                              (λ c, has_id (params_chatId req) (chat_id c))
                              (λ c, mkChat (chat_id c) (chat_participants c)
                                 (msg_id <$> latest_message (params_chatId req)
                                               (messages w2)))
                       else id) (chats w))
                     (messages w2) (files w) (rooms w) (sockets w) (outbox w)).
  { case_bool_decide.
    - eexists. split; [|reflexivity].
      rewrite (bind_ok _ _ _ _ _ (Message_findLatest_run _ _ _ Hcid)).
      by rewrite (bind_ok _ _ _ _ _ (Chat_findByIdAndUpdate_run _ _ _ _ Hcid)).
    - eexists. split; [reflexivity|]. by destruct w. }
  destruct Hstep as (w3 & Hstep & Hw3).
  rewrite !(bind_ok _ _ _ _ _ Hstep).
  destruct (notify_participants_spec sc req MESSAGE_DELETE_EVENT
              (PMessage message) (chat_participants chat) w3)
    as (notified & _ & _ & Hok & Hworld).
  unfold bind.
  destruct (notify_participants _ _ _ _ _ w3) as [w4 [e|[]]] eqn:Hnotify;
    cbn [fst snd ret] in *; rewrite Hworld, Hw3;
    cbn [with_outbox messages users files].
  - by split_and!.
  - split_and!; [done..|]. intros response [= <-]. exists last.
    split; [done|]. by rewrite (Hok eq_refl).
Qed.

Lemma elem_of_remove_first {A} (p : A → bool) (l : list A) x y :
  List.find p l = Some y → x ∈ l → x ≠ y → x ∈ remove_first p l.
Proof.
  induction l as [|z l IH]; [done|]. cbn [List.find remove_first].
  destruct (p z).
  - intros [= ->] Hx Hne. apply elem_of_cons in Hx as [->|Hx]; done.
  - intros Hfind Hx Hne. apply elem_of_cons in Hx as [->|Hx]; [left|right; eauto].
Qed.

Lemma remove_first_unique {A B} (f : A → B) (p : A → bool) (k : B) (l : list A) :
  NoDup (f <$> l) →
  (∀ x, p x = true ↔ f x = k) →
  is_Some (List.find p l) →
  ∀ x, x ∈ remove_first p l → f x ≠ k.
Proof.
  intros Hnodup Hp. induction l as [|z l IH]; [by intros [? ?]|].
  cbn [List.find remove_first fmap list_fmap] in *.
  apply NoDup_cons in Hnodup as [Hz Hnodup].
  destruct (p z) eqn:Hpz.
  - intros _ x Hx Hk. apply Hp in Hpz. apply Hz. rewrite Hpz, <- Hk.
    by apply list_elem_of_fmap_2.
  - intros Hfind x Hx. apply elem_of_cons in Hx as [->|Hx].
    + intros Hk. apply Hp in Hk. congruence.
    + by apply IH.
Qed.

(** X17. [deleteMessage] never removes a message whose sender is not the
    requester, whatever the request and however it ends. *)
Theorem deleteMessage_spares_other_senders
    (sc : ModuleScope) (req : Request) (w : World) (m : MessageDoc) :
  m ∈ messages w →
  toString (msg_sender m) ≠ toString (user_id (req_user req)) →
  m ∈ messages (fst (deleteMessage sc req w)).
Proof.
  intros Hm Hother.
  destruct (deleteMessage_unchecked sc req w)
    as [[error ->]|(chat & message & Hchat & Hmessage & Hsender)]; [done|].
  rewrite (deleteMessage_checked sc req w chat message Hchat Hmessage Hsender).
  destruct (remove_files_spec localPath (msg_attachments message) w)
    as (Hw & _). cbv zeta in Hw. unfold bind.
  destruct (forEach _ (msg_attachments message) w) as [w1 [e|[]]];
    cbn [fst snd] in *.
  - by rewrite Hw.
  - destruct (chat_of_participant_id _ _ _ _ Hchat) as (Hcid & _).
    destruct (message_with_id_id _ _ _ Hmessage) as (Hmid & _).
    destruct (delete_tail_spec sc req chat message w1 _ _ Hcid Hmid)
      as (-> & _).
    rewrite Hw. cbn [with_files messages].
    apply (elem_of_remove_first _ _ _ message); [done..|]. by intros ->.
Qed.

(** X18. When the requester may delete the message but one of its attachment
    files is missing (or two attachments share a file), [deleteMessage] throws
    [ENOENT]: the message is not deleted, the chat is not touched and nobody is
    notified. *)
Theorem deleteMessage_stops_at_a_missing_file
    (sc : ModuleScope) (req : Request) (w : World)
    (chat : ChatDoc) (message : MessageDoc) :
  chat_of_participant (params_chatId req) (user_id (req_user req)) (chats w)
  = Some chat →
  message_with_id (params_messageId req) (messages w) = Some message →
  toString (msg_sender message) = toString (user_id (req_user req)) →
  ¬ (NoDup (message_files message)
     ∧ ∀ p, p ∈ message_files message → p ∈ files w) →
  let w' := fst (deleteMessage sc req w) in
  snd (deleteMessage sc req w) = inl ENOENT
  ∧ messages w' = messages w
  ∧ chats w' = chats w
  ∧ outbox w' = outbox w
  ∧ files w' ⊆ files w.
Proof.
  intros Hchat Hmessage Hsender Hbad. cbv zeta.
  rewrite (deleteMessage_checked sc req w chat message Hchat Hmessage Hsender).
  destruct (remove_files_spec localPath (msg_attachments message) w)
    as (Hw & Hsub & Hres & Hiff & _). cbv zeta in *. unfold bind.
  destruct (forEach _ (msg_attachments message) w) as [w1 [e|[]]];
    cbn [fst snd] in *.
  - destruct Hres as [?|Hres]; [done|]. injection Hres as ->.
    rewrite Hw. cbn [with_files messages chats outbox files].
    split_and!; [done..|]. by rewrite Hw in Hsub.
  - destruct Hbad. by apply Hiff.
Qed.

(** An answer of [deleteMessage] means that the three checks passed, that
    every file was there, and that the world is [after_delete]. *)
Lemma deleteMessage_success sc req w response :
  snd (deleteMessage sc req w) = inr response →
  ∃ chat message last,
    chat_of_participant (params_chatId req) (user_id (req_user req)) (chats w)
    = Some chat
    ∧ message_with_id (params_messageId req) (messages w) = Some message
    ∧ toString (msg_sender message) = toString (user_id (req_user req))
    ∧ chat_lastMessage chat = Some last
    ∧ (∀ p, p ∈ message_files message → p ∈ files w)
    ∧ deleteMessage sc req w
      = (after_delete req chat message last w,
         inr (mkResponse 200 (PMessage message) "Message deleted successfully")).
Proof.
  intros Hanswer.
  destruct (deleteMessage_unchecked sc req w)
    as [[error Hrun]|(chat & message & Hchat & Hmessage & Hsender)].
  { by rewrite Hrun in Hanswer. }
  exists chat, message.
  rewrite (deleteMessage_checked sc req w chat message Hchat Hmessage Hsender)
    in Hanswer |- *.
  destruct (remove_files_spec localPath (msg_attachments message) w)
    as (Hw & _ & _ & Hiff & Hfiles).
  cbv zeta in Hw, Hiff, Hfiles. unfold bind in Hanswer |- *.
  destruct (forEach _ (msg_attachments message) w) as [w1 [e|[]]];
    cbn [fst snd] in *; [done|].
  destruct (chat_of_participant_id _ _ _ _ Hchat) as (Hcid & _).
  destruct (message_with_id_id _ _ _ Hmessage) as (Hmid & _).
  destruct (delete_tail_spec sc req chat message w1 _ _ Hcid Hmid)
    as (_ & _ & _ & Htail).
  destruct (Htail _ Hanswer) as (last & Hlast & Hrun). exists last.
  rewrite Hrun. split_and!; [done..|by apply Hiff|].
  unfold after_delete. rewrite Hw at 1. rewrite (Hfiles eq_refl). done.
Qed.

(** X19. When [deleteMessage] answers, the requester is in the chat and is
    the sender of the message; the answer is 200 with the message; the first
    message with that id is gone and the others are kept in order; exactly the
    files of its attachments are gone; and a MESSAGE_DELETE event with the
    message went to the identity room of every participant other than the
    requester. *)
Theorem deleteMessage_answer
    (sc : ModuleScope) (req : Request) (w : World) (response : Response) :
  snd (deleteMessage sc req w) = inr response →
  let w' := fst (deleteMessage sc req w) in
  ∃ chat message,
    chat_of_participant (params_chatId req) (user_id (req_user req)) (chats w)
    = Some chat
    ∧ message_with_id (params_messageId req) (messages w) = Some message
    ∧ toString (msg_sender message) = toString (user_id (req_user req))
    ∧ response = mkResponse 200 (PMessage message) "Message deleted successfully"
    ∧ messages w'
      = remove_first (λ m, has_id (params_messageId req) (msg_id m))
                     (messages w)
    ∧ (∀ p, p ∈ message_files message → p ∈ files w)
    ∧ files w' = files w ∖ list_to_set (message_files message)
    ∧ same_connections w w'
    ∧ appended (outbox w) (outbox w')
      = notifications (rooms w) MESSAGE_DELETE_EVENT (PMessage message)
          (others req (chat_participants chat)).
Proof.
  intros Hanswer. cbv zeta.
  destruct (deleteMessage_success sc req w response Hanswer)
    as (chat & message & last & Hchat & Hmessage & Hsender & _ & Hpresent & Hrun).
  exists chat, message. rewrite Hrun in Hanswer |- *. injection Hanswer as <-.
  cbn [fst after_delete after_delete_tail with_files messages files rooms
       sockets outbox].
  rewrite appended_app. by split_and!.
Qed.

Lemma chat_of_participant_first chatId userId cs chat :
  chat_with_id chatId cs = Some chat →
  userId ∈ chat_participants chat →
  chat_of_participant chatId userId cs = Some chat.
Proof.
  unfold chat_with_id, chat_of_participant.
  induction cs as [|c cs IH]; [done|]. cbn [List.find].
  destruct (has_id chatId (chat_id c)); cbn [andb].
  - intros [= ->] Hin. by rewrite bool_decide_true.
  - apply IH.
Qed.

(** X20. After an answered [deleteMessage] in a store with distinct message
    ids, the chat's [lastMessage] never names the deleted message: it is the
    newest remaining message of the chat (or null) when it named the deleted
    one, and is unchanged otherwise. *)
Theorem deleteMessage_repoints_the_chat
    (sc : ModuleScope) (req : Request) (w : World) (response : Response)
    (chat : ChatDoc) :
  snd (deleteMessage sc req w) = inr response →
  chat_with_id (params_chatId req) (chats w) = Some chat →
  user_id (req_user req) ∈ chat_participants chat →
  NoDup ((λ m, hex (msg_id m)) <$> messages w) →
  let w' := fst (deleteMessage sc req w) in
  ∃ last chat',
    chat_lastMessage chat = Some last
    ∧ chat_with_id (params_chatId req) (chats w') = Some chat'
    ∧ chat_participants chat' = chat_participants chat
    ∧ (has_id (params_messageId req) last = true →
       chat_lastMessage chat'
       = msg_id <$> latest_message (params_chatId req) (messages w'))
    ∧ (has_id (params_messageId req) last = false →
       chat_lastMessage chat' = Some last)
    ∧ (∀ id, chat_lastMessage chat' = Some id →
             has_id (params_messageId req) id = false).
Proof.
  intros Hanswer Hchat Hin Hnodup. cbv zeta.
  destruct (deleteMessage_success sc req w response Hanswer)
    as (chat0 & message & last & Hchat0 & Hmessage & _ & Hlast & _ & Hrun).
  rewrite (chat_of_participant_first _ _ _ _ Hchat Hin) in Hchat0.
  injection Hchat0 as <-.
  destruct (message_with_id_id _ _ _ Hmessage) as [Hmid _].
  assert (Hsame_id : ∀ o, has_id (params_messageId req) o
                          = bool_decide (toString o = toString (msg_id message))).
  { intros o. rewrite (has_id_valid _ _ _ Hmid). apply bool_decide_ext.
    unfold toString. destruct o, (msg_id message). cbn. naive_solver. }
  assert (Hremaining : ∀ m,
            m ∈ remove_first
                  (λ m, has_id (params_messageId req) (msg_id m))
                  (messages w) →
            has_id (params_messageId req) (msg_id m) = false).
  { intros m Hm. rewrite Hsame_id. apply bool_decide_false. revert m Hm.
    apply (remove_first_unique (λ m, hex (msg_id m)) _
             (hex (msg_id message))); [done| |by eauto].
    intros m. rewrite Hsame_id, bool_decide_eq_true. done. }
  rewrite Hrun.
  cbn [fst after_delete after_delete_tail with_files messages chats].
  exists last.
  case_bool_decide as Hsame.
  - rewrite chat_with_id_update_first, Hchat. cbn [fmap option_fmap option_map].
    eexists. split_and!; [done | reflexivity | done | done | |].
    + rewrite Hsame_id. intros Hno. by apply bool_decide_eq_false in Hno.
    + cbn [chat_lastMessage]. intros id Hid.
      destruct (latest_message _ _) as [newest|] eqn:Hnewest; [|done].
      injection Hid as <-. apply Hremaining.
      unfold latest_message in Hnewest. apply find_some in Hnewest as [Hnew _].
      apply list_elem_of_In. by apply in_rev.
  - exists chat. cbn [id]. split_and!; [done | done | done | | done |].
    + rewrite Hsame_id. intros Hyes. by apply bool_decide_eq_true in Hyes.
    + intros id. rewrite Hlast. intros [= <-]. rewrite Hsame_id.
      by apply bool_decide_false.
Qed.

(** ** getAllMessages *)

Lemma fmap_am_message us (l : list MessageDoc) :
  am_message <$> (messageCommonAggregation us <$> l) = l.
Proof. induction l as [|m l IH]; [done|]. cbn. by rewrite IH. Qed.

Lemma fmap_rev {A B} (f : A → B) (l : list A) : f <$> rev l = rev (f <$> l).
Proof.
  induction l as [|x l IH]; [done|]. cbn [rev fmap list_fmap].
  by rewrite fmap_app, IH.
Qed.

(** X21. [getAllMessages] changes nothing. It answers only when the chat
    exists and the requester is one of its participants, with exactly the
    messages of that chat, newest first, each with its sender's public view.
    A chat id that is not an id (24 hexadecimal digits) is rejected by the
    query with its cast error. The other refusals are the 404 and 400 errors
    where [ApiError] is bound, and the [ReferenceError] for [ApiError] under
    the imports of the file. *)
Theorem getAllMessages_reads_for_participants
    (bound : bool) (req : Request) (w : World) :
  fst (getAllMessages bound req w) = w
  ∧ (∀ response, snd (getAllMessages bound req w) = inr response →
       ∃ chat, chat_with_id (params_chatId req) (chats w) = Some chat
               ∧ user_id (req_user req) ∈ chat_participants chat
               ∧ mres_status response = 200
               ∧ mres_data response
                 = messageCommonAggregation (users w)
                     <$> rev (filter (λ m, msg_chat m = chat_id chat)
                                     (messages w)))
  ∧ (∀ error, snd (getAllMessages bound req w) = inl error →
       (ObjectId_of (params_chatId req) = None
        ∧ error = CastError (params_chatId req) "_id" "Chat")
       ∨ (is_Some (ObjectId_of (params_chatId req))
          ∧ if bound
            then error = apiError 404 "Chat does not exist"
                 ∨ error = apiError 400 "User is not a part of this chat"
            else error = ReferenceError "ApiError")).
Proof.
  unfold getAllMessages.
  destruct (ObjectId_of (params_chatId req)) as [o|] eqn:Hid.
  2: { rewrite !(bind_error _ _ _ _ _ (Chat_findById_invalid _ _ Hid)).
       split_and!; [done | done |]. intros error [= <-]. by left. }
  rewrite !(bind_ok _ _ _ _ _ (Chat_findById_run _ _ _ Hid)).
  destruct (chat_with_id _ _) as [chat|] eqn:Hchat.
  - case_bool_decide as Hin; cbn [negb].
    + rewrite !(bind_ok _ _ _ _ _ (new_ObjectId_run _ _ _ Hid)).
      destruct (chat_with_id_id _ _ _ Hchat) as [Hsame _].
      assert (o = chat_id chat) as -> by congruence.
      split_and!; [done| |done]. intros response [= <-]. exists chat.
      split_and!; [done..|]. cbn [mres_data]. by rewrite fmap_rev.
    + destruct bound; split_and!; try done; intros error [= <-]; right;
        (split; [by eauto|]); eauto.
  - destruct bound; split_and!; try done; intros error [= <-]; right;
      (split; [by eauto|]); eauto.
Qed.

(** ** The user controller *)

Lemma find_update_first_same {A} (p : A → bool) (f : A → A) (l : list A) :
  (∀ x, p (f x) = p x) →
  List.find p (update_first p f l) = f <$> List.find p l.
Proof.
  intros Hp. induction l as [|x l IH]; [done|]. cbn.
  destruct (p x) eqn:Hx; cbn.
  - by rewrite Hp, Hx.
  - by rewrite Hx.
Qed.

Lemma find_update_first_other {A} (p q : A → bool) (f : A → A) (l : list A) :
  (∀ x, q (f x) = q x) → (∀ x, p x = true → q x = false) →
  List.find q (update_first p f l) = List.find q l.
Proof.
  intros Hq Hpq. induction l as [|x l IH]; [done|]. cbn.
  destruct (p x) eqn:Hx; cbn.
  - by rewrite Hq, (Hpq x Hx).
  - by rewrite IH.
Qed.

Lemma findById_stored id value us :
  User_findById (update_first (λ u, bool_decide (hex (user_id u) = id))
                              (set_refreshToken value) us) (Some id)
  = set_refreshToken value <$> User_findById us (Some id).
Proof. cbn. by apply find_update_first_same. Qed.

Lemma findById_stored_other id id' value us :
  id' ≠ Some id →
  User_findById (update_first (λ u, bool_decide (hex (user_id u) = id))
                              (set_refreshToken value) us) id'
  = User_findById us id'.
Proof.
  intros Hne. destruct id' as [i|]; [|done]. cbn.
  apply find_update_first_other; [done|].
  intros x Hx. apply bool_decide_eq_true in Hx.
  apply bool_decide_eq_false. congruence.
Qed.

Lemma findById_id us id user :
  User_findById us id = Some user → id = Some (hex (user_id user)).
Proof.
  destruct id as [i|]; [|done]. cbn. intros Hfind.
  apply find_some in Hfind as [_ Hid].
  apply bool_decide_eq_true in Hid. by rewrite Hid.
Qed.

(** The two ways [generateAccessAndRefreshToken] ends. *)
Lemma generateAccessAndRefreshToken_run model userId w :
  (∃ user accessToken refreshToken,
      User_findById (users w) (Some userId) = Some user
      ∧ User_generateAccessToken model = inr accessToken
      ∧ generateRefreshToken model user = inr refreshToken
      ∧ generateAccessAndRefreshToken model userId w
        = (with_users (update_first (λ u, bool_decide (hex (user_id u) = userId))
                                    (set_refreshToken refreshToken)) w,
           inr (accessToken, refreshToken)))
  ∨ generateAccessAndRefreshToken model userId w
    = (w, inl (apiError 500 "Could not generate token.")).
Proof.
  unfold generateAccessAndRefreshToken, try_catch, bind, get.
  destruct (User_findById (users w) (Some userId)) as [user|] eqn:Hfind;
    [|by right].
  destruct (User_generateAccessToken model) as [?|accessToken] eqn:Haccess;
    [by right|].
  destruct (generateRefreshToken model user) as [?|refreshToken] eqn:Hrefresh;
    [by right|].
  left. by exists user, accessToken, refreshToken.
Qed.

(** X22. [generateAccessAndRefreshToken] fails in one way only, with the
    status 500 and the message "Could not generate token.", also when no
    user has the id, and then nothing is changed. When it returns, the user
    with the id holds the returned refresh token and is otherwise as
    before, every other lookup by id and the rest of the world are as
    before, and the access token is the one the model gives for no user
    in particular. *)
Theorem generateAccessAndRefreshToken_outcomes model userId w :
  let w' := fst (generateAccessAndRefreshToken model userId w) in
  match snd (generateAccessAndRefreshToken model userId w) with
  | inl error =>
      error = apiError 500 "Could not generate token." ∧ w' = w
  | inr (accessToken, refreshToken) =>
      User_generateAccessToken model = inr accessToken
      ∧ (∃ user,
            User_findById (users w) (Some userId) = Some user
            ∧ generateRefreshToken model user = inr refreshToken
            ∧ User_findById (users w') (Some userId)
              = Some (set_refreshToken refreshToken user))
      ∧ (∀ id, id ≠ Some userId →
               User_findById (users w') id = User_findById (users w) id)
      ∧ length (users w') = length (users w)
      ∧ chats w' = chats w ∧ messages w' = messages w ∧ files w' = files w
      ∧ same_connections w w' ∧ outbox w' = outbox w
  end.
Proof.
  destruct (generateAccessAndRefreshToken_run model userId w)
    as [(user & accessToken & refreshToken & Hfind & Haccess & Hrefresh & Hrun)
       |Hrun]; rewrite Hrun; cbn [fst snd]; [|done].
  split; [done|]. split.
  { exists user. split; [done|]. split; [done|].
    cbn [users with_users]. by rewrite findById_stored, Hfind. }
  split.
  { intros id Hid. cbn [users with_users]. by apply findById_stored_other. }
  split; [|done].
  cbn [users with_users]. generalize (users w). intros us.
  induction us as [|u us IH]; [done|]. cbn. case_bool_decide; cbn; congruence.
Qed.

Lemma find_email_none (us : list UserDoc) (e : option string) :
  List.find (λ u, bool_decide (Some (email u) = e)) us = None →
  ∀ u, u ∈ us → Some (email u) ≠ e.
Proof.
  intros Hfind u Hu Heq. apply list_elem_of_In in Hu.
  pose proof (find_none _ _ Hfind u Hu) as Hno. cbn in Hno.
  by apply bool_decide_eq_false in Hno.
Qed.

Lemma find_email_some (us : list UserDoc) (e : option string) user :
  List.find (λ u, bool_decide (Some (email u) = e)) us = Some user →
  user ∈ us ∧ Some (email user) = e.
Proof.
  intros Hfind. apply find_some in Hfind as [Hin Heq].
  split; [by apply list_elem_of_In|]. by apply bool_decide_eq_true in Heq.
Qed.

(** The ways [loginUser] ends: what holds of each of them holds of the
    call. *)
Lemma loginUser_run model req w (P : World * (JsError + UserResponse) → Prop) :
  ((truthy (body_email req) = false ∨ truthy (body_password req) = false) →
   P (w, inl (apiError 400 "Email and password are required."))) →
  ((∀ u, u ∈ users w → Some (email u) ≠ body_email req) →
   P (w, inl (apiError 404 "User not found."))) →
  (∀ user given,
     user ∈ users w → Some (email user) = body_email req →
     body_password req = Some given →
     isPasswordCorrect model user given = false →
     P (w, inl (apiError 401 "Invalid credentials."))) →
  (∀ user given,
     user ∈ users w → Some (email user) = body_email req →
     body_password req = Some given →
     isPasswordCorrect model user given = true →
     P (w, inl (apiError 500 "Could not generate token."))) →
  (∀ user given first accessToken refreshToken,
     user ∈ users w → Some (email user) = body_email req →
     body_password req = Some given →
     isPasswordCorrect model user given = true →
     User_findById (users w) (Some (hex (user_id user))) = Some first →
     P (with_users
          (update_first
             (λ u, bool_decide (hex (user_id u) = hex (user_id user)))
             (set_refreshToken refreshToken)) w,
        inr (mkUserResponse 200
               [("accessToken", accessToken); ("refreshToken", refreshToken)]
               []
               (Some (select "-password -refreshToken"
                        (set_refreshToken refreshToken first)))
               (Some accessToken) (Some refreshToken)
               "User logged in successfully."))) →
  P (loginUser model req w).
Proof.
  intros H400 H404 H401 H500 H200. unfold loginUser.
  destruct (truthy (body_email req)) eqn:Hemail; cbn [negb orb];
    [|apply H400; by left].
  destruct (truthy (body_password req)) eqn:Hpassword; cbn [negb];
    [|apply H400; by right].
  destruct (body_password req) as [given|] eqn:Hgiven;
    [|by cbn in Hpassword].
  unfold bind at 1, get at 1. cbn [default from_option id].
  destruct (List.find _ (users w)) as [user|] eqn:Hfind.
  2:{ apply H404. by apply find_email_none. }
  apply find_email_some in Hfind as [Hin Hmail].
  destruct (isPasswordCorrect model user given) eqn:Hcorrect; cbn [negb].
  2:{ by apply (H401 user given). }
  destruct (generateAccessAndRefreshToken_run model (hex (user_id user)) w)
    as [(first & accessToken & refreshToken & Hfirst & _ & _ & Hrun)|Hrun].
  2:{ rewrite (bind_error _ _ _ _ _ Hrun). by apply (H500 user given). }
  rewrite (bind_ok _ _ _ _ _ Hrun).
  unfold bind, get, ret. cbn [fst snd users with_users].
  rewrite findById_stored, Hfirst.
  by apply (H200 user given first accessToken refreshToken).
Qed.

(** X23. When [loginUser] fails it has changed nothing, and the error is
    one of four: 400 when the email or the password is missing or empty,
    404 when no user has the email, 401 when the first user with the email
    does not have the password, and 500, with correct credentials, when the
    tokens could not be generated. *)
Theorem loginUser_refuses_without_a_trace model req w error :
  snd (loginUser model req w) = inl error →
  fst (loginUser model req w) = w
  ∧ ((error = apiError 400 "Email and password are required."
      ∧ (truthy (body_email req) = false ∨ truthy (body_password req) = false))
     ∨ (error = apiError 404 "User not found."
        ∧ ∀ u, u ∈ users w → Some (email u) ≠ body_email req)
     ∨ (∃ user given,
           user ∈ users w ∧ Some (email user) = body_email req
           ∧ body_password req = Some given
           ∧ ((error = apiError 401 "Invalid credentials."
               ∧ isPasswordCorrect model user given = false)
              ∨ (error = apiError 500 "Could not generate token."
                 ∧ isPasswordCorrect model user given = true)))).
Proof.
  revert error. pattern (loginUser model req w). apply loginUser_run;
    cbn [fst snd].
  - intros Hmissing error [= <-]. split; [done|]. by left.
  - intros Hnone error [= <-]. split; [done|]. right; left. by split.
  - intros user given Hin Hmail Hgiven Hwrong error [= <-]. split; [done|].
    right; right. exists user, given. repeat (split; [done|]). left. by split.
  - intros user given Hin Hmail Hgiven Hright error [= <-]. split; [done|].
    right; right. exists user, given. repeat (split; [done|]). right. by split.
  - done.
Qed.

(** X24. When [loginUser] answers, the first user with the given email has
    the given password; the answer has the status 200, sets the two cookies
    to the two tokens of its body, and shows that user without the password
    and without the refresh token; and the stored user now holds the
    refresh token of the answer. *)
Theorem loginUser_answer model req w res :
  snd (loginUser model req w) = inr res →
  let w' := fst (loginUser model req w) in
  ∃ user given access refresh shown stored,
    user ∈ users w ∧ Some (email user) = body_email req
    ∧ body_password req = Some given
    ∧ isPasswordCorrect model user given = true
    ∧ ur_status res = 200
    ∧ ur_accessToken res = Some access
    ∧ ur_refreshToken res = Some refresh
    ∧ ur_cookies res
      = [("accessToken", access); ("refreshToken", refresh)]
    ∧ ur_cleared res = []
    ∧ ur_user res = Some shown
    ∧ user_id shown = user_id user
    ∧ password shown = None ∧ refreshToken shown = None
    ∧ User_findById (users w') (Some (hex (user_id user))) = Some stored
    ∧ refreshToken stored = Some refresh.
Proof.
  revert res. pattern (loginUser model req w). apply loginUser_run;
    cbn [fst snd]; try done.
  intros user given first accessToken refreshToken Hin Hmail Hgiven Hright
    Hfirst res [= <-].
  cbn [ur_status ur_accessToken ur_refreshToken ur_cookies ur_cleared ur_user
       users with_users].
  destruct (select_excludes (set_refreshToken refreshToken first))
    as (Hp & Hr & Hi).
  exists user, given, accessToken, refreshToken,
    (select "-password -refreshToken" (set_refreshToken refreshToken first)),
    (set_refreshToken refreshToken first).
  split_and!; try done.
  - rewrite Hi. cbn. apply findById_id in Hfirst.
    destruct (user_id first), (user_id user). cbn in Hfirst. congruence.
  - by rewrite findById_stored, Hfirst.
Qed.

(** The ways [refreshAccessToken] ends: what holds of each of them holds
    of the call. *)
Lemma refreshAccessToken_run deps model req w
    (P : World * (JsError + UserResponse) → Prop) :
  (truthy (received_token req) = false →
   P (w, inl (apiError 401 "No refresh token provided."))) →
  (∀ token,
     received_token req = Some token → token ≠ "" →
     (∀ user,
        jwt_verify deps token (REFRESH_TOKEN_SECRET model)
          = inr (Some (hex (user_id user))) →
        User_findById (users w) (Some (hex (user_id user))) = Some user →
        refreshToken user = Some token →
        snd (generateAccessAndRefreshToken model (hex (user_id user)) w)
          = inl (apiError 500 "Could not generate token.")) →
     P (w, inl refresh_refused)) →
  (∀ token user access refresh,
     received_token req = Some token → token ≠ "" →
     jwt_verify deps token (REFRESH_TOKEN_SECRET model)
       = inr (Some (hex (user_id user))) →
     User_findById (users w) (Some (hex (user_id user))) = Some user →
     refreshToken user = Some token →
     User_generateAccessToken model = inr access →
     generateRefreshToken model user = inr refresh →
     P (with_users
          (update_first
             (λ u, bool_decide (hex (user_id u) = hex (user_id user)))
             (set_refreshToken refresh)) w,
        inr (mkUserResponse 200
               [("accessToken", access); ("refreshToken", refresh)]
               [] None (Some access) (Some refresh)
               "Access token refreshed successfully."))) →
  P (refreshAccessToken deps model req w).
Proof.
  intros Hnone Hrefused Hok. unfold refreshAccessToken.
  fold (received_token req).
  destruct (truthy (received_token req)) eqn:Htruthy; cbn [negb];
    [|by apply Hnone].
  destruct (received_token req) as [token|] eqn:Hreceived; [|done].
  assert (token ≠ "") as Hne by (by apply bool_decide_eq_true in Htruthy).
  cbn [default from_option id]. unfold try_catch.
  destruct (jwt_verify deps token (REFRESH_TOKEN_SECRET model))
    as [error|decoded] eqn:Hverify.
  { apply (Hrefused token eq_refl Hne). intros user Hdecoded. congruence. }
  unfold bind at 1, get at 1.
  destruct (User_findById (users w) decoded) as [user|] eqn:Hfind.
  2:{ apply (Hrefused token eq_refl Hne). intros user Hdecoded. congruence. }
  pose proof (findById_id _ _ _ Hfind) as ->.
  case_bool_decide as Hsame; cbn [negb].
  2:{ apply (Hrefused token eq_refl Hne). intros user' Hdecoded Hfind'.
      assert (hex (user_id user') = hex (user_id user)) as Hid by congruence.
      rewrite Hid in Hfind'. congruence. }
  destruct (generateAccessAndRefreshToken_run model (hex (user_id user)) w)
    as [(first & access & refresh & Hfirst & Haccess & Hrefresh & Hrun)|Hrun].
  - rewrite (bind_ok _ _ _ _ _ Hrun). unfold ret. cbn [fst snd].
    assert (first = user) as -> by congruence.
    by apply (Hok token user access refresh).
  - rewrite (bind_error _ _ _ _ _ Hrun).
    apply (Hrefused token eq_refl Hne). intros user' Hdecoded Hfind' _.
    assert (hex (user_id user') = hex (user_id user)) as Hid by congruence.
    rewrite Hid in Hfind'. assert (user' = user) as -> by congruence.
    by rewrite Hrun.
Qed.

(** X25. When [refreshAccessToken] fails it has changed nothing, and the
    error has the status 401 and one of two messages: "No refresh token
    provided." when neither the cookie nor the body gives a token, and
    "Couldn't refresh access token. Invalid refresh token." in every other
    case, whether the token is rejected, names no user, is not the stored
    one, or the new tokens could not be generated. *)
Theorem refreshAccessToken_refuses_with_one_answer deps model req w error :
  snd (refreshAccessToken deps model req w) = inl error →
  fst (refreshAccessToken deps model req w) = w
  ∧ error
    = apiError 401
        (if truthy (js_or (cookies_refreshToken req) (body_refreshToken req))
         then "Couldn't refresh access token. Invalid refresh token."
         else "No refresh token provided.").
Proof.
  fold (received_token req). revert error.
  pattern (refreshAccessToken deps model req w).
  apply refreshAccessToken_run; cbn [fst snd].
  - by intros -> error [= <-].
  - intros token -> Hne _ error [= <-]. split; [done|].
    cbn. by rewrite bool_decide_true.
  - done.
Qed.

(** X26. When [refreshAccessToken] answers, the token received is not
    empty, is accepted under the refresh secret, names a stored user, and
    is the refresh token that user holds; the answer has the status 200 and
    sets the two cookies to the two tokens of its body; and the user now
    holds the new refresh token in place of the received one. *)
Theorem refreshAccessToken_answer deps model req w res :
  snd (refreshAccessToken deps model req w) = inr res →
  let w' := fst (refreshAccessToken deps model req w) in
  ∃ token user access refresh,
    js_or (cookies_refreshToken req) (body_refreshToken req) = Some token
    ∧ token ≠ ""
    ∧ jwt_verify deps token (REFRESH_TOKEN_SECRET model)
      = inr (Some (hex (user_id user)))
    ∧ User_findById (users w) (Some (hex (user_id user))) = Some user
    ∧ refreshToken user = Some token
    ∧ generateRefreshToken model user = inr refresh
    ∧ ur_status res = 200
    ∧ ur_accessToken res = Some access
    ∧ ur_refreshToken res = Some refresh
    ∧ ur_cookies res = [("accessToken", access); ("refreshToken", refresh)]
    ∧ ur_cleared res = []
    ∧ User_findById (users w') (Some (hex (user_id user)))
      = Some (set_refreshToken refresh user).
Proof.
  fold (received_token req). revert res.
  pattern (refreshAccessToken deps model req w).
  apply refreshAccessToken_run; cbn [fst snd]; try done.
  intros token user access refresh Hreceived Hne Hverify Hfind Hsame Haccess
    Hrefresh res [= <-].
  exists token, user, access, refresh. split_and!; try done.
  cbn [users with_users]. by rewrite findById_stored, Hfind.
Qed.

(** A request whose token is not the one its user holds is refused. *)
Lemma refreshAccessToken_mismatch deps model req w token user stored :
  received_token req = Some token → token ≠ "" →
  jwt_verify deps token (REFRESH_TOKEN_SECRET model)
    = inr (Some (hex (user_id user))) →
  User_findById (users w) (Some (hex (user_id user))) = Some stored →
  refreshToken stored ≠ Some token →
  refreshAccessToken deps model req w = (w, inl refresh_refused).
Proof.
  intros Hreceived Hne Hverify Hfind Hdiffer.
  pattern (refreshAccessToken deps model req w).
  apply refreshAccessToken_run.
  - rewrite Hreceived. cbn [truthy]. intros Hempty.
    by apply bool_decide_eq_false in Hempty.
  - done.
  - intros token' user' access refresh Hreceived' _ Hverify' Hfind' Hsame.
    assert (token' = token) as -> by congruence.
    assert (hex (user_id user') = hex (user_id user)) as Hid by congruence.
    rewrite Hid in Hfind'. congruence.
Qed.

(** X27. A refresh token is good for one refresh: when [refreshAccessToken]
    has answered with a refresh token other than the one it received, the
    same request made again is refused with the status 401 and changes
    nothing. *)
Theorem refreshAccessToken_used_token_is_refused deps model req w res :
  snd (refreshAccessToken deps model req w) = inr res →
  ur_refreshToken res
    ≠ js_or (cookies_refreshToken req) (body_refreshToken req) →
  let w' := fst (refreshAccessToken deps model req w) in
  refreshAccessToken deps model req w'
  = (w', inl (apiError 401
                "Couldn't refresh access token. Invalid refresh token.")).
Proof.
  fold (received_token req). revert res.
  pattern (refreshAccessToken deps model req w) at 1 2.
  apply refreshAccessToken_run; cbn [fst snd]; try done.
  intros token user access refresh Hreceived Hne Hverify Hfind Hsame Haccess
    Hrefresh res [= <-]. cbn [ur_refreshToken]. intros Hnew.
  apply (refreshAccessToken_mismatch deps model req _ token user
           (set_refreshToken refresh user)); try done.
  - cbn [users with_users]. by rewrite findById_stored, Hfind.
  - cbn. congruence.
Qed.

(** X28. After [logoutuser], which answers 200 and clears both cookies, a
    refresh request whose token names the user that logged out is refused
    with the status 401 and changes nothing, whatever refresh token that
    user held before; the users with another id are found as before. *)
Theorem logoutuser_revokes_the_refresh_token deps model user req w :
  jwt_verify deps
    (default "" (js_or (cookies_refreshToken req) (body_refreshToken req)))
    (REFRESH_TOKEN_SECRET model)
  = inr (Some (hex (user_id user))) →
  let w' := fst (logoutuser user w) in
  (∃ res, snd (logoutuser user w) = inr res ∧ ur_status res = 200
          ∧ ur_cleared res = ["accessToken"; "refreshToken"]
          ∧ ur_cookies res = [])
  ∧ (∃ message,
        refreshAccessToken deps model req w'
        = (w', inl (apiError 401 message)))
  ∧ (∀ id, id ≠ Some (hex (user_id user)) →
           User_findById (users w') id = User_findById (users w) id).
Proof.
  fold (received_token req). intros Hverify. cbn zeta.
  split; [by eexists|]. split.
  2:{ intros id Hid. cbn. by apply findById_stored_other. }
  destruct (truthy (received_token req)) eqn:Htruthy.
  2:{ eexists. unfold refreshAccessToken. fold (received_token req).
      by rewrite Htruthy. }
  destruct (received_token req) as [token|] eqn:Hreceived; [|done].
  assert (token ≠ "") as Hne by (by apply bool_decide_eq_true in Htruthy).
  cbn [default from_option id] in Hverify.
  set (w' := fst (logoutuser user w)).
  destruct (User_findById (users w') (Some (hex (user_id user))))
    as [stored|] eqn:Hfind.
  - eexists. apply (refreshAccessToken_mismatch deps model req w' token user
                      stored); try done.
    subst w'. cbn [logoutuser fst] in Hfind.
    unfold logoutuser, store_refreshToken, bind, modify, ret in Hfind.
    cbn [fst snd users with_users] in Hfind.
    rewrite findById_stored in Hfind.
    destruct (User_findById (users w) _); [|done].
    injection Hfind as <-. cbn. congruence.
  - exists "Couldn't refresh access token. Invalid refresh token.".
    pattern (refreshAccessToken deps model req w').
    apply refreshAccessToken_run.
    + rewrite Hreceived. cbn [truthy]. intros Hempty.
      by apply bool_decide_eq_false in Hempty.
    + done.
    + intros token' user' access refresh Hreceived' _ Hverify' Hfind'.
      assert (token' = token) as -> by congruence.
      assert (hex (user_id user') = hex (user_id user)) as Hid by congruence.
      rewrite Hid in Hfind'. congruence.
Qed.

(** ** Witnesses *)

Lemma run_members_are_live_connections_witness :
  (∃ s, sockets Scenario.after_mixed !! "B" = Some s
        ∧ sock_connected s = true
        ∧ "B" ∈ Registry.membersOf (rooms Scenario.after_mixed) (RStr "B")
        ∧ (RStr "chat42" = RStr "B" ∨ ∃ user, s = authenticated_socket user))
  ∧ "C" ∈ Registry.membersOf (rooms Scenario.after_mixed) (RStr "C")
  ∧ ("C" ∉ Registry.membersOf (rooms Scenario.after_mixed) (RStr "chat42")).
Proof.
  split_and!; [|by_evaluation|by_evaluation].
  apply (run_members_are_live_connections Example.deps _ _ _ _ Scenario.mixed
           _ mixed_runs (RStr "chat42") "B").
  by_evaluation.
Defined.

Lemma run_sockets_hold_no_secret_witness :
  password (select "-password -refreshToken" Example.u1) = None
  ∧ refreshToken (select "-password -refreshToken" Example.u1) = None.
Proof.
  apply (run_sockets_hold_no_secret Example.deps _ _ _ _ Scenario.two_join
           _ two_join_runs "A"
           (authenticated_socket (select "-password -refreshToken" Example.u1))).
  - by_evaluation.
  - reflexivity.
Defined.

Lemma run_rooms_are_inhabited_witness :
  rooms Scenario.after_mixed !! RNum "42" = None
  ∧ (∃ sid, sid ∈ ({["B"]} : gset SocketId)) ∧ ∀ o, RStr "chat42" ≠ ROid o.
Proof.
  split; [by_evaluation|].
  apply (run_rooms_are_inhabited Example.deps _ _ _ _ Scenario.mixed
           _ mixed_runs (RStr "chat42")).
  by_evaluation.
Defined.

Lemma run_keeps_identity_membership_while_connected_witness :
  "B" ∈ Registry.membersOf (rooms Scenario.after_mixed) (RStr "u2")
  ∧ mkDelivery "B" NEW_CHAT_EVENT PUndefined
    ∈ appended (outbox Scenario.after_mixed)
        (outbox (fst (emitSocketEvent (RStr "u2") NEW_CHAT_EVENT PUndefined
                        Scenario.after_mixed)))
  ∧ (∀ room,
       "B" ∉ Registry.membersOf
               (rooms (disconnect "B" "ping timeout" Scenario.after_mixed)) room).
Proof.
  destruct (run_keeps_identity_membership_while_connected Example.deps _ _ _ _
              Scenario.mixed _ mixed_runs "B"
              (authenticated_socket (select "-password -refreshToken" Example.u2))
              (select "-password -refreshToken" Example.u2)
              NEW_CHAT_EVENT PUndefined "ping timeout")
    as (Hin & Hsent & Hout & _).
  - by_evaluation.
  - reflexivity.
  - reflexivity.
  - split_and!; [exact Hin | exact Hsent | exact Hout].
Defined.

Lemma run_disconnect_changes_nothing_witness :
  dispatch "B" DISCONNECT_EVENT (RStr "ping timeout") Scenario.after_mixed
  = Scenario.after_mixed
  ∧ disconnect "B" "ping timeout" Scenario.after_mixed
    = close "B" (with_rooms (Registry.leave_all "B") Scenario.after_mixed).
Proof.
  destruct (run_disconnect_changes_nothing Example.deps _ _ _ _ Scenario.mixed
              _ mixed_runs "B" (RStr "ping timeout") "ping timeout")
    as [Hlistener Hclose].
  split; [exact Hlistener|].
  apply (Hclose (authenticated_socket
                   (select "-password -refreshToken" Example.u2)));
    [by_evaluation | reflexivity].
Defined.




Lemma removeLocalFile_removes_once_witness :
  removeLocalFile "public/images/a.png"
    (fst (removeLocalFile "public/images/a.png" Example.store))
  = (fst (removeLocalFile "public/images/a.png" Example.store), inl ENOENT).
Proof.
  apply (removeLocalFile_removes_once "public/images/a.png" Example.store).
  by_evaluation.
Defined.

Lemma sendMessage_rejects_without_storing_witness :
  sendMessage message_controller_scope
    (mkRequest Example.chat42_id "" (Some "") None Example.u1 "host")
    (mkObjectId Example.m2_id) Example.store
  = (Example.store,
     inl (apiError 400 "Message content or attachment is required"))
  ∧ sendMessage message_controller_scope
      (mkRequest Example.chat7_id "" (Some "hi") None Example.u1 "host")
      (mkObjectId Example.m2_id) Example.store
    = (Example.store, inl (apiError 404 "Chat does not exist"))
  ∧ sendMessage message_controller_scope
      (mkRequest "chat42" "" (Some "hi") None Example.u1 "host")
      (mkObjectId Example.m2_id) Example.store
    = (Example.store, inl (CastError "chat42" "_id" "Chat")).
Proof.
  assert (Hempty : ¬ has_content
                     (mkRequest Example.chat42_id "" (Some "") None
                                Example.u1 "host")).
  { unfold has_content. by_evaluation. }
  assert (Hfull : ∀ chatId,
             has_content (mkRequest chatId "" (Some "hi") None
                                    Example.u1 "host")).
  { by left. }
  split_and!.
  - destruct (sendMessage_rejects_without_storing message_controller_scope
                (mkRequest Example.chat42_id "" (Some "") None Example.u1 "host")
                (mkObjectId Example.m2_id) Example.store (or_introl Hempty))
      as (error & Hrun & Herror & _).
    rewrite Hrun. by rewrite (Herror Hempty).
  - destruct (sendMessage_rejects_without_storing message_controller_scope
                (mkRequest Example.chat7_id "" (Some "hi") None Example.u1 "host")
                (mkObjectId Example.m2_id) Example.store (or_intror eq_refl))
      as (error & Hrun & _ & Herror & _).
    rewrite Hrun. rewrite (Herror (Hfull _)); [done|]. by eexists.
  - destruct (sendMessage_rejects_without_storing message_controller_scope
                (mkRequest "chat42" "" (Some "hi") None Example.u1 "host")
                (mkObjectId Example.m2_id) Example.store (or_intror eq_refl))
      as (error & Hrun & _ & _ & Herror).
    rewrite Hrun. by rewrite (Herror (Hfull _) eq_refl).
Defined.

Lemma sendMessage_attachment_fails_as_written_witness :
  sendMessage message_controller_scope Scenario.send_picture (mkObjectId Example.m2_id)
    Example.store
  = (Example.store, inl (ReferenceError "getStaticFilePath")).
Proof.
  assert (Hfiles : default [] (files_attachments Scenario.send_picture) ≠ [])
    by discriminate.
  destruct (sendMessage_attachment_fails_as_written Scenario.send_picture
              (mkObjectId Example.m2_id) Example.store Hfiles) as (error & Hrun & Herror).
  rewrite Hrun, Herror; [reflexivity|]. by eexists.
Defined.

Lemma sendMessage_stores_before_notifying_witness :
  messages (fst (sendMessage message_controller_scope Example.send_hi
                   (mkObjectId Example.m2_id) Example.outsider_in_chat42))
  = [Example.m1;
     mkMessage (mkObjectId Example.m2_id) (mkObjectId "u1") "hi" (mkObjectId Example.chat42_id) []]
  ∧ chat_with_id Example.chat42_id
      (chats (fst (sendMessage message_controller_scope Example.send_hi
                     (mkObjectId Example.m2_id) Example.outsider_in_chat42)))
    = Some (mkChat (mkObjectId Example.chat42_id) [mkObjectId "u1"; mkObjectId "u2"]
                   (Some (mkObjectId Example.m2_id))).
Proof.
  destruct (sendMessage_stores_before_notifying message_controller_scope
              Example.send_hi (mkObjectId Example.m2_id) Example.outsider_in_chat42
              Example.chat42) as (Hmessages & Hchat & _).
  - by left.
  - by left.
  - reflexivity.
  - split; [exact Hmessages | exact Hchat].
Defined.

Lemma sendMessage_answers_with_the_stored_message_witness :
  snd (sendMessage complete_scope Example.send_hi (mkObjectId Example.m2_id)
         Example.store)
  = inr (mkResponse 201
           (PAggregated
              (mkAggregated
                 (mkMessage (mkObjectId Example.m2_id) (mkObjectId "u1") "hi"
                            (mkObjectId Example.chat42_id) [])
                 (Some (mkSenderView (mkObjectId "u1") "ann" "ann.png"
                                     "ann@example.org"))))
           "Message saved successfully").
Proof.
  destruct (snd (sendMessage complete_scope Example.send_hi (mkObjectId Example.m2_id)
                   Example.store)) as [error|response] eqn:Hanswer.
  - revert Hanswer. by_evaluation.
  - f_equal.
    apply (sendMessage_answers_with_the_stored_message complete_scope
             Example.send_hi (mkObjectId Example.m2_id) Example.store response Hanswer).
    apply Forall_forall. by_evaluation.
Defined.

Lemma deleteMessage_spares_other_senders_witness :
  Example.m1 ∈ messages (fst (deleteMessage complete_scope
                                Example.delete_by_other_member
                                Scenario.store3)).
Proof.
  apply deleteMessage_spares_other_senders.
  - by_evaluation.
  - discriminate.
Defined.

Lemma deleteMessage_stops_at_a_missing_file_witness :
  snd (deleteMessage complete_scope Scenario.delete_own
         Scenario.store_without_file) = inl ENOENT
  ∧ messages (fst (deleteMessage complete_scope Scenario.delete_own
                     Scenario.store_without_file))
    = [Example.m1; Scenario.m2; Scenario.m3].
Proof.
  destruct (deleteMessage_stops_at_a_missing_file complete_scope
              Scenario.delete_own Scenario.store_without_file
              Example.chat42 Example.m1) as (Hresult & Hmessages & _).
  - reflexivity.
  - reflexivity.
  - reflexivity.
  - intros [_ Hpresent].
    assert (Hin : "public/images/a.png" ∈ files Scenario.store_without_file).
    { apply Hpresent. by_evaluation. }
    revert Hin. by_evaluation.
  - split; [exact Hresult | exact Hmessages].
Defined.

Lemma deleteMessage_own_answer :
  snd (deleteMessage complete_scope Scenario.delete_own Scenario.store3)
  = inr (mkResponse 200 (PMessage Example.m1) "Message deleted successfully").
Proof. by_evaluation. Qed.

Lemma deleteMessage_answer_witness :
  messages (fst (deleteMessage complete_scope Scenario.delete_own
                   Scenario.store3))
  = [Scenario.m2; Scenario.m3]
  ∧ files (fst (deleteMessage complete_scope Scenario.delete_own
                  Scenario.store3))
    = {["public/images/b.png"]}.
Proof.
  destruct (deleteMessage_answer complete_scope Scenario.delete_own
              Scenario.store3 _ deleteMessage_own_answer)
    as (chat & message & _ & Hmessage & _ & _ & Hmessages & _ & Hfiles & _).
  injection Hmessage as <-.
  split; [exact Hmessages|]. rewrite Hfiles. by_evaluation.
Defined.

Lemma deleteMessage_repoints_the_chat_witness :
  ∃ chat',
    chat_with_id Example.chat42_id
      (chats (fst (deleteMessage complete_scope Scenario.delete_own
                     Scenario.store3))) = Some chat'
    ∧ chat_lastMessage chat' = Some (mkObjectId Example.m2_id).
Proof.
  destruct (deleteMessage_repoints_the_chat complete_scope Scenario.delete_own
              Scenario.store3 _ Example.chat42 deleteMessage_own_answer)
    as (last & chat' & Hlast & Hchat' & _ & Hrepoint & _).
  - reflexivity.
  - by_evaluation.
  - by_evaluation.
  - exists chat'. split; [exact Hchat'|]. injection Hlast as <-.
    rewrite Hrepoint by reflexivity. by_evaluation.
Defined.

Lemma getAllMessages_reads_for_participants_witness :
  (∃ response,
     snd (getAllMessages false Scenario.read_by_member Scenario.store3)
     = inr response
     ∧ (am_message <$> mres_data response) = [Scenario.m2; Example.m1])
  ∧ snd (getAllMessages false Scenario.read_by_outsider Scenario.store3)
    = inl (ReferenceError "ApiError")
  ∧ snd (getAllMessages false
           (mkRequest "chat42" "" None None Example.u2 "host") Scenario.store3)
    = inl (CastError "chat42" "_id" "Chat").
Proof.
  split_and!.
  - destruct (getAllMessages_reads_for_participants false
                Scenario.read_by_member Scenario.store3) as (_ & Hanswer & _).
    destruct (snd (getAllMessages false Scenario.read_by_member Scenario.store3))
      as [error|response] eqn:Hresult.
    + vm_compute in Hresult. discriminate Hresult.
    + exists response. split; [reflexivity|].
      destruct (Hanswer response eq_refl) as (chat & Hchat & _ & _ & ->).
      vm_compute in Hchat. injection Hchat as <-.
      vm_compute. reflexivity.
  - destruct (getAllMessages_reads_for_participants false
                Scenario.read_by_outsider Scenario.store3) as (_ & _ & Herror).
    destruct (snd (getAllMessages false Scenario.read_by_outsider
                     Scenario.store3)) as [error|response] eqn:Hresult.
    + f_equal. destruct (Herror error eq_refl) as [[Hid _]|[_ ->]]; [|done].
      vm_compute in Hid. discriminate Hid.
    + vm_compute in Hresult. discriminate Hresult.
  - destruct (getAllMessages_reads_for_participants false
                (mkRequest "chat42" "" None None Example.u2 "host")
                Scenario.store3) as (_ & _ & Herror).
    destruct (snd (getAllMessages false
                     (mkRequest "chat42" "" None None Example.u2 "host")
                     Scenario.store3)) as [error|response] eqn:Hresult.
    + f_equal. destruct (Herror error eq_refl) as [[_ ->]|[[o Hid] _]]; [done|].
      vm_compute in Hid. discriminate Hid.
    + vm_compute in Hresult. discriminate Hresult.
Defined.

Lemma loginUser_refuses_without_a_trace_witness :
  snd (loginUser Accounts.model (Accounts.login "ann@example.org" "2")
         Accounts.store)
  = inl (apiError 401 "Invalid credentials.")
  ∧ fst (loginUser Accounts.model (Accounts.login "ann@example.org" "2")
           Accounts.store)
    = Accounts.store.
Proof.
  assert (Hrefused :
            snd (loginUser Accounts.model (Accounts.login "ann@example.org" "2")
                   Accounts.store)
            = inl (apiError 401 "Invalid credentials."))
    by (vm_compute; reflexivity).
  split; [exact Hrefused|].
  exact (proj1 (loginUser_refuses_without_a_trace Accounts.model
                  (Accounts.login "ann@example.org" "2") Accounts.store
                  _ Hrefused)).
Defined.

Lemma loginUser_answer_witness :
  ∃ user stored refresh,
    user ∈ users Accounts.store
    ∧ User_findById
        (users (fst (loginUser Accounts.model
                       (Accounts.login "ann@example.org" "1") Accounts.store)))
        (Some (hex (user_id user)))
      = Some stored
    ∧ refreshToken stored = Some refresh.
Proof.
  destruct (snd (loginUser Accounts.model
                   (Accounts.login "ann@example.org" "1") Accounts.store))
    as [error|res] eqn:Hres; [vm_compute in Hres; discriminate Hres|].
  destruct (loginUser_answer Accounts.model
              (Accounts.login "ann@example.org" "1") Accounts.store res Hres)
    as (user & given & access & refresh & shown & stored & Hin & _ & _ & _ & _
        & _ & _ & _ & _ & _ & _ & _ & _ & Hstored & Hrefresh).
  by exists user, stored, refresh.
Defined.

Lemma refreshAccessToken_refuses_with_one_answer_witness :
  fst (refreshAccessToken Accounts.deps Accounts.model
         (Accounts.refresh_with "garbage") Accounts.store)
  = Accounts.store
  ∧ apiError 401 "Couldn't refresh access token. Invalid refresh token."
    = apiError 401
        (if truthy (js_or (cookies_refreshToken (Accounts.refresh_with "garbage"))
                          (body_refreshToken (Accounts.refresh_with "garbage")))
         then "Couldn't refresh access token. Invalid refresh token."
         else "No refresh token provided.").
Proof.
  apply (refreshAccessToken_refuses_with_one_answer Accounts.deps
           Accounts.model (Accounts.refresh_with "garbage") Accounts.store).
  vm_compute. reflexivity.
Defined.

Lemma refreshAccessToken_answer_witness :
  ∃ user,
    User_findById (users Accounts.store) (Some (hex (user_id user)))
    = Some user
    ∧ refreshToken user = Some "old.u1"
    ∧ User_findById
        (users (fst (refreshAccessToken Accounts.deps Accounts.model
                       (Accounts.refresh_with "old.u1") Accounts.store)))
        (Some (hex (user_id user)))
      = Some (set_refreshToken "new.u1" user).
Proof.
  destruct (snd (refreshAccessToken Accounts.deps Accounts.model
                   (Accounts.refresh_with "old.u1") Accounts.store))
    as [error|res] eqn:Hres; [vm_compute in Hres; discriminate Hres|].
  destruct (refreshAccessToken_answer Accounts.deps Accounts.model
              (Accounts.refresh_with "old.u1") Accounts.store res Hres)
    as (token & user & access & refresh & Hreceived & _ & _ & Hfind & Hheld
        & _ & _ & _ & Hnew & _ & _ & Hstored).
  exists user.
  assert (token = "old.u1") as -> by (vm_compute in Hreceived; congruence).
  assert (refresh = "new.u1") as ->.
  { vm_compute in Hres. injection Hres as <-. cbn in Hnew. congruence. }
  done.
Defined.

Lemma refreshAccessToken_used_token_is_refused_witness :
  refreshAccessToken Accounts.deps Accounts.model
    (Accounts.refresh_with "old.u1")
    (fst (refreshAccessToken Accounts.deps Accounts.model
            (Accounts.refresh_with "old.u1") Accounts.store))
  = (fst (refreshAccessToken Accounts.deps Accounts.model
            (Accounts.refresh_with "old.u1") Accounts.store),
     inl (apiError 401
            "Couldn't refresh access token. Invalid refresh token.")).
Proof.
  destruct (snd (refreshAccessToken Accounts.deps Accounts.model
                   (Accounts.refresh_with "old.u1") Accounts.store))
    as [error|res] eqn:Hres; [vm_compute in Hres; discriminate Hres|].
  apply (refreshAccessToken_used_token_is_refused Accounts.deps Accounts.model
           (Accounts.refresh_with "old.u1") Accounts.store res Hres).
  vm_compute in Hres. injection Hres as <-. vm_compute. discriminate.
Defined.

Lemma logoutuser_revokes_the_refresh_token_witness :
  ∃ message,
    refreshAccessToken Accounts.deps Accounts.model
      (Accounts.refresh_with "old.u1")
      (fst (logoutuser Accounts.ann Accounts.store))
    = (fst (logoutuser Accounts.ann Accounts.store),
       inl (apiError 401 message)).
Proof.
  apply (logoutuser_revokes_the_refresh_token Accounts.deps Accounts.model
           Accounts.ann (Accounts.refresh_with "old.u1") Accounts.store).
  vm_compute. reflexivity.
Defined.
